(** * Fulfillment system: catalog, order ledger, packing strategy, allocator

    A shallow embedding of the allocation and packing core of the
    fulfillment system (InventoryService, OrderQueueService,
    GreedyFirstFitStrategy, FulfillmentService) and the properties of its
    natural-language specification.

    Conventions of the embedding.
    - JavaScript numbers that hold identifiers, quantities, masses and
      timestamps are integers ([Z]).  [Math.floor (a / b)] is the floor
      division of [Z] for a non-zero divisor, and Infinity, -Infinity or NaN
      for a zero divisor (a product of unit mass 0), see [Quotient].
    - The in-memory catalog [Map<number, ProductEntity>] is a [gmap Z].  The
      write-through copy of the products in the durable store is never read
      back by the operations modelled here and is left out.
    - The order and shipment repositories are tables (lists of rows, in
      insertion order).  Generated primary keys, [updatedAt] and [shippedAt]
      are left out; [createdAt] is given to [enqueueOrder] by its caller.
    - An operation that throws keeps the mutations it has already made:
      operations are functions [State -> State * Result _].
    - The [while] loop of the packing strategy is run with fuel; [None]
      stands for a loop that has not finished within the fuel (or for a
      package whose quantity is not an integer). *)

From stdpp Require Import gmap list sorting strings.
From Stdlib Require Import ZArith Lia.

Local Open Scope Z_scope.

(** ** Data model *)

(** [{ productId, quantity }]: one line of an order, a package or a
    reservation. *)
Record Item := mkItem { productId : Z; quantity : Z }.

(** [{ product_id, quantity }]: one line of an inbound order or restock. *)
Module Req.
Record t := mk { product_id : Z; quantity : Z }.
End Req.

(** [{ product_id, product_name, mass_g }]: a product descriptor. *)
Module Info.
Record t := mk { product_id : Z; product_name : string; mass_g : Z }.
End Info.

Module Product.
Record t := mk {
  productId : Z;
  productName : string;
  massG : Z;
  quantityInStock : Z
}.
End Product.

Inductive OrderStatus := PENDING | PARTIALLY_FULFILLED | FULFILLED.

Module Order.
Record t := mk {
  orderId : Z;
  requestedItems : list Item;
  shippedItems : list Item;
  status : OrderStatus;
  totalShipments : Z;
  createdAt : Z
}.
End Order.

Module Shipment.
Record t := mk {
  orderId : Z;
  shippedItems : list Item;
  totalMassG : Z
}.
End Shipment.

(** [{ productId, productName, quantityInStock, massG }]: one row of a
    stock report. *)
Module StockRow.
Record t := mk {
  productId : Z;
  productName : string;
  quantityInStock : Z;
  massG : Z
}.
End StockRow.

Global Instance Item_eq_dec : EqDecision Item.
Proof. solve_decision. Defined.

Global Instance OrderStatus_eq_dec : EqDecision OrderStatus.
Proof. solve_decision. Defined.

(** ** Quotients of JavaScript numbers *)

(** The value of [Math.floor (a / b)] for integers [a] and [b]: the floor
    of the quotient, or, when [b] is 0, Infinity, -Infinity or NaN. *)
Inductive Quotient :=
| Finite (q : Z)
| PlusInfinity
| MinusInfinity
| NaN.

Definition floor_div (a b : Z) : Quotient :=
  if b =? 0 then
    if a >? 0 then PlusInfinity else if a <? 0 then MinusInfinity else NaN
  else Finite (a / b).

(** [q === 0]. *)
Definition is_zero (q : Quotient) : bool :=
  match q with
  | Finite z => z =? 0
  | _ => false
  end.

(** [Math.min q r] for an integer [r]: an integer, or [None] when it is
    -Infinity or NaN. *)
Definition min_with (q : Quotient) (r : Z) : option Z :=
  match q with
  | Finite z => Some (Z.min z r)
  | PlusInfinity => Some r
  | MinusInfinity | NaN => None
  end.

(** [units > 0], which -Infinity and NaN are not. *)
Definition positive (units : option Z) : option Z :=
  match units with
  | Some z => if z >? 0 then Some z else None
  | None => None
  end.

(** ** Errors and the state-and-exception monad *)

Inductive Error :=
| AlreadyInitialized
| ProductNotFound (id : Z)
| InsufficientStock (id available requested : Z)
| OrderNotFound (id : Z)
| ExceedsMaximumWeight (mass : Z).

Inductive Result (A : Type) :=
| Ok (a : A)
| Throw (e : Error).

Arguments Ok {A} a.
Arguments Throw {A} e.

Record State := mkState {
  catalog : gmap Z Product.t;
  isInitialized : bool;
  orders : list Order.t;
  shipments : list Shipment.t
}.

Definition M (A : Type) : Type := State -> State * Result A.

Definition ret {A} (a : A) : M A := fun s => (s, Ok a).

Definition throw {A} (e : Error) : M A := fun s => (s, Throw e).

Definition bind {A B} (c : M A) (k : A -> M B) : M B :=
  fun s => match c s with
           | (s', Ok a) => k a s'
           | (s', Throw e) => (s', Throw e)
           end.

Notation "'let!' x ':=' c 'in' k" := (bind c (fun x => k))
  (at level 10, x name, c at level 200, k at level 200).

Definition with_catalog (s : State) (c : gmap Z Product.t) : State :=
  mkState c (isInitialized s) (orders s) (shipments s).

Definition with_orders (s : State) (os : list Order.t) : State :=
  mkState (catalog s) (isInitialized s) os (shipments s).

Definition with_shipments (s : State) (sh : list Shipment.t) : State :=
  mkState (catalog s) (isInitialized s) (orders s) sh.

(** The state of a fresh process with an empty durable store. *)
Definition initial_state : State := mkState ∅ false [] [].

(** ** InventoryService *)

Module InventoryService.

Definition set_stock (p : Product.t) (q : Z) : Product.t :=
  Product.mk (Product.productId p) (Product.productName p) (Product.massG p) q.

(** The body of the [for] loop of [initCatalog]: the product is created, or
    overwritten, with no stock. *)
Definition init_product (cat : gmap Z Product.t) (info : Info.t) : gmap Z Product.t :=
  <[Info.product_id info :=
      Product.mk (Info.product_id info) (Info.product_name info) (Info.mass_g info) 0]> cat.

Definition initCatalog (productInfo : list Info.t) : M unit :=
  fun s =>
    if isInitialized s then (s, Throw AlreadyInitialized)
    else (mkState (foldl init_product ∅ productInfo) true (orders s) (shipments s), Ok tt).

(** The body of the [for] loop of [processRestock]: an unknown product is
    logged and skipped. *)
Definition restock_item (cat : gmap Z Product.t) (item : Req.t) : gmap Z Product.t :=
  match cat !! Req.product_id item with
  | None => cat
  | Some product =>
      <[Req.product_id item :=
          set_stock product (Product.quantityInStock product + Req.quantity item)]> cat
  end.

Definition processRestock (restock : list Req.t) : M unit :=
  fun s => (with_catalog s (foldl restock_item (catalog s) restock), Ok tt).

Fixpoint hasStock (cat : gmap Z Product.t) (items : list Item) : bool :=
  match items with
  | [] => true
  | item :: rest =>
      match cat !! productId item with
      | None => false
      | Some product =>
          if Product.quantityInStock product <? quantity item then false
          else hasStock cat rest
      end
  end.

(** The [for] loop of [reserveStock]: each item is checked and, when it
    passes, decremented in the catalog before the next item is looked at. *)
Fixpoint reserve_loop (cat : gmap Z Product.t) (items : list Item)
  : gmap Z Product.t * Result unit :=
  match items with
  | [] => (cat, Ok tt)
  | item :: rest =>
      match cat !! productId item with
      | None => (cat, Throw (ProductNotFound (productId item)))
      | Some product =>
          if Product.quantityInStock product <? quantity item then
            (cat, Throw (InsufficientStock (productId item)
                           (Product.quantityInStock product) (quantity item)))
          else
            reserve_loop
              (<[productId item :=
                   set_stock product (Product.quantityInStock product - quantity item)]> cat)
              rest
      end
  end.

Definition reserveStock (items : list Item) : M unit :=
  fun s => let '(cat, r) := reserve_loop (catalog s) items in (with_catalog s cat, r).

Definition getProduct (cat : gmap Z Product.t) (id : Z) : option Product.t := cat !! id.

Definition getAvailableStock (cat : gmap Z Product.t) (id : Z) : Z :=
  match cat !! id with
  | Some product => Product.quantityInStock product
  | None => 0
  end.

Definition calculateTotalMass (cat : gmap Z Product.t) (items : list Item) : Z :=
  foldl (fun totalMass item =>
           match cat !! productId item with
           | Some product => totalMass + Product.massG product * quantity item
           | None => totalMass
           end) 0 items.

Definition resetCatalog : M unit :=
  fun s => (mkState ∅ false (orders s) (shipments s), Ok tt).

Definition isCatalogInitialized : M bool := fun s => (s, Ok (isInitialized s)).

Definition stock_row (product : Product.t) : StockRow.t :=
  StockRow.mk (Product.productId product) (Product.productName product)
    (Product.quantityInStock product) (Product.massG product).

(** [null] for a product that is not in the catalog. *)
Definition getProductStock (cat : gmap Z Product.t) (productId : Z) : option StockRow.t :=
  match cat !! productId with
  | None => None
  | Some product => Some (stock_row product)
  end.

(** [stockReport.sort((a, b) => a.productId - b.productId)]: ascending,
    and stable. *)
Fixpoint insert_by_productId (row : StockRow.t) (l : list StockRow.t) : list StockRow.t :=
  match l with
  | [] => [row]
  | y :: l' =>
      if StockRow.productId y <? StockRow.productId row
      then y :: insert_by_productId row l'
      else row :: y :: l'
  end.

Definition sort_by_productId (l : list StockRow.t) : list StockRow.t :=
  foldr insert_by_productId [] l.

(** The body of [getAllStock] for the products in the order in which the
    catalog map iterates over them. *)
Definition stock_report (products : list Product.t) : list StockRow.t :=
  sort_by_productId (map stock_row products).

(** [Array.from(this.catalog.values())].  A JavaScript map iterates in
    insertion order, which the catalog as a [gmap] does not record: the order
    here is that of [map_to_list].  [getAllStock] sorts the rows and
    [getSystemStatus] counts them. *)
Definition getAllProducts (cat : gmap Z Product.t) : list Product.t :=
  (map_to_list cat).*2.

Definition getAllStock (cat : gmap Z Product.t) : list StockRow.t :=
  stock_report (getAllProducts cat).

End InventoryService.

(** ** OrderQueueService *)

(** [find]-then-add-or-[push]: the line of the same product, if there is
    one, has its quantity increased, else the item is appended.  The source
    writes this pattern out in [updateOrderShipment], in [batchShipPackages]
    and in [packShipment]. *)
Fixpoint merge_item (items : list Item) (item : Item) : list Item :=
  match items with
  | [] => [item]
  | existing :: rest =>
      if productId existing =? productId item
      then mkItem (productId existing) (quantity existing + quantity item) :: rest
      else existing :: merge_item rest item
  end.

Module OrderQueueService.

(** [repository.findOne({ where: { orderId } })]. *)
Definition findOne (os : list Order.t) (orderId : Z) : option Order.t :=
  List.find (fun o => Order.orderId o =? orderId) os.

(** [repository.save order]: the row of that (unique) order id is
    replaced, a new order is appended. *)
Fixpoint save (os : list Order.t) (order : Order.t) : list Order.t :=
  match os with
  | [] => [order]
  | o :: rest =>
      if Order.orderId o =? Order.orderId order then order :: rest
      else o :: save rest order
  end.

Definition to_items (requestedItems : list Req.t) : list Item :=
  map (fun item => mkItem (Req.product_id item) (Req.quantity item)) requestedItems.

(** [now] is the creation timestamp the store gives to a new row. *)
Definition enqueueOrder (now : Z) (orderId : Z) (requestedItems : list Req.t)
  : M Order.t :=
  fun s =>
    let order :=
      match findOne (orders s) orderId with
      | Some order =>
          Order.mk (Order.orderId order) (to_items requestedItems)
            (Order.shippedItems order) PENDING
            (Order.totalShipments order) (Order.createdAt order)
      | None => Order.mk orderId (to_items requestedItems) [] PENDING 0 now
      end in
    (with_orders s (save (orders s) order), Ok order).

Definition is_pending (o : Order.t) : Prop :=
  Order.status o = PENDING \/ Order.status o = PARTIALLY_FULFILLED.

Global Instance is_pending_dec o : Decision (is_pending o).
Proof. unfold is_pending. apply _. Defined.

Definition created_le (a b : Order.t) : Prop :=
  Order.createdAt a <= Order.createdAt b.

Global Instance created_le_dec a b : Decision (created_le a b).
Proof. unfold created_le. apply _. Defined.

(** [repository.find] with [where: status PENDING or PARTIALLY_FULFILLED]
    and [order: { createdAt: "ASC" }]. *)
Definition getPendingOrders : M (list Order.t) :=
  fun s => (s, Ok (merge_sort created_le (filter is_pending (orders s)))).

Definition getOrder (orderId : Z) : M (option Order.t) :=
  fun s => (s, Ok (findOne (orders s) orderId)).

(** [shippedItem ? shippedItem.quantity : 0] for the first shipped line of
    the product. *)
Definition shippedQuantity (shippedItems : list Item) (id : Z) : Z :=
  match List.find (fun item => productId item =? id) shippedItems with
  | Some shippedItem => quantity shippedItem
  | None => 0
  end.

Definition isOrderFulfilled (order : Order.t) : bool :=
  forallb (fun requestedItem =>
             negb (shippedQuantity (Order.shippedItems order) (productId requestedItem)
                     <? quantity requestedItem))
          (Order.requestedItems order).

Definition updateOrderShipment (orderId : Z) (shippedItems : list Item) : M Order.t :=
  fun s =>
    match findOne (orders s) orderId with
    | None => (s, Throw (OrderNotFound orderId))
    | Some order =>
        let shipped := foldl merge_item (Order.shippedItems order) shippedItems in
        let counted :=
          Order.mk (Order.orderId order) (Order.requestedItems order) shipped
            (Order.status order) (Order.totalShipments order + 1)
            (Order.createdAt order) in
        let updatedOrder :=
          Order.mk (Order.orderId order) (Order.requestedItems order) shipped
            (if isOrderFulfilled counted then FULFILLED else PARTIALLY_FULFILLED)
            (Order.totalShipments order + 1) (Order.createdAt order) in
        (with_orders s (save (orders s) updatedOrder), Ok updatedOrder)
    end.

Fixpoint remaining_of (shippedItems : list Item) (requestedItems : list Item)
  : list Item :=
  match requestedItems with
  | [] => []
  | requestedItem :: rest =>
      let remainingQuantity :=
        quantity requestedItem - shippedQuantity shippedItems (productId requestedItem) in
      if remainingQuantity >? 0
      then mkItem (productId requestedItem) remainingQuantity
             :: remaining_of shippedItems rest
      else remaining_of shippedItems rest
  end.

Definition getRemainingItems (order : Order.t) : list Item :=
  remaining_of (Order.shippedItems order) (Order.requestedItems order).

(** The pending-order cache after [getPendingOrders]: cleared, then one
    entry per order returned, under its order identifier. *)
Definition pending_cache (pendingOrders : list Order.t) : gmap Z Order.t :=
  foldl (fun cache order => <[Order.orderId order := order]> cache) ∅ pendingOrders.

End OrderQueueService.

(** ** GreedyFirstFitStrategy *)

Module GreedyFirstFitStrategy.

(** [{ ...item, unitWeight, product }]. *)
Record ItemWithWeight := mkW { item : Item; unitWeight : Z }.

(** [map] then [filter (item.product && item.quantity > 0)]. *)
Fixpoint weigh (cat : gmap Z Product.t) (items : list Item) : list ItemWithWeight :=
  match items with
  | [] => []
  | it :: rest =>
      match cat !! productId it with
      | Some product =>
          if quantity it >? 0
          then mkW it (Product.massG product) :: weigh cat rest
          else weigh cat rest
      | None => weigh cat rest
      end
  end.

(** [sort ((a, b) => b.unitWeight - a.unitWeight)]: heaviest first, and
    stable, as [Array.prototype.sort] is. *)
Fixpoint insert_heaviest_first (x : ItemWithWeight) (l : list ItemWithWeight)
  : list ItemWithWeight :=
  match l with
  | [] => [x]
  | y :: l' =>
      if unitWeight y >? unitWeight x then y :: insert_heaviest_first x l'
      else x :: y :: l'
  end.

Definition sort_heaviest_first (l : list ItemWithWeight) : list ItemWithWeight :=
  foldr insert_heaviest_first [] l.

Definition itemsWithWeight (cat : gmap Z Product.t) (items : list Item)
  : list ItemWithWeight :=
  sort_heaviest_first (weigh cat items).

Definition calculateShipmentWeight (cat : gmap Z Product.t) (shipment : list Item) : Z :=
  foldl (fun total it =>
           total + match cat !! productId it with
                   | Some product => Product.massG product * quantity it
                   | None => 0
                   end) 0 shipment.

(** The [for (const shipment of shipments)] scan: the first shipment that
    can take at least one unit takes as many as fit; the result is the new
    list of shipments and the number of units added. *)
Fixpoint try_existing (cat : gmap Z Product.t) (maxWeightG : Z)
    (id unitW remainingQuantity : Z) (shipments : list (list Item))
  : option (list (list Item) * Z) :=
  match shipments with
  | [] => None
  | shipment :: rest =>
      let currentWeight := calculateShipmentWeight cat shipment in
      let availableWeight := maxWeightG - currentWeight in
      let maxAddableUnits := floor_div availableWeight unitW in
      match positive (min_with maxAddableUnits remainingQuantity) with
      | Some unitsToAdd =>
          Some (merge_item shipment (mkItem id unitsToAdd) :: rest, unitsToAdd)
      | None =>
          match try_existing cat maxWeightG id unitW remainingQuantity rest with
          | Some (rest', added) => Some (shipment :: rest', added)
          | None => None
          end
      end
  end.

(** The [while (remainingQuantity > 0)] loop for one item.  A new shipment
    whose quantity would be NaN or -Infinity (unit weight 0 under a ceiling
    that is not positive) is outside the integer model: [None]. *)
Fixpoint pack_item (fuel : nat) (cat : gmap Z Product.t) (maxWeightG : Z)
    (id unitW : Z) (shipments : list (list Item)) (remainingQuantity : Z)
  : option (list (list Item)) :=
  if remainingQuantity >? 0 then
    match fuel with
    | O => None
    | S fuel' =>
        let maxUnitsPerShipment := floor_div maxWeightG unitW in
        if is_zero maxUnitsPerShipment then Some shipments
        else
          match try_existing cat maxWeightG id unitW remainingQuantity shipments with
          | Some (shipments', unitsToAdd) =>
              pack_item fuel' cat maxWeightG id unitW shipments'
                (remainingQuantity - unitsToAdd)
          | None =>
              match min_with maxUnitsPerShipment remainingQuantity with
              | Some unitsForNewShipment =>
                  pack_item fuel' cat maxWeightG id unitW
                    (shipments ++ [[mkItem id unitsForNewShipment]])
                    (remainingQuantity - unitsForNewShipment)
              | None => None
              end
          end
    end
  else Some shipments.

(** The [for (const item of itemsWithWeight)] loop. *)
Fixpoint pack_items (fuel : nat) (cat : gmap Z Product.t) (maxWeightG : Z)
    (items : list ItemWithWeight) (shipments : list (list Item))
  : option (list (list Item)) :=
  match items with
  | [] => Some shipments
  | it :: rest =>
      match pack_item fuel cat maxWeightG (productId (item it)) (unitWeight it)
              shipments (quantity (item it)) with
      | Some shipments' => pack_items fuel cat maxWeightG rest shipments'
      | None => None
      end
  end.

Definition packShipment (fuel : nat) (cat : gmap Z Product.t)
    (items : list Item) (maxWeightG : Z) : option (list (list Item)) :=
  pack_items fuel cat maxWeightG (itemsWithWeight cat items) [].

End GreedyFirstFitStrategy.

(** ** FulfillmentService *)

Module FulfillmentService.

Definition MAX_PACKAGE_WEIGHT_G : Z := 1800.

Definition BATCH_SIZE : nat := 50.

(** [for (const x of l) await f x]: the first exception ends the loop. *)
Fixpoint for_each {A} (f : A -> M unit) (l : list A) : M unit :=
  match l with
  | [] => ret tt
  | x :: rest => let! _ := f x in for_each f rest
  end.

Fixpoint getShippableItems (cat : gmap Z Product.t) (requestedItems : list Item)
  : list Item :=
  match requestedItems with
  | [] => []
  | it :: rest =>
      let availableStock := InventoryService.getAvailableStock cat (productId it) in
      let shippableQuantity := Z.min (quantity it) availableStock in
      if shippableQuantity >? 0
      then mkItem (productId it) shippableQuantity :: getShippableItems cat rest
      else getShippableItems cat rest
  end.

(** [repository.insert] on the shipment table. *)
Definition insert_shipments (rows : list Shipment.t) : M unit :=
  fun s => (with_shipments s (shipments s ++ rows), Ok tt).

Definition shipPackage (orderId : Z) (items : list Item) : M unit :=
  fun s =>
    let totalMass := InventoryService.calculateTotalMass (catalog s) items in
    if totalMass >? MAX_PACKAGE_WEIGHT_G
    then (s, Throw (ExceedsMaximumWeight totalMass))
    else
      (let! _ := InventoryService.reserveStock items in
       let! _ := insert_shipments [Shipment.mk orderId items totalMass] in
       let! _ := OrderQueueService.updateOrderShipment orderId items in
       ret tt) s.

(** The body of [for (const shipmentItems of batch)]: an overweight
    shipment is logged and skipped, the others are added to the items to
    reserve and to the rows to insert. *)
Definition collect_shipment (cat : gmap Z Product.t) (orderId : Z)
    (acc : list Item * list Shipment.t) (shipmentItems : list Item)
  : list Item * list Shipment.t :=
  let shipmentMass := InventoryService.calculateTotalMass cat shipmentItems in
  if shipmentMass >? MAX_PACKAGE_WEIGHT_G then acc
  else (foldl merge_item (fst acc) shipmentItems,
        snd acc ++ [Shipment.mk orderId shipmentItems shipmentMass]).

Definition is_empty {A} (l : list A) : bool :=
  match l with [] => true | _ => false end.

(** One batch: a single reservation, a single insert and a single order
    update for all its shipments. *)
Definition process_batch (orderId : Z) (batch : list (list Item)) : M unit :=
  fun s =>
    let '(allBatchItems, shipmentData) :=
      foldl (collect_shipment (catalog s) orderId) ([], []) batch in
    (let! _ := (if is_empty allBatchItems then ret tt
              else InventoryService.reserveStock allBatchItems) in
     let! _ := (if is_empty shipmentData then ret tt
              else insert_shipments shipmentData) in
     let! _ := (if is_empty allBatchItems then ret tt
              else let! _ := OrderQueueService.updateOrderShipment orderId allBatchItems in
                   ret tt) in
     ret tt) s.

(** The values of [i] in [for (let i = 0; i < totalShipments; i += BATCH_SIZE)]. *)
Definition batch_starts (totalShipments : nat) : list nat :=
  map (fun k => k * BATCH_SIZE)%nat
      (seq 0 ((totalShipments + (BATCH_SIZE - 1)) / BATCH_SIZE)%nat).

Definition batchShipPackages (orderId : Z) (allShipments : list (list Item)) : M unit :=
  for_each
    (fun i => process_batch orderId (take BATCH_SIZE (drop i allShipments)))
    (batch_starts (length allShipments)).

(** The pass over the packages of one order. *)
Definition ship_all (orderId : Z) (packages : list (list Item)) : M unit :=
  if (100 <? length packages)%nat
  then batchShipPackages orderId packages
  else for_each (shipPackage orderId) packages.

Definition attemptFulfillment (fuel : nat) (order : Order.t) (s : State)
  : option (State * Result unit) :=
  let remainingItems := OrderQueueService.getRemainingItems order in
  if is_empty remainingItems then Some (s, Ok tt)
  else
    let shippableItems := getShippableItems (catalog s) remainingItems in
    if is_empty shippableItems then Some (s, Ok tt)
    else
      match GreedyFirstFitStrategy.packShipment fuel (catalog s) shippableItems
              MAX_PACKAGE_WEIGHT_G with
      | None => None
      | Some packages => Some (ship_all (Order.orderId order) packages s)
      end.

Fixpoint attempt_each (fuel : nat) (pendingOrders : list Order.t) (s : State)
  : option (State * Result unit) :=
  match pendingOrders with
  | [] => Some (s, Ok tt)
  | order :: rest =>
      match attemptFulfillment fuel order s with
      | None => None
      | Some (s', Ok _) => attempt_each fuel rest s'
      | Some (s', Throw e) => Some (s', Throw e)
      end
  end.

Definition fulfillPendingOrders (fuel : nat) (s : State) : option (State * Result unit) :=
  match OrderQueueService.getPendingOrders s with
  | (s', Ok pendingOrders) => attempt_each fuel pendingOrders s'
  | (s', Throw e) => Some (s', Throw e)
  end.

Definition processOrder (fuel : nat) (now : Z) (order_id : Z) (requested : list Req.t)
    (s : State) : option (State * Result unit) :=
  match OrderQueueService.enqueueOrder now order_id requested s with
  | (s', Ok orderEntity) => attemptFulfillment fuel orderEntity s'
  | (s', Throw e) => Some (s', Throw e)
  end.

Definition processRestock (fuel : nat) (restock : list Req.t) (s : State)
  : option (State * Result unit) :=
  match InventoryService.processRestock restock s with
  | (s', Ok _) => fulfillPendingOrders fuel s'
  | (s', Throw e) => Some (s', Throw e)
  end.

(** [getOrderStatus]: the order, what remains of it and its shipment
    records ([repository.find({ where: { orderId } })], here in the order of
    insertion); nothing for an order that is not in the ledger. *)
Definition getOrderStatus (orderId : Z) (s : State)
  : option Order.t * list Item * list Shipment.t :=
  match OrderQueueService.findOne (orders s) orderId with
  | None => (None, [], [])
  | Some order =>
      (Some order, OrderQueueService.getRemainingItems order,
       filter (fun row => Shipment.orderId row = orderId) (shipments s))
  end.

(** [getOrderQueue]: the pending orders and [getPendingOrderCount], the
    size of the cache that [getPendingOrders] has just refilled. *)
Definition getOrderQueue : M (list Order.t * nat) :=
  let! pendingOrders := OrderQueueService.getPendingOrders in
  ret (pendingOrders, size (OrderQueueService.pending_cache pendingOrders)).

End FulfillmentService.

(** ** FulfillmentController *)

(** The handlers of the HTTP interface, for request bodies that have the
    JSON types the handlers check for; a response is its status code. *)
Module FulfillmentController.

(** The validation loop over the lines of an order or of a restock: [true]
    when a line is answered with 400. *)
Fixpoint rejects (items : list Req.t) : bool :=
  match items with
  | [] => false
  | item :: rest =>
      if Req.quantity item <=? 0 then true
      else if Req.quantity item >? 10000000 then true
      else rejects rest
  end.

Definition initCatalog (productInfo : list Info.t) (s : State) : State * Z :=
  if FulfillmentService.is_empty productInfo then (s, 400)
  else match InventoryService.initCatalog productInfo s with
       | (s', Ok _) => (s', 200)
       | (s', Throw _) => (s', 500)
       end.

Definition processOrder (fuel : nat) (now order_id : Z) (requested : list Req.t)
    (s : State) : option (State * Z) :=
  if FulfillmentService.is_empty requested then Some (s, 400)
  else if rejects requested then Some (s, 400)
  else match FulfillmentService.processOrder fuel now order_id requested s with
       | None => None
       | Some (s', Ok _) => Some (s', 200)
       | Some (s', Throw _) => Some (s', 500)
       end.

Definition processRestock (fuel : nat) (restock : list Req.t) (s : State)
  : option (State * Z) :=
  if FulfillmentService.is_empty restock then Some (s, 400)
  else if rejects restock then Some (s, 400)
  else match FulfillmentService.processRestock fuel restock s with
       | None => None
       | Some (s', Ok _) => Some (s', 200)
       | Some (s', Throw _) => Some (s', 500)
       end.

Definition resetCatalog (s : State) : State * Z :=
  ((InventoryService.resetCatalog s).1, 200).

Definition getOrderStatus (orderId : Z) (s : State) : Z :=
  match FulfillmentService.getOrderStatus orderId s with
  | (None, _, _) => 404
  | (Some _, _, _) => 200
  end.

Definition getProductStock (productId : Z) (s : State) : Z :=
  match InventoryService.getProductStock (catalog s) productId with
  | None => 404
  | Some _ => 200
  end.

End FulfillmentController.

(** The requests that change the state, and the states they lead to. *)
Inductive Request :=
| PostInitCatalog (productInfo : list Info.t)
| PostProcessOrder (now order_id : Z) (requested : list Req.t)
| PostProcessRestock (restock : list Req.t)
| PostResetCatalog.

Definition handle (fuel : nat) (request : Request) (s : State) : option (State * Z) :=
  match request with
  | PostInitCatalog productInfo => Some (FulfillmentController.initCatalog productInfo s)
  | PostProcessOrder now order_id requested =>
      FulfillmentController.processOrder fuel now order_id requested s
  | PostProcessRestock restock => FulfillmentController.processRestock fuel restock s
  | PostResetCatalog => Some (FulfillmentController.resetCatalog s)
  end.

Inductive served (s : State) : State -> Prop :=
| served_refl : served s s
| served_step s' s'' request fuel code :
    served s s' ->
    handle fuel request s' = Some (s'', code) ->
    served s s''.


(** The pass over the packages of an order as the specification words it:
    a package that cannot be shipped is logged and skipped, and the pass
    goes on with the next package. *)
Fixpoint pass_skipping_failures (orderId : Z) (packages : list (list Item)) (s : State)
  : State :=
  match packages with
  | [] => s
  | items :: rest =>
      pass_skipping_failures orderId rest (FulfillmentService.shipPackage orderId items s).1
  end.

(** The batches of [batchShipPackages], in the order they are processed. *)
Definition batches (allShipments : list (list Item)) : list (list (list Item)) :=
  map (fun i => take FulfillmentService.BATCH_SIZE (drop i allShipments))
      (FulfillmentService.batch_starts (length allShipments)).

(** The items a batch reserves: those of its shipments within the ceiling,
    merged by product. *)
Definition batch_items (cat : gmap Z Product.t) (orderId : Z) (batch : list (list Item))
  : list Item :=
  (foldl (FulfillmentService.collect_shipment cat orderId) ([], []) batch).1.

(** ** The public operations and the states they reach *)

Inductive Op :=
| OpInitCatalog (productInfo : list Info.t)
| OpResetCatalog
| OpReserveStock (items : list Item)
| OpProcessOrder (now order_id : Z) (requested : list Req.t)
| OpProcessRestock (restock : list Req.t)
| OpEnqueueOrder (now orderId : Z) (requestedItems : list Req.t)
| OpUpdateOrderShipment (orderId : Z) (shippedItems : list Item).

Definition lift {A} (c : M A) : State -> option (State * Result unit) :=
  fun s => Some (bind c (fun _ => ret tt) s).

Definition exec (fuel : nat) (op : Op) : State -> option (State * Result unit) :=
  match op with
  | OpInitCatalog productInfo => lift (InventoryService.initCatalog productInfo)
  | OpResetCatalog => lift InventoryService.resetCatalog
  | OpReserveStock items => lift (InventoryService.reserveStock items)
  | OpProcessOrder now order_id requested =>
      FulfillmentService.processOrder fuel now order_id requested
  | OpProcessRestock restock => FulfillmentService.processRestock fuel restock
  | OpEnqueueOrder now orderId requestedItems =>
      lift (OrderQueueService.enqueueOrder now orderId requestedItems)
  | OpUpdateOrderShipment orderId shippedItems =>
      lift (OrderQueueService.updateOrderShipment orderId shippedItems)
  end.

(** The service operation that the handler of a request calls once it has
    checked the body. *)
Definition operation_of (request : Request) : Op :=
  match request with
  | PostInitCatalog productInfo => OpInitCatalog productInfo
  | PostProcessOrder now order_id requested => OpProcessOrder now order_id requested
  | PostProcessRestock restock => OpProcessRestock restock
  | PostResetCatalog => OpResetCatalog
  end.

(** [reach allowed s s']: [s'] is the state after a sequence of operations
    started in [s], each allowed in the state it is called in.  An operation
    that throws still counts: the state it leaves is reached. *)
Inductive reach (allowed : State -> Op -> Prop) (s : State) : State -> Prop :=
| reach_refl : reach allowed s s
| reach_step s' s'' op fuel r :
    reach allowed s s' ->
    allowed s' op ->
    exec fuel op s' = Some (s'', r) ->
    reach allowed s s''.

Definition not_reset (_ : State) (op : Op) : Prop := op <> OpResetCatalog.

(** What the HTTP layer checks before it calls the core: every line of an
    order or of a restock has a positive quantity. *)
Definition checked_by_controller (_ : State) (op : Op) : Prop :=
  match op with
  | OpProcessOrder _ _ requested
  | OpEnqueueOrder _ _ requested => Forall (fun line => 0 < Req.quantity line) requested
  | OpProcessRestock restock => Forall (fun line => 0 < Req.quantity line) restock
  | _ => True
  end.

(** The public operations with every order identifier submitted once:
    [processOrder] and [enqueueOrder] name an identifier that is not in the
    ledger, with lines of positive quantity, and [updateOrderShipment] is
    left to the allocator. *)
Definition first_submission (s : State) (op : Op) : Prop :=
  match op with
  | OpProcessOrder _ order_id requested
  | OpEnqueueOrder _ order_id requested =>
      OrderQueueService.findOne (orders s) order_id = None /\
      Forall (fun line => 0 < Req.quantity line) requested
  | OpUpdateOrderShipment _ _ => False
  | _ => True
  end.

(** The operation keeps the property of the state, also when it throws. *)
Definition preserves {A} (P : State -> Prop) (c : M A) : Prop :=
  forall s, P s -> P (c s).1.

Definition stock_nonneg (cat : gmap Z Product.t) : Prop :=
  forall id product, cat !! id = Some product -> 0 <= Product.quantityInStock product.

(** ** Scenarios of the specification, run on the model *)

Definition product0 : Info.t := Info.mk 0 "RBC A+ Adult" 700.

Definition run (c : State -> option (State * Result unit)) (s : option State) : option State :=
  match s with
  | Some s0 => match c s0 with
               | Some (s1, Ok _) => Some s1
               | _ => None
               end
  | None => None
  end.

Definition stock_of (s : State) (id : Z) : Z :=
  InventoryService.getAvailableStock (catalog s) id.

Definition scenario9_state : State :=
  mkState {[ 0 := Product.mk 0 "RBC A+ Adult" 700 3 ]} true
    [Order.mk 1 [mkItem 0 2] [mkItem 0 2] FULFILLED 1 1]
    [Shipment.mk 1 [mkItem 0 2] 1400].

(** A catalog of two products with five units of product 0 and none of
    product 1. *)
Definition stocked_state : State :=
  (InventoryService.processRestock [Req.mk 0 5]
     (InventoryService.initCatalog
        [product0; Info.mk 1 "PLT AB+" 80] initial_state).1).1.

Definition catalog_mixed : gmap Z Product.t :=
  <[1 := Product.mk 1 "PLT AB+" 80 0]> (<[0 := Product.mk 0 "RBC A+ Adult" 700 0]> ∅).

(** One product of 1000 g with 101 units in stock and an order for all of
    them: 101 packages of one unit. *)
Definition state_101 : State :=
  mkState {[ 0 := Product.mk 0 "RBC A+ Adult" 1000 101 ]} true
    [Order.mk 1 [mkItem 0 101] [] PENDING 0 1] [].

Definition packages_101 : list (list Item) := replicate 101 [mkItem 0 1].

(** One unit of product 0 (1000 g), five units of product 1 (900 g), and
    the packages packed for an order with two lines of one unit of product 0
    and one line of one unit of product 1. *)
Definition state_short : State :=
  mkState (<[1 := Product.mk 1 "PLT AB+" 900 5]>
             {[ 0 := Product.mk 0 "RBC A+ Adult" 1000 1 ]}) true [] [].

Definition order_short : list Req.t := [Req.mk 0 1; Req.mk 0 1; Req.mk 1 1].

Definition short_s : State :=
  (OrderQueueService.enqueueOrder 1 1 order_short state_short).1.

Definition short_s1 : State :=
  (FulfillmentService.for_each (FulfillmentService.shipPackage 1) [[mkItem 0 1]] short_s).1.

Definition short_s2 : State :=
  (InventoryService.reserveStock [mkItem 0 1] short_s1).1.

(** Two open orders for one unit of product 0, which is out of stock; the
    older order, [order_A], is the second row of the table. *)
Definition order_A : Order.t := Order.mk 1 [mkItem 0 1] [] PENDING 0 10.

Definition order_B : Order.t := Order.mk 2 [mkItem 0 1] [] PENDING 0 20.

Definition state_fifo : State :=
  mkState {[ 0 := Product.mk 0 "RBC A+ Adult" 700 0 ]} true [order_B; order_A] [].

(** The same two orders when the older one has its unit in two lines of
    the product, when the product is heavier than a package, and when its
    unit mass is negative. *)
Definition order_A2 : Order.t := Order.mk 1 [mkItem 0 1; mkItem 0 1] [] PENDING 0 10.

Definition state_two_lines : State :=
  mkState {[ 0 := Product.mk 0 "RBC A+ Adult" 700 0 ]} true [order_A2; order_B] [].

Definition state_heavy : State :=
  mkState {[ 0 := Product.mk 0 "RBC A+ Adult" 2000 0 ]} true [order_A; order_B] [].

Definition state_negative : State :=
  mkState {[ 0 := Product.mk 0 "RBC A+ Adult" (-5) 0 ]} true [order_A; order_B] [].

(** The two orders behind an older open order for product 1, which has two
    lines of two units and finds three units in stock. *)
Definition order_C : Order.t := Order.mk 3 [mkItem 1 2; mkItem 1 2] [] PENDING 0 5.

Definition state_blocked : State :=
  mkState (<[1 := Product.mk 1 "PLT AB+" 80 3]>
             {[ 0 := Product.mk 0 "RBC A+ Adult" 700 0 ]}) true
    [order_C; order_A; order_B] [].

(** Three products, entered and restocked out of identifier order. *)
Definition state_three : State :=
  mkState (<[2 := Product.mk 2 "FFP" 300 4]>
             (<[0 := Product.mk 0 "RBC A+ Adult" 700 1]>
                {[ 1 := Product.mk 1 "PLT AB+" 80 0 ]})) true [] [].

(** Order 1 for two units, shipped; order 2, open; then order 1 submitted
    again, for five units. *)
Definition state_resubmitted : State :=
  mkState {[ 0 := Product.mk 0 "RBC A+ Adult" 700 0 ]} true
    [Order.mk 1 [mkItem 0 5] [mkItem 0 2] PENDING 1 1;
     Order.mk 2 [mkItem 0 1] [] PENDING 0 2]
    [Shipment.mk 1 [mkItem 0 2] 1400].

(** Sixty units of product 0 (1000 g) and an order with two lines of sixty
    units: 120 packages of one unit, in batches of 50, 50 and 20. *)
Definition state_120 : State :=
  mkState {[ 0 := Product.mk 0 "RBC A+ Adult" 1000 60 ]} true
    [Order.mk 1 [mkItem 0 60; mkItem 0 60] [] PENDING 0 1] [].

Definition state_120_1 : State :=
  (FulfillmentService.process_batch 1 (replicate 50 [mkItem 0 1]) state_120).1.

Definition state_120_2 : State :=
  (InventoryService.reserveStock [mkItem 0 50] state_120_1).1.

Definition scenario12_start : option State :=
  run (FulfillmentService.processRestock 10 [Req.mk 0 2])
    (run (lift (InventoryService.initCatalog [product0])) (Some initial_state)).


(** ** Quantities and masses of lists of items *)

(** The sum over the lines of a list of [c productId * quantity]. *)
Definition weighted (c : Z -> Z) (items : list Item) : Z :=
  foldr (fun it acc => c (productId it) * quantity it + acc) 0 items.

(** The unit mass the catalog gives a product, 0 when it is unknown. *)
Definition unit_mass (cat : gmap Z Product.t) (id : Z) : Z :=
  match cat !! id with
  | Some product => Product.massG product
  | None => 0
  end.

(** The number of units in a list of items, and those of one product. *)
Definition total_quantity (items : list Item) : Z := weighted (fun _ => 1) items.

Definition quantity_of (id : Z) (items : list Item) : Z :=
  weighted (fun id' => if id' =? id then 1 else 0) items.

(** No product has a negative unit mass. *)
Definition masses_nonnegative (cat : gmap Z Product.t) : Prop :=
  forall id product, cat !! id = Some product -> 0 <= Product.massG product.

(** A shipment with more than [unitW] grams left under the ceiling. *)
Definition roomy (cat : gmap Z Product.t) (maxWeightG unitW : Z) (shipment : list Item)
  : Prop :=
  unitW < maxWeightG - GreedyFirstFitStrategy.calculateShipmentWeight cat shipment.

(** A package is within the ceiling. *)
Definition within (cat : gmap Z Product.t) (maxWeightG : Z) (shipment : list Item) : Prop :=
  GreedyFirstFitStrategy.calculateShipmentWeight cat shipment <= maxWeightG.

(** Every line of a package has a positive quantity. *)
Definition positive_lines (shipment : list Item) : Prop :=
  Forall (fun it => 0 < quantity it) shipment.

(** A weighed item as [packShipment] makes them: a positive quantity and
    the unit weight of the catalog. *)
Definition weighed (cat : gmap Z Product.t)
    (x : GreedyFirstFitStrategy.ItemWithWeight) : Prop :=
  0 < quantity (GreedyFirstFitStrategy.item x) /\
  unit_mass cat (productId (GreedyFirstFitStrategy.item x))
  = GreedyFirstFitStrategy.unitWeight x.

(** What the loop for a weighed item needs to end within the fuel: a unit
    weight that is not negative and a quantity of at most [fuel] units. *)
Definition packable (fuel : nat) (cat : gmap Z Product.t)
    (x : GreedyFirstFitStrategy.ItemWithWeight) : Prop :=
  0 <= GreedyFirstFitStrategy.unitWeight x /\
  0 < quantity (GreedyFirstFitStrategy.item x) /\
  unit_mass cat (productId (GreedyFirstFitStrategy.item x))
  = GreedyFirstFitStrategy.unitWeight x /\
  (Z.to_nat (quantity (GreedyFirstFitStrategy.item x)) <= fuel)%nat.

(** The items [packShipment] keeps: known product, positive quantity. *)
Definition kept (cat : gmap Z Product.t) (it : Item) : Prop :=
  is_Some (cat !! productId it) /\ 0 < quantity it.

Global Instance kept_dec cat it : Decision (kept cat it).
Proof. unfold kept. apply _. Defined.

(** Fuel that is enough for every item of a list: its largest quantity. *)
Definition enough_fuel (items : list Item) : nat :=
  foldr (fun it acc => Nat.max (Z.to_nat (quantity it)) acc) 0%nat items.

(** [order'] is [order] after [items] more have been recorded as shipped. *)
Definition shipped_more (order order' : Order.t) (items : list Item) : Prop :=
  Order.orderId order' = Order.orderId order /\
  Order.requestedItems order' = Order.requestedItems order /\
  Order.createdAt order' = Order.createdAt order /\
  forall id,
    OrderQueueService.shippedQuantity (Order.shippedItems order') id
    = OrderQueueService.shippedQuantity (Order.shippedItems order) id
      + quantity_of id items.

(** The order table [os'] is [os] with [items] more recorded as shipped for
    the order [orderId], and nothing else changed. *)
Definition recorded (orderId : Z) (items : list Item) (os os' : list Order.t) : Prop :=
  match OrderQueueService.findOne os orderId with
  | None => os' = os
  | Some order =>
      exists order', os' = OrderQueueService.save os order' /\
                     shipped_more order order' items
  end.

(** The Order data model, with the invariant on shipped quantities: the
    requested lines have positive quantities and, product by product, the
    shipped quantity is between 0 and the requested quantity (the sum of the
    order's lines for the product). *)
Definition good_order (order : Order.t) : Prop :=
  positive_lines (Order.requestedItems order) /\
  forall id,
    0 <= OrderQueueService.shippedQuantity (Order.shippedItems order) id
    <= quantity_of id (Order.requestedItems order).

(** The invariant of the ledger: one row per order identifier, every order
    within its data model. *)
Definition ledger_inv (s : State) : Prop :=
  NoDup (map Order.orderId (orders s)) /\
  Forall good_order (orders s).

(** The order still lacks units of the product. *)
Definition needs (order : Order.t) (id : Z) : Prop :=
  id ∈ map productId (OrderQueueService.getRemainingItems order).

(** No product has stock. *)
Definition nothing_in_stock (cat : gmap Z Product.t) : Prop :=
  forall id, InventoryService.getAvailableStock cat id = 0.

(** The setting of the first-in-first-out property: the ledger has one
    row per order identifier, nothing is in stock, [P] is a catalog product
    of a unit mass between 0 and the ceiling, [A] is an open order of
    distinct product lines that needs [P], and every other open order that
    needs [P] was created strictly after [A]. *)
Definition oldest_in_need (s : State) (P : Z) (A : Order.t) : Prop :=
  NoDup (map Order.orderId (orders s)) /\
  nothing_in_stock (catalog s) /\
  (exists product, catalog s !! P = Some product /\
                   0 <= Product.massG product <= FulfillmentService.MAX_PACKAGE_WEIGHT_G) /\
  A ∈ orders s /\
  OrderQueueService.is_pending A /\
  NoDup (map productId (Order.requestedItems A)) /\
  needs A P /\
  forall B, B ∈ orders s -> OrderQueueService.is_pending B -> needs B P -> B <> A ->
            Order.createdAt A < Order.createdAt B.


(** ** Vocabulary of the further properties *)

(** The items can be reserved from the catalog: every product named is
    known, and its lines together ask for no more than is in stock. *)
Definition reservable (cat : gmap Z Product.t) (items : list Item) : Prop :=
  forall id, id ∈ map productId items ->
    is_Some (cat !! id) /\
    quantity_of id items <= InventoryService.getAvailableStock cat id.

(** The key of every entry of the catalog is the identifier of its
    product. *)
Definition keyed (cat : gmap Z Product.t) : Prop :=
  forall id product, cat !! id = Some product -> Product.productId product = id.

Definition row_lt (a b : StockRow.t) : Prop :=
  StockRow.productId a < StockRow.productId b.

(** No restriction on the operations. *)
Definition any_operation (_ : State) (_ : Op) : Prop := True.

(** The order table has a row for the order identifier. *)
Definition known_order (orderId : Z) (os : list Order.t) : Prop :=
  is_Some (OrderQueueService.findOne os orderId).

(** The public operations without a direct call of [updateOrderShipment],
    which is left to the allocator. *)
Definition by_allocator (_ : State) (op : Op) : Prop :=
  match op with
  | OpUpdateOrderShipment _ _ => False
  | _ => True
  end.

(** The items of a list of shipment records. *)
Definition shipped_in (rows : list Shipment.t) : list Item :=
  concat (map Shipment.shippedItems rows).

(** The ledger agrees with the shipment records: every record is that of
    an order of the ledger, and for every order the records of its shipments
    are at least as many as the shipments counted and hold, product by
    product, the quantities shipped. *)
Definition ledger_matches_records (s : State) : Prop :=
  (forall row, row ∈ shipments s -> known_order (Shipment.orderId row) (orders s)) /\
  forall orderId order,
    OrderQueueService.findOne (orders s) orderId = Some order ->
    Order.totalShipments order
    <= Z.of_nat (length (filter (fun row => Shipment.orderId row = orderId) (shipments s))) /\
    forall id,
      OrderQueueService.shippedQuantity (Order.shippedItems order) id
      = quantity_of id
          (shipped_in (filter (fun row => Shipment.orderId row = orderId) (shipments s))).

(** The stock of every product of [cat'] is that of [cat] less [d], and
    nothing else differs. *)
Definition decreased (cat cat' : gmap Z Product.t) (d : Z -> Z) : Prop :=
  forall id,
    cat' !! id
    = (fun product =>
         InventoryService.set_stock product (Product.quantityInStock product - d id))
      <$> cat !! id.

(** What an attempt ships of a product for an order: what remains of the
    product, as far as the stock goes. *)
Definition to_ship (cat : gmap Z Product.t) (order : Order.t) (id : Z) : Z :=
  if decide (id ∈ map productId (Order.requestedItems order))
  then Z.max 0
         (Z.min (quantity_of id (Order.requestedItems order)
                 - OrderQueueService.shippedQuantity (Order.shippedItems order) id)
                (InventoryService.getAvailableStock cat id))
  else 0.

(** The same for a stock given as a function of the product. *)
Definition allotted (stock : Z -> Z) (order : Order.t) (id : Z) : Z :=
  if decide (id ∈ map productId (Order.requestedItems order))
  then Z.max 0
         (Z.min (quantity_of id (Order.requestedItems order)
                 - OrderQueueService.shippedQuantity (Order.shippedItems order) id)
                (stock id))
  else 0.

(** The stock after a restock: that of the catalog and the quantities of
    the restock lines that name the product, and 0 for a product that is not
    in the catalog. *)
Definition restocked (cat : gmap Z Product.t) (restock : list Req.t) (id : Z) : Z :=
  match cat !! id with
  | Some product =>
      Product.quantityInStock product + quantity_of id (OrderQueueService.to_items restock)
  | None => 0
  end.

(** The orders of a list are served in turn from [stock]: the first gets
    of every product what remains of it for the order, as far as the stock
    goes, the next is served from what the first has left, and so on;
    [stock'] is what the last one leaves, and the rows of the orders in [os']
    have the same requested items and, as shipped, what they had and what
    they got. *)
Fixpoint in_turn (stock : Z -> Z) (pendingOrders : list Order.t)
    (stock' : Z -> Z) (os' : list Order.t) : Prop :=
  match pendingOrders with
  | [] => forall id, stock' id = stock id
  | order :: rest =>
      (exists order',
         OrderQueueService.findOne os' (Order.orderId order) = Some order' /\
         Order.requestedItems order' = Order.requestedItems order /\
         forall id,
           OrderQueueService.shippedQuantity (Order.shippedItems order') id
           = OrderQueueService.shippedQuantity (Order.shippedItems order) id
             + allotted stock order id) /\
      in_turn (fun id => stock id - allotted stock order id) rest stock' os'
  end.

(** The status of the order says whether anything remains to be shipped. *)
Definition status_settled (order : Order.t) : Prop :=
  (Order.status order = FULFILLED <-> OrderQueueService.getRemainingItems order = []) /\
  (Order.status order = PARTIALLY_FULFILLED
   <-> OrderQueueService.getRemainingItems order <> []).

(** The lines that the handlers let through. *)
Definition accepted_lines (items : list Req.t) : Prop :=
  items <> [] /\ Forall (fun line => 0 < Req.quantity line <= 10000000) items.

(** The operations that the handlers call, with the bodies they let
    through. *)
Definition from_http (_ : State) (op : Op) : Prop :=
  match op with
  | OpInitCatalog productInfo => productInfo <> []
  | OpProcessOrder _ _ requested => accepted_lines requested
  | OpProcessRestock restock => accepted_lines restock
  | OpResetCatalog => True
  | _ => False
  end.


(** * Properties *)

Example scenario1 :
  (orders <$> run (FulfillmentService.processOrder 10 1 1 [Req.mk 0 2]) scenario12_start)
  = Some [Order.mk 1 [mkItem 0 2] [mkItem 0 2] FULFILLED 1 1].
Proof. vm_compute. reflexivity. Qed.

Example scenario1_shipments :
  (shipments <$> run (FulfillmentService.processOrder 10 1 1 [Req.mk 0 2]) scenario12_start)
  = Some [Shipment.mk 1 [mkItem 0 2] 1400].
Proof. vm_compute. reflexivity. Qed.

Example scenario2 :
  (orders <$> run (FulfillmentService.processOrder 10 1 1 [Req.mk 0 3]) scenario12_start)
  = Some [Order.mk 1 [mkItem 0 3] [mkItem 0 2] PARTIALLY_FULFILLED 1 1].
Proof. vm_compute. reflexivity. Qed.

(** ** Frame properties of the monadic operations *)

Lemma preserves_ret {A} P (a : A) : preserves P (ret a).
Proof. intros s H. exact H. Qed.

Lemma preserves_bind {A B} P (c : M A) (k : A -> M B) :
  preserves P c -> (forall a, preserves P (k a)) -> preserves P (bind c k).
Proof.
  intros Hc Hk s Hs. unfold bind.
  specialize (Hc s Hs). destruct (c s) as [s' [a|e]]; simpl in *.
  - apply Hk, Hc.
  - exact Hc.
Qed.

Lemma preserves_for_each {A} P (f : A -> M unit) l :
  (forall x, preserves P (f x)) -> preserves P (FulfillmentService.for_each f l).
Proof.
  intros Hf. induction l as [|x l IH]; simpl.
  - apply preserves_ret.
  - apply preserves_bind; auto.
Qed.

Lemma lift_state {A} (c : M A) s s' r : lift c s = Some (s', r) -> s' = (c s).1.
Proof.
  unfold lift, bind. destruct (c s) as [s1 [a|e]]; simpl; by intros [= <- _].
Qed.

Section Frame.
Variable P : State -> Prop.
Hypothesis P_orders : forall s os, P s -> P (with_orders s os).
Hypothesis P_shipments : forall s sh, P s -> P (with_shipments s sh).
Hypothesis P_reserve : forall items, preserves P (InventoryService.reserveStock items).

Lemma preserves_updateOrderShipment orderId items :
  preserves P (OrderQueueService.updateOrderShipment orderId items).
Proof.
  intros s Hs. unfold OrderQueueService.updateOrderShipment.
  destruct (OrderQueueService.findOne (orders s) orderId); simpl; auto.
Qed.

Lemma preserves_insert_shipments rows :
  preserves P (FulfillmentService.insert_shipments rows).
Proof. intros s Hs. simpl. auto. Qed.

Lemma preserves_shipPackage orderId items :
  preserves P (FulfillmentService.shipPackage orderId items).
Proof.
  intros s Hs. unfold FulfillmentService.shipPackage.
  destruct (_ >? _); [exact Hs|].
  apply (preserves_bind P); [apply P_reserve|intros _|exact Hs].
  apply (preserves_bind P); [apply preserves_insert_shipments|intros _].
  apply (preserves_bind P); [apply preserves_updateOrderShipment|intros _].
  apply preserves_ret.
Qed.

Lemma preserves_process_batch orderId batch :
  preserves P (FulfillmentService.process_batch orderId batch).
Proof.
  intros s Hs. unfold FulfillmentService.process_batch.
  destruct (foldl _ _ _) as [allBatchItems shipmentData].
  apply (preserves_bind P); [|intros _|exact Hs].
  { destruct (FulfillmentService.is_empty allBatchItems);
      [apply preserves_ret|apply P_reserve]. }
  apply (preserves_bind P); [|intros _].
  { destruct (FulfillmentService.is_empty shipmentData);
      [apply preserves_ret|apply preserves_insert_shipments]. }
  apply (preserves_bind P); [|intros _; apply preserves_ret].
  destruct (FulfillmentService.is_empty allBatchItems); [apply preserves_ret|].
  apply (preserves_bind P); [apply preserves_updateOrderShipment|intros _].
  apply preserves_ret.
Qed.

Lemma preserves_ship_all orderId packages :
  preserves P (FulfillmentService.ship_all orderId packages).
Proof.
  unfold FulfillmentService.ship_all, FulfillmentService.batchShipPackages.
  destruct (_ <? _)%nat; apply preserves_for_each; intros x.
  - apply preserves_process_batch.
  - apply preserves_shipPackage.
Qed.

Lemma attemptFulfillment_keeps fuel order s s' r :
  P s -> FulfillmentService.attemptFulfillment fuel order s = Some (s', r) -> P s'.
Proof.
  intros Hs. unfold FulfillmentService.attemptFulfillment.
  destruct (FulfillmentService.is_empty _); [congruence|].
  destruct (FulfillmentService.is_empty _); [congruence|].
  destruct (GreedyFirstFitStrategy.packShipment _ _ _ _) as [packages|]; [|done].
  intros [= H]. pose proof (preserves_ship_all (Order.orderId order) packages s Hs) as Hp.
  rewrite H in Hp. exact Hp.
Qed.

Lemma attempt_each_keeps fuel pendingOrders s s' r :
  P s -> FulfillmentService.attempt_each fuel pendingOrders s = Some (s', r) -> P s'.
Proof.
  revert s. induction pendingOrders as [|o l IH]; simpl; intros s Hs.
  - congruence.
  - destruct (FulfillmentService.attemptFulfillment fuel o s) as [[s1 [[]|e]]|] eqn:E;
      [| |done].
    + apply IH. eapply attemptFulfillment_keeps; eauto.
    + intros [= <- _]. eapply attemptFulfillment_keeps; eauto.
Qed.

Lemma processOrder_keeps fuel now order_id requested s s' r :
  P s -> FulfillmentService.processOrder fuel now order_id requested s = Some (s', r) ->
  P s'.
Proof.
  intros Hs. unfold FulfillmentService.processOrder, OrderQueueService.enqueueOrder.
  apply attemptFulfillment_keeps. auto.
Qed.

Lemma fulfillPendingOrders_keeps fuel s s' r :
  P s -> FulfillmentService.fulfillPendingOrders fuel s = Some (s', r) -> P s'.
Proof.
  intros Hs. unfold FulfillmentService.fulfillPendingOrders. simpl.
  apply attempt_each_keeps. exact Hs.
Qed.


End Frame.

(** ** Catalog: initialization and stock *)

Lemma reserve_loop_nonneg items cat :
  stock_nonneg cat -> stock_nonneg (InventoryService.reserve_loop cat items).1.
Proof.
  revert cat. induction items as [|it items IH]; intros cat Hcat; simpl; [exact Hcat|].
  destruct (cat !! productId it) as [product|] eqn:E; [|exact Hcat].
  destruct (Z.ltb_spec (Product.quantityInStock product) (quantity it)); [exact Hcat|].
  apply IH. intros id p. rewrite lookup_insert.
  case_decide; [|apply Hcat].
  intros [= <-]. simpl. lia.
Qed.

Lemma reserveStock_nonneg items :
  preserves (fun s => stock_nonneg (catalog s)) (InventoryService.reserveStock items).
Proof.
  intros s Hs. unfold InventoryService.reserveStock.
  pose proof (reserve_loop_nonneg items (catalog s) Hs) as H.
  destruct (InventoryService.reserve_loop (catalog s) items). exact H.
Qed.

Lemma init_products_nonneg productInfo cat :
  stock_nonneg cat -> stock_nonneg (foldl InventoryService.init_product cat productInfo).
Proof.
  revert cat. induction productInfo as [|info l IH]; intros cat Hcat; simpl; [exact Hcat|].
  apply IH. intros id p. unfold InventoryService.init_product. rewrite lookup_insert.
  case_decide; [|apply Hcat].
  intros [= <-]. simpl. lia.
Qed.

Lemma restock_nonneg restock cat :
  Forall (fun line => 0 < Req.quantity line) restock ->
  stock_nonneg cat -> stock_nonneg (foldl InventoryService.restock_item cat restock).
Proof.
  intros Hall. revert cat. induction Hall as [|line l Hq _ IH]; intros cat Hcat; simpl;
    [exact Hcat|].
  apply IH. unfold InventoryService.restock_item.
  destruct (cat !! Req.product_id line) as [product|] eqn:E; [|exact Hcat].
  intros id p. rewrite lookup_insert. case_decide; [|apply Hcat].
  intros [= <-]. simpl. specialize (Hcat _ _ E). lia.
Qed.

Lemma exec_stock_nonneg fuel op s s' r :
  checked_by_controller s op -> stock_nonneg (catalog s) ->
  exec fuel op s = Some (s', r) -> stock_nonneg (catalog s').
Proof.
  intros Hop Hs.
  destruct op as [productInfo| |items|now order_id requested|restock
                 |now orderId requestedItems|orderId shippedItems]; simpl.
  - intros ->%lift_state. unfold InventoryService.initCatalog.
    destruct (isInitialized s); [exact Hs|].
    simpl. apply init_products_nonneg. intros id p. by rewrite lookup_empty.
  - intros ->%lift_state. simpl. intros id p. by rewrite lookup_empty.
  - intros ->%lift_state. by apply reserveStock_nonneg.
  - apply (processOrder_keeps (fun s => stock_nonneg (catalog s))); auto.
    apply reserveStock_nonneg.
  - unfold FulfillmentService.processRestock. simpl.
    apply (fulfillPendingOrders_keeps (fun s => stock_nonneg (catalog s))); auto.
    + apply reserveStock_nonneg.
    + simpl. by apply restock_nonneg.
  - intros ->%lift_state. exact Hs.
  - intros ->%lift_state.
    by apply (preserves_updateOrderShipment (fun s => stock_nonneg (catalog s))).
Qed.

(** C9. In every state reached through the public operations (catalog
    initialization and reset, restock, reservation, order processing; restock
    and order lines with the positive quantities the controller lets through)
    from a state without negative stock, such as the fresh process, the stock
    of every product is non-negative, and [getAvailableStock] answers 0 for
    an identifier that is not in the catalog. *)
Theorem stock_never_negative s0 s :
  stock_nonneg (catalog s0) ->
  reach checked_by_controller s0 s ->
  stock_nonneg (catalog s) /\
  (forall id, 0 <= InventoryService.getAvailableStock (catalog s) id) /\
  (forall id, catalog s !! id = None ->
              InventoryService.getAvailableStock (catalog s) id = 0).
Proof.
  intros Hstart Hreach.
  assert (Hinv : stock_nonneg (catalog s)).
  { induction Hreach as [|s' s'' op fuel r _ IH Hop Hexec]; [exact Hstart|].
    eauto using exec_stock_nonneg. }
  split; [exact Hinv|]. split.
  - intros id. unfold InventoryService.getAvailableStock.
    destruct (catalog s !! id) eqn:E; [eauto|lia].
  - intros id Hnone. unfold InventoryService.getAvailableStock. by rewrite Hnone.
Qed.

(** A reachable state: a catalog of one product, restocked with five units,
    after an order for two of them. *)
Lemma stock_never_negative_witness :
  stock_nonneg (catalog scenario9_state) /\
  (forall id, 0 <= InventoryService.getAvailableStock (catalog scenario9_state) id) /\
  (forall id, catalog scenario9_state !! id = None ->
              InventoryService.getAvailableStock (catalog scenario9_state) id = 0).
Proof.
  apply (stock_never_negative initial_state).
  { intros id product. simpl. by rewrite lookup_empty. }
  eapply (reach_step _ _ _ _ (OpProcessOrder 1 1 [Req.mk 0 2]) 10%nat (Ok tt)).
  - eapply (reach_step _ _ _ _ (OpProcessRestock [Req.mk 0 5]) 10%nat (Ok tt)).
    + eapply (reach_step _ _ _ _ (OpInitCatalog [product0]) 0%nat (Ok tt)).
      * apply reach_refl.
      * exact I.
      * reflexivity.
    + repeat constructor.
    + reflexivity.
  - repeat constructor.
  - vm_compute. reflexivity.
Defined.

Lemma exec_keeps_initialized fuel op s s' r :
  not_reset s op -> isInitialized s = true ->
  exec fuel op s = Some (s', r) -> isInitialized s' = true.
Proof.
  intros Hop Hs.
  assert (Hres : forall items,
             preserves (fun s => isInitialized s = true)
               (InventoryService.reserveStock items)).
  { intros items s0 H0. unfold InventoryService.reserveStock.
    destruct (InventoryService.reserve_loop (catalog s0) items). exact H0. }
  destruct op as [productInfo| |items|now order_id requested|restock
                 |now orderId requestedItems|orderId shippedItems]; simpl.
  - intros ->%lift_state. unfold InventoryService.initCatalog. by rewrite Hs.
  - by destruct Hop.
  - intros ->%lift_state. by apply Hres.
  - apply (processOrder_keeps (fun s => isInitialized s = true)); auto.
  - unfold FulfillmentService.processRestock. simpl.
    apply (fulfillPendingOrders_keeps (fun s => isInitialized s = true)); auto.
  - intros ->%lift_state. exact Hs.
  - intros ->%lift_state.
    by apply (preserves_updateOrderShipment (fun s => isInitialized s = true)).
Qed.

(** C8. Once [initCatalog] has succeeded, and whatever operations other
    than a reset have run since, a further [initCatalog], with any product
    list, throws the already-initialized error and returns the state it was
    called in: catalog, stock and flag are as they were. *)
Theorem initCatalog_twice_fails productInfo1 productInfo2 s0 s1 s2 :
  InventoryService.initCatalog productInfo1 s0 = (s1, Ok tt) ->
  reach not_reset s1 s2 ->
  InventoryService.initCatalog productInfo2 s2 = (s2, Throw AlreadyInitialized).
Proof.
  intros Hinit Hreach.
  assert (H1 : isInitialized s1 = true).
  { revert Hinit. unfold InventoryService.initCatalog.
    destruct (isInitialized s0); [discriminate|]. by intros [= <-]. }
  assert (H2 : isInitialized s2 = true).
  { induction Hreach as [|s' s'' op fuel r _ IH Hop Hexec]; [exact H1|].
    eauto using exec_keeps_initialized. }
  unfold InventoryService.initCatalog. by rewrite H2.
Qed.

(** The second call right after the first, and after a restock in between. *)
Lemma initCatalog_twice_fails_witness :
  InventoryService.initCatalog [Info.mk 7 "other" 5] stocked_state
  = (stocked_state, Throw AlreadyInitialized).
Proof.
  apply (initCatalog_twice_fails [product0; Info.mk 1 "PLT AB+" 80] _ initial_state
           (InventoryService.initCatalog
              [product0; Info.mk 1 "PLT AB+" 80] initial_state).1).
  - reflexivity.
  - eapply (reach_step _ _ _ _ (OpProcessRestock [Req.mk 0 5]) 0%nat (Ok tt)).
    + apply reach_refl.
    + discriminate.
    + vm_compute. reflexivity.
Defined.

(** C1. The reservation is not all-or-nothing in the code: a reservation
    whose second item names an unknown product throws [ProductNotFound], yet
    the first item has already been taken out of the in-memory stock, and
    product 0 goes from five units to three. *)
Theorem reserveStock_not_all_or_nothing :
  exists s',
    InventoryService.reserveStock [mkItem 0 2; mkItem 99 1] stocked_state
    = (s', Throw (ProductNotFound 99)) /\
    stock_of stocked_state 0 = 5 /\
    stock_of s' 0 = 3.
Proof.
  eexists. split; [vm_compute; reflexivity|]. split; vm_compute; reflexivity.
Qed.

(** The same with a known product that is short of stock. *)
Lemma reserveStock_insufficient_partial :
  exists s',
    InventoryService.reserveStock [mkItem 0 2; mkItem 1 1] stocked_state
    = (s', Throw (InsufficientStock 1 0 1)) /\
    stock_of s' 0 = 3.
Proof.
  eexists. split; vm_compute; reflexivity.
Qed.

(** In general: the items before the first one that fails are reserved,
    and stay so when the reservation throws. *)
Lemma reserve_loop_app cat before rest :
  InventoryService.reserve_loop cat (before ++ rest)
  = match InventoryService.reserve_loop cat before with
    | (cat1, Ok _) => InventoryService.reserve_loop cat1 rest
    | (cat1, Throw e) => (cat1, Throw e)
    end.
Proof.
  revert cat. induction before as [|it before IH]; intros cat; simpl; [done|].
  destruct (cat !! productId it) as [product|]; [|done].
  destruct (_ <? _); [done|apply IH].
Qed.

Lemma reserveStock_keeps_earlier_items before failing after s s1 :
  InventoryService.reserveStock before s = (s1, Ok tt) ->
  InventoryService.hasStock (catalog s1) [failing] = false ->
  exists e,
    InventoryService.reserveStock (before ++ failing :: after) s = (s1, Throw e).
Proof.
  unfold InventoryService.reserveStock. rewrite reserve_loop_app.
  destruct (InventoryService.reserve_loop (catalog s) before) as [cat1 [[]|e]];
    [|discriminate].
  intros [= <-]. simpl.
  destruct (cat1 !! productId failing) as [product|]; [|eauto].
  destruct (_ <? _); [eauto|discriminate].
Qed.

(** A reservation that fails on its first item changes nothing. *)
Lemma reserveStock_first_item_fails item items s s' e :
  InventoryService.hasStock (catalog s) [item] = false ->
  InventoryService.reserveStock (item :: items) s = (s', Throw e) ->
  catalog s' = catalog s.
Proof.
  unfold InventoryService.reserveStock. simpl.
  destruct (catalog s !! productId item) as [product|]; [|by intros _ [= <- _]].
  destruct (_ <? _); [by intros _ [= <- _]|discriminate].
Qed.

(** ** Order ledger *)

Lemma findOne_orderId os orderId order :
  OrderQueueService.findOne os orderId = Some order -> Order.orderId order = orderId.
Proof.
  intros H. apply find_some in H as [_ H]. lia.
Qed.

Lemma findOne_save_same os order :
  OrderQueueService.findOne (OrderQueueService.save os order) (Order.orderId order)
  = Some order.
Proof.
  induction os as [|o os IH]; simpl.
  - by rewrite Z.eqb_refl.
  - destruct (Z.eqb_spec (Order.orderId o) (Order.orderId order)) as [E|E]; simpl.
    + by rewrite Z.eqb_refl.
    + destruct (Z.eqb_spec (Order.orderId o) (Order.orderId order)); [done|exact IH].
Qed.

Lemma findOne_save_other os order orderId :
  orderId <> Order.orderId order ->
  OrderQueueService.findOne (OrderQueueService.save os order) orderId
  = OrderQueueService.findOne os orderId.
Proof.
  intros Hne. induction os as [|o os IH]; simpl.
  - destruct (Z.eqb_spec (Order.orderId order) orderId); [congruence|done].
  - destruct (Z.eqb_spec (Order.orderId o) (Order.orderId order)) as [E|E]; simpl.
    + rewrite E. destruct (Z.eqb_spec (Order.orderId order) orderId); [congruence|done].
    + destruct (Z.eqb_spec (Order.orderId o) orderId); [done|exact IH].
Qed.

Lemma save_length_existing os order found :
  OrderQueueService.findOne os (Order.orderId order) = Some found ->
  length (OrderQueueService.save os order) = length os.
Proof.
  induction os as [|o os IH]; simpl; [discriminate|].
  destruct (Z.eqb_spec (Order.orderId o) (Order.orderId order)); simpl; [done|].
  intros H. by rewrite IH.
Qed.

(** C10. [enqueueOrder] on an order id that exists stores, under that id,
    the order with the new requested items and status Pending and with the
    shipped items, the shipment count and the creation timestamp it had;
    the other orders, the catalog and the shipments are left as they were. *)
Theorem enqueueOrder_existing now orderId requestedItems s order :
  OrderQueueService.findOne (orders s) orderId = Some order ->
  exists s' order',
    OrderQueueService.enqueueOrder now orderId requestedItems s = (s', Ok order') /\
    OrderQueueService.findOne (orders s') orderId = Some order' /\
    Order.requestedItems order' = OrderQueueService.to_items requestedItems /\
    Order.status order' = PENDING /\
    Order.shippedItems order' = Order.shippedItems order /\
    Order.totalShipments order' = Order.totalShipments order /\
    Order.createdAt order' = Order.createdAt order /\
    Order.orderId order' = orderId /\
    (forall other, other <> orderId ->
       OrderQueueService.findOne (orders s') other
       = OrderQueueService.findOne (orders s) other) /\
    length (orders s') = length (orders s) /\
    catalog s' = catalog s /\ isInitialized s' = isInitialized s /\
    shipments s' = shipments s.
Proof.
  intros Hfind. pose proof (findOne_orderId _ _ _ Hfind) as Hid. subst orderId.
  unfold OrderQueueService.enqueueOrder. rewrite Hfind.
  set (order' := Order.mk (Order.orderId order)
                   (OrderQueueService.to_items requestedItems)
                   (Order.shippedItems order) PENDING (Order.totalShipments order)
                   (Order.createdAt order)).
  exists (with_orders s (OrderQueueService.save (orders s) order')), order'.
  split; [reflexivity|]. simpl.
  split; [exact (findOne_save_same (orders s) order')|].
  repeat split.
  - intros other Hne. by apply findOne_save_other.
  - by apply (save_length_existing _ order' order).
Qed.

(** An order that has shipped two units is resubmitted for one unit. *)
Lemma enqueueOrder_existing_witness :
  exists s' order',
    OrderQueueService.enqueueOrder 9 1 [Req.mk 0 1] scenario9_state = (s', Ok order') /\
    OrderQueueService.findOne (orders s') 1 = Some order' /\
    Order.requestedItems order' = OrderQueueService.to_items [Req.mk 0 1] /\
    Order.status order' = PENDING /\
    Order.shippedItems order' = [mkItem 0 2] /\
    Order.totalShipments order' = 1 /\
    Order.createdAt order' = 1 /\
    Order.orderId order' = 1 /\
    (forall other, other <> 1 ->
       OrderQueueService.findOne (orders s') other
       = OrderQueueService.findOne (orders scenario9_state) other) /\
    length (orders s') = length (orders scenario9_state) /\
    catalog s' = catalog scenario9_state /\
    isInitialized s' = isInitialized scenario9_state /\
    shipments s' = shipments scenario9_state.
Proof.
  apply (enqueueOrder_existing 9 1 [Req.mk 0 1] scenario9_state
           (Order.mk 1 [mkItem 0 2] [mkItem 0 2] FULFILLED 1 1)).
  reflexivity.
Defined.

(** ** Packing strategy *)

Lemma calculateShipmentWeight_weighted cat shipment :
  GreedyFirstFitStrategy.calculateShipmentWeight cat shipment
  = weighted (unit_mass cat) shipment.
Proof.
  unfold GreedyFirstFitStrategy.calculateShipmentWeight.
  enough (H : forall a,
             foldl (fun total it =>
                      total + match cat !! productId it with
                              | Some product => Product.massG product * quantity it
                              | None => 0
                              end) a shipment
             = a + weighted (unit_mass cat) shipment) by (rewrite H; lia).
  induction shipment as [|x l IH]; intros a; simpl; [lia|].
  rewrite IH. unfold unit_mass. destruct (cat !! productId x); lia.
Qed.

Lemma calculateTotalMass_weighted cat items :
  InventoryService.calculateTotalMass cat items = weighted (unit_mass cat) items.
Proof.
  unfold InventoryService.calculateTotalMass.
  enough (H : forall a,
             foldl (fun totalMass it =>
                      match cat !! productId it with
                      | Some product => totalMass + Product.massG product * quantity it
                      | None => totalMass
                      end) a items
             = a + weighted (unit_mass cat) items) by (rewrite H; lia).
  induction items as [|x l IH]; intros a; simpl; [lia|].
  destruct (cat !! productId x) eqn:E; rewrite IH; unfold unit_mass; rewrite E; lia.
Qed.

Lemma weighted_cons c x l :
  weighted c (x :: l) = c (productId x) * quantity x + weighted c l.
Proof. reflexivity. Qed.

Lemma weighted_app c l1 l2 : weighted c (l1 ++ l2) = weighted c l1 + weighted c l2.
Proof. induction l1 as [|x l IH]; simpl; [done|]. rewrite IH. lia. Qed.

Lemma weighted_merge_item c l it :
  weighted c (merge_item l it) = weighted c l + c (productId it) * quantity it.
Proof.
  induction l as [|x l IH]; simpl; [lia|].
  destruct (Z.eqb_spec (productId x) (productId it)) as [E|E]; simpl.
  - rewrite E. lia.
  - rewrite IH. lia.
Qed.

Lemma weighted_foldl_merge c items l :
  weighted c (foldl merge_item l items) = weighted c l + weighted c items.
Proof.
  revert l. induction items as [|x items IH]; intros l; simpl; [lia|].
  rewrite IH, weighted_merge_item. lia.
Qed.

Lemma weighted_Permutation c l1 l2 : l1 ≡ₚ l2 -> weighted c l1 = weighted c l2.
Proof. induction 1; simpl; lia. Qed.

Lemma merge_item_positive l it :
  positive_lines l -> 0 < quantity it -> positive_lines (merge_item l it).
Proof.
  unfold positive_lines. induction 1 as [|x l Hx Hl IH]; intros Hit; simpl.
  - by repeat constructor.
  - destruct (productId x =? productId it); constructor; simpl; auto; lia.
Qed.

(** The units that go into a shipment with [available] grams left, for a
    product of non-negative unit weight: at least one, no more than remain,
    and no heavier than what is left. *)
Lemma positive_units_fit available unitW remainingQuantity units :
  0 <= unitW ->
  positive (min_with (floor_div available unitW) remainingQuantity) = Some units ->
  0 < units <= remainingQuantity /\ unitW * units <= available.
Proof.
  intros Hw. unfold floor_div.
  destruct (Z.eqb_spec unitW 0) as [->|Hne].
  - destruct (Z.gtb_spec available 0); [|destruct (_ <? _); discriminate].
    simpl. destruct (Z.gtb_spec remainingQuantity 0); [|discriminate].
    intros [= <-]. lia.
  - simpl. destruct (Z.gtb_spec (Z.min (available / unitW) remainingQuantity) 0);
      [|discriminate].
    intros [= <-]. split; [lia|].
    assert (unitW * Z.min (available / unitW) remainingQuantity
            <= unitW * (available / unitW)) by (apply Z.mul_le_mono_nonneg_l; lia).
    pose proof (Z.mul_div_le available unitW). lia.
Qed.

Lemma div_negative a b :
  b < 0 -> a = b * (a / b) + a mod b /\ b < a mod b <= 0.
Proof.
  intros Hb. split; [apply Z.div_mod; lia|by apply Z.mod_neg_bound].
Qed.

(** A product of negative unit weight is never added to a shipment with
    more than its unit weight left. *)
Lemma positive_units_negative available unitW remainingQuantity :
  unitW < 0 -> unitW < available ->
  positive (min_with (floor_div available unitW) remainingQuantity) = None.
Proof.
  intros Hw Ha. unfold floor_div.
  destruct (Z.eqb_spec unitW 0); [lia|]. simpl.
  assert (available / unitW <= 0).
  { destruct (div_negative available unitW Hw) as [Heq Hr]. nia. }
  destruct (Z.gtb_spec (Z.min (available / unitW) remainingQuantity) 0); [lia|done].
Qed.

Section PackItem.
Variable cat : gmap Z Product.t.
Variable maxWeightG id unitW : Z.
Hypothesis maxWeightG_pos : 0 < maxWeightG.
Hypothesis unitW_mass : unit_mass cat id = unitW.

Lemma try_existing_spec remainingQuantity shipments shipments' unitsToAdd :
  0 <= unitW ->
  GreedyFirstFitStrategy.try_existing cat maxWeightG id unitW remainingQuantity shipments
  = Some (shipments', unitsToAdd) ->
  0 < unitsToAdd <= remainingQuantity /\
  (forall c, weighted c (concat shipments')
             = weighted c (concat shipments) + c id * unitsToAdd) /\
  (Forall (within cat maxWeightG) shipments ->
   Forall (within cat maxWeightG) shipments') /\
  (Forall positive_lines shipments -> Forall positive_lines shipments').
Proof.
  intros Hw. revert shipments'.
  induction shipments as [|sh rest IH]; intros shipments'; simpl; [discriminate|].
  destruct (positive _) as [units|] eqn:Eunits.
  - intros [= <- <-].
    destruct (positive_units_fit _ _ _ _ Hw Eunits) as [Hu Hfit].
    split; [exact Hu|]. split; [|split].
    + intros c. simpl. rewrite !weighted_app, weighted_merge_item. simpl. lia.
    + intros Hall. inversion_clear Hall as [|? ? Hsh Hrest].
      constructor; [|exact Hrest].
      unfold within. rewrite calculateShipmentWeight_weighted, weighted_merge_item.
      simpl. rewrite <- calculateShipmentWeight_weighted, unitW_mass. lia.
    + intros Hall. inversion_clear Hall. constructor; [|done].
      apply merge_item_positive; [done|simpl; lia].
  - destruct (GreedyFirstFitStrategy.try_existing cat maxWeightG id unitW
                remainingQuantity rest) as [[rest' added]|]; [|discriminate].
    intros [= <- <-]. destruct (IH _ eq_refl) as (Hu & Hc & Hwt & Hp).
    split; [exact Hu|]. split; [|split].
    + intros c. simpl. rewrite !weighted_app, Hc. lia.
    + intros Hall. inversion_clear Hall. constructor; auto.
    + intros Hall. inversion_clear Hall. constructor; auto.
Qed.

Lemma concat_snoc_weighted c (shipments : list (list Item)) it :
  weighted c (concat (shipments ++ [[it]]))
  = weighted c (concat shipments) + c (productId it) * quantity it.
Proof. rewrite concat_app, weighted_app. simpl. lia. Qed.

(** The units of a new shipment, for a product of non-negative unit weight
    of which at least one unit fits under the ceiling. *)
Lemma new_shipment_units remainingQuantity :
  0 <= unitW -> 0 < remainingQuantity ->
  is_zero (floor_div maxWeightG unitW) = false ->
  exists units,
    min_with (floor_div maxWeightG unitW) remainingQuantity = Some units /\
    0 < units <= remainingQuantity /\ unitW * units <= maxWeightG.
Proof.
  intros Hw Hrem. unfold floor_div.
  destruct (Z.eqb_spec unitW 0) as [E|Hne].
  - destruct (Z.gtb_spec maxWeightG 0); [|lia]. intros _. simpl.
    exists remainingQuantity. split; [done|]. rewrite E. lia.
  - simpl. destruct (Z.eqb_spec (maxWeightG / unitW) 0); [discriminate|]. intros _.
    eexists. split; [reflexivity|].
    pose proof (Z.div_pos maxWeightG unitW). split; [lia|].
    assert (unitW * Z.min (maxWeightG / unitW) remainingQuantity
            <= unitW * (maxWeightG / unitW)) by (apply Z.mul_le_mono_nonneg_l; lia).
    pose proof (Z.mul_div_le maxWeightG unitW). lia.
Qed.

(** One item of non-negative unit weight: every unit that is not dropped
    is in the packages, no unit is dropped unless the product is heavier
    than the ceiling, and the packages stay within the ceiling. *)
Lemma pack_item_spec fuel shipments remainingQuantity out :
  0 <= unitW ->
  0 <= remainingQuantity ->
  GreedyFirstFitStrategy.pack_item fuel cat maxWeightG id unitW shipments remainingQuantity
  = Some out ->
  exists dropped,
    0 <= dropped <= remainingQuantity /\
    (unitW <= maxWeightG -> dropped = 0) /\
    (forall c, weighted c (concat out)
               = weighted c (concat shipments) + c id * (remainingQuantity - dropped)) /\
    (Forall (within cat maxWeightG) shipments -> Forall (within cat maxWeightG) out) /\
    (Forall positive_lines shipments -> Forall positive_lines out).
Proof.
  intros Hw. revert shipments remainingQuantity.
  induction fuel as [|fuel IH]; intros shipments rem Hrem; simpl.
  - destruct (Z.gtb_spec rem 0); [discriminate|]. intros [= <-].
    exists 0. repeat split; try lia; auto. intros c. replace (rem - 0) with 0 by lia. lia.
  - destruct (Z.gtb_spec rem 0) as [Hpos|Hnot].
    2:{ intros [= <-]. exists 0. repeat split; try lia; auto.
        intros c. replace (rem - 0) with 0 by lia. lia. }
    destruct (is_zero (floor_div maxWeightG unitW)) eqn:Ezero.
    { intros [= <-]. exists rem. repeat split; try lia; auto.
      intros Hle. exfalso. revert Ezero. unfold floor_div.
      destruct (Z.eqb_spec unitW 0).
      - destruct (_ >? _); [done|]. by destruct (_ <? _).
      - simpl. destruct (Z.eqb_spec (maxWeightG / unitW) 0); [|done].
        pose proof (Z.div_str_pos maxWeightG unitW). lia. }
    destruct (GreedyFirstFitStrategy.try_existing cat maxWeightG id unitW rem shipments)
      as [[shipments' unitsToAdd]|] eqn:Etry.
    + destruct (try_existing_spec _ _ _ _ Hw Etry) as (Hu & Hc & Hwt & Hp).
      intros Hrec.
      apply IH in Hrec as (dropped & Hd & Hd0 & Hsum & Hwithin & Hlines); [|lia].
      exists dropped. split; [lia|]. split; [exact Hd0|]. split; [|split].
      * intros c. rewrite Hsum, Hc. lia.
      * auto.
      * auto.
    + destruct (new_shipment_units rem Hw Hpos Ezero) as (u & -> & Hu & Hfit).
      intros Hrec.
      apply IH in Hrec as (dropped & Hd & Hd0 & Hsum & Hwithin & Hlines); [|lia].
      exists dropped. split; [lia|]. split; [exact Hd0|]. split; [|split].
      * intros c. rewrite Hsum, concat_snoc_weighted. simpl. lia.
      * intros Hall. apply Hwithin.
        apply Forall_app. split; [exact Hall|]. constructor; [|constructor].
        unfold within. rewrite calculateShipmentWeight_weighted. simpl.
        rewrite unitW_mass. lia.
      * intros Hall. apply Hlines. apply Forall_app. split; [exact Hall|].
        repeat constructor. simpl. lia.
Qed.

(** The loop ends within as many rounds as there are units to pack. *)
Lemma pack_item_terminates fuel shipments remainingQuantity :
  0 <= unitW ->
  (Z.to_nat remainingQuantity <= fuel)%nat ->
  is_Some (GreedyFirstFitStrategy.pack_item fuel cat maxWeightG id unitW shipments
             remainingQuantity).
Proof.
  intros Hw. revert shipments remainingQuantity.
  induction fuel as [|fuel IH]; intros shipments rem Hfuel; simpl.
  - destruct (Z.gtb_spec rem 0); [lia|eauto].
  - destruct (Z.gtb_spec rem 0) as [Hpos|Hnot]; [|eauto].
    destruct (is_zero (floor_div maxWeightG unitW)) eqn:Ezero; [eauto|].
    destruct (GreedyFirstFitStrategy.try_existing cat maxWeightG id unitW rem shipments)
      as [[shipments' unitsToAdd]|] eqn:Etry.
    + destruct (try_existing_spec _ _ _ _ Hw Etry) as (Hu & _). apply IH. lia.
    + destruct (new_shipment_units rem Hw Hpos Ezero) as (u & -> & Hu & _).
      apply IH. lia.
Qed.

(** A product of negative unit weight: no shipment takes a unit of it, each
    round opens a shipment of a negative number of units, and the remaining
    quantity grows; the loop does not end. *)
Lemma try_existing_negative remainingQuantity shipments :
  unitW < 0 -> Forall (roomy cat maxWeightG unitW) shipments ->
  GreedyFirstFitStrategy.try_existing cat maxWeightG id unitW remainingQuantity shipments
  = None.
Proof.
  intros Hw. induction 1 as [|sh rest Hsh _ IH]; simpl; [done|].
  rewrite (positive_units_negative _ _ _ Hw Hsh). by rewrite IH.
Qed.

Lemma pack_item_diverges fuel shipments remainingQuantity :
  unitW < 0 -> 0 < remainingQuantity -> Forall (roomy cat maxWeightG unitW) shipments ->
  GreedyFirstFitStrategy.pack_item fuel cat maxWeightG id unitW shipments remainingQuantity
  = None.
Proof.
  intros Hw. revert shipments remainingQuantity.
  induction fuel as [|fuel IH]; intros shipments rem Hrem Hall; simpl;
    destruct (Z.gtb_spec rem 0); try lia; [done|].
  rewrite (try_existing_negative _ _ Hw Hall).
  unfold floor_div. destruct (Z.eqb_spec unitW 0); [lia|]. simpl.
  destruct (div_negative maxWeightG unitW Hw) as [Heq Hr].
  assert (Hq : maxWeightG / unitW < 0) by nia.
  destruct (Z.eqb_spec (maxWeightG / unitW) 0); [lia|].
  apply IH; [lia|].
  apply Forall_app. split; [exact Hall|]. constructor; [|constructor].
  unfold roomy. rewrite calculateShipmentWeight_weighted. simpl. rewrite unitW_mass.
  replace (Z.min (maxWeightG / unitW) rem) with (maxWeightG / unitW) by lia. lia.
Qed.

(** Whatever the unit weight, a result of the loop for an item keeps the
    packages within the ceiling, and holds the units that were not dropped. *)
Lemma pack_item_result fuel shipments remainingQuantity out :
  0 <= remainingQuantity ->
  Forall (within cat maxWeightG) shipments ->
  GreedyFirstFitStrategy.pack_item fuel cat maxWeightG id unitW shipments remainingQuantity
  = Some out ->
  exists dropped,
    0 <= dropped <= remainingQuantity /\
    (0 <= unitW <= maxWeightG -> dropped = 0) /\
    (forall c, weighted c (concat out)
               = weighted c (concat shipments) + c id * (remainingQuantity - dropped)) /\
    Forall (within cat maxWeightG) out /\
    (Forall positive_lines shipments -> Forall positive_lines out).
Proof.
  intros Hrem Hall Hrun. destruct (Z.le_gt_cases 0 unitW) as [Hw|Hw].
  - destruct (pack_item_spec _ _ _ _ Hw Hrem Hrun) as (dropped & Hd & Hd0 & Hsum & Hwt & Hl).
    exists dropped. repeat split; auto; lia.
  - destruct (Z.le_gt_cases remainingQuantity 0) as [Hz|Hpos].
    + assert (Hout : out = shipments).
      { destruct fuel; simpl in Hrun;
          destruct (Z.gtb_spec remainingQuantity 0); try lia; congruence. }
      subst out. exists 0. repeat split; auto; try lia.
      intros c. replace (remainingQuantity - 0) with 0 by lia. lia.
    + rewrite pack_item_diverges in Hrun; [discriminate|lia|lia|].
      eapply Forall_impl; [exact Hall|]. intros sh Hsh. unfold roomy, within in *. lia.
Qed.

End PackItem.

Import GreedyFirstFitStrategy.

Lemma pack_items_result fuel cat maxWeightG xs shipments out :
  0 < maxWeightG ->
  Forall (weighed cat) xs ->
  Forall (within cat maxWeightG) shipments ->
  pack_items fuel cat maxWeightG xs shipments = Some out ->
  Forall (within cat maxWeightG) out /\
  (Forall positive_lines shipments -> Forall positive_lines out) /\
  (forall c, (forall id, 0 <= c id) ->
     weighted c (concat shipments) <= weighted c (concat out)
     <= weighted c (concat shipments) + weighted c (map item xs)) /\
  (Forall (fun x => 0 <= unitWeight x <= maxWeightG) xs ->
   forall c, weighted c (concat out)
             = weighted c (concat shipments) + weighted c (map item xs)).
Proof.
  intros Hmax Hxs. revert shipments.
  induction Hxs as [|x xs [Hq Hmass] _ IH]; intros shipments Hall; simpl.
  - intros [= <-]. repeat split; auto; lia.
  - destruct (pack_item fuel cat maxWeightG (productId (item x)) (unitWeight x)
                shipments (quantity (item x))) as [mid|] eqn:Emid; [|discriminate].
    destruct (pack_item_result cat maxWeightG (productId (item x)) (unitWeight x)
                Hmax Hmass fuel shipments (quantity (item x)) mid ltac:(lia) Hall Emid)
      as (dropped & Hd & Hd0 & Hsum & Hwithin & Hlines).
    intros Hrun. destruct (IH mid Hwithin Hrun) as (Hw' & Hl' & Hle & Heq).
    split; [exact Hw'|]. split; [auto|]. split.
    + intros c Hc. specialize (Hle c Hc). rewrite (Hsum c) in Hle.
      pose proof (Hc (productId (item x))).
      assert (0 <= c (productId (item x)) * (quantity (item x) - dropped)) by nia.
      assert (c (productId (item x)) * (quantity (item x) - dropped)
              <= c (productId (item x)) * quantity (item x)) by nia.
      lia.
    + intros Hlight c. inversion_clear Hlight as [|? ? Hx Hrest].
      rewrite (Heq Hrest c), (Hsum c).
      rewrite (Hd0 Hx). replace (quantity (item x) - 0) with (quantity (item x)) by lia.
      lia.
Qed.

Lemma pack_items_terminates fuel cat maxWeightG xs shipments :
  0 < maxWeightG ->
  Forall (packable fuel cat) xs ->
  is_Some (pack_items fuel cat maxWeightG xs shipments).
Proof.
  intros Hmax Hxs. revert shipments.
  induction Hxs as [|x xs (Hw & Hq & Hmass & Hfuel) _ IH]; intros shipments; simpl;
    [eauto|].
  destruct (pack_item_terminates cat maxWeightG (productId (item x)) (unitWeight x)
              Hmax Hmass fuel shipments (quantity (item x)) Hw Hfuel) as [mid ->].
  apply IH.
Qed.

Lemma insert_heaviest_first_Permutation x l : insert_heaviest_first x l ≡ₚ x :: l.
Proof.
  induction l as [|y l IH]; simpl; [done|].
  destruct (_ >? _); [|done]. rewrite IH. apply Permutation_swap.
Qed.

Lemma sort_heaviest_first_Permutation l : sort_heaviest_first l ≡ₚ l.
Proof.
  induction l as [|x l IH]; simpl; [done|].
  rewrite insert_heaviest_first_Permutation. by rewrite IH.
Qed.

Lemma weigh_items cat items : map item (weigh cat items) = filter (kept cat) items.
Proof.
  induction items as [|it items IH]; simpl; [done|].
  rewrite filter_cons. destruct (decide (kept cat it)) as [[[product E] Hq]|Hn].
  - rewrite E. destruct (Z.gtb_spec (quantity it) 0); [|lia]. simpl. by rewrite IH.
  - destruct (cat !! productId it) as [product|] eqn:E; [|exact IH].
    destruct (Z.gtb_spec (quantity it) 0); [|exact IH].
    exfalso. apply Hn. split; [eauto|lia].
Qed.

Lemma weigh_weighed cat items : Forall (weighed cat) (weigh cat items).
Proof.
  induction items as [|it items IH]; simpl; [constructor|].
  destruct (cat !! productId it) as [product|] eqn:E; [|exact IH].
  destruct (Z.gtb_spec (quantity it) 0); [|exact IH].
  constructor; [|exact IH]. unfold weighed, unit_mass. simpl. rewrite E. split; [lia|done].
Qed.

Lemma weigh_packable fuel cat items :
  Forall (fun it => 0 <= unit_mass cat (productId it) /\ quantity it <= Z.of_nat fuel)
         items ->
  Forall (packable fuel cat) (weigh cat items).
Proof.
  induction 1 as [|it items [Hm Hq] _ IH]; simpl; [constructor|].
  unfold unit_mass in Hm.
  destruct (cat !! productId it) as [product|] eqn:E; [|exact IH].
  destruct (Z.gtb_spec (quantity it) 0); [|exact IH].
  constructor; [|exact IH]. unfold packable, unit_mass. simpl. rewrite E.
  split; [done|]. split; [lia|]. split; [done|lia].
Qed.

Lemma weigh_light cat maxWeightG items :
  Forall (fun it => 0 <= unit_mass cat (productId it) <= maxWeightG) items ->
  Forall (fun x => 0 <= unitWeight x <= maxWeightG) (weigh cat items).
Proof.
  induction 1 as [|it items Hq _ IH]; simpl; [constructor|].
  unfold unit_mass in Hq.
  destruct (cat !! productId it) as [product|] eqn:E; [|exact IH].
  destruct (quantity it >? 0); [|exact IH]. by constructor.
Qed.

(** Every result of [packShipment] under a positive ceiling, whatever the
    catalog and the fuel: every package is within the ceiling and has lines
    of positive quantity, the packages hold no more units of a product than
    the kept items, and exactly as many when every item has a unit mass
    between 0 and the ceiling. *)
Lemma packShipment_result fuel cat items maxWeightG packages :
  0 < maxWeightG ->
  packShipment fuel cat items maxWeightG = Some packages ->
  Forall (within cat maxWeightG) packages /\
  Forall positive_lines packages /\
  (forall c, (forall id, 0 <= c id) ->
     0 <= weighted c (concat packages) <= weighted c (filter (kept cat) items)) /\
  (Forall (fun it => 0 <= unit_mass cat (productId it) <= maxWeightG) items ->
   forall c, weighted c (concat packages) = weighted c (filter (kept cat) items)).
Proof.
  intros Hmax. unfold packShipment, itemsWithWeight. intros Hrun.
  pose proof (sort_heaviest_first_Permutation (weigh cat items)) as Hperm.
  apply pack_items_result in Hrun as (Hw & Hl & Hle & Heq); [|exact Hmax| |constructor].
  2:{ rewrite Hperm. apply weigh_weighed. }
  assert (Hsum : forall c, weighted c (map item (sort_heaviest_first (weigh cat items)))
                           = weighted c (filter (kept cat) items)).
  { intros c. rewrite <- weigh_items. apply weighted_Permutation.
    by apply fmap_Permutation. }
  split; [exact Hw|]. split; [apply Hl; constructor|]. split.
  - intros c Hc. specialize (Hle c Hc). rewrite Hsum in Hle. simpl in Hle. lia.
  - intros Hlight c. rewrite Heq, Hsum; [simpl; lia|].
    rewrite Hperm. by apply weigh_light.
Qed.

Lemma enough_fuel_enough fuel items :
  (enough_fuel items <= fuel)%nat ->
  Forall (fun it => quantity it <= Z.of_nat fuel) items.
Proof.
  induction items as [|it items IH]; simpl; intros H; constructor.
  - lia.
  - apply IH. lia.
Qed.

(** [packShipment] returns, given fuel for the largest quantity, when no
    item has a negative unit mass. *)
Lemma packShipment_terminates fuel cat items maxWeightG :
  0 < maxWeightG ->
  Forall (fun it => 0 <= unit_mass cat (productId it)) items ->
  (enough_fuel items <= fuel)%nat ->
  is_Some (packShipment fuel cat items maxWeightG).
Proof.
  intros Hmax Hmass Hfuel. unfold packShipment, itemsWithWeight.
  apply pack_items_terminates; [exact Hmax|].
  rewrite sort_heaviest_first_Permutation. apply weigh_packable.
  apply enough_fuel_enough in Hfuel.
  rewrite Forall_forall in Hmass, Hfuel. rewrite Forall_forall. auto.
Qed.

(** More fuel does not change a result. *)
Lemma pack_item_more_fuel fuel fuel' cat maxWeightG id unitW shipments rem out :
  (fuel <= fuel')%nat ->
  pack_item fuel cat maxWeightG id unitW shipments rem = Some out ->
  pack_item fuel' cat maxWeightG id unitW shipments rem = Some out.
Proof.
  revert fuel' shipments rem.
  induction fuel as [|fuel IH]; intros fuel' shipments rem Hle; simpl.
  - destruct (rem >? 0) eqn:E; [discriminate|]. intros [= <-].
    destruct fuel'; simpl; by rewrite E.
  - destruct fuel' as [|fuel']; [lia|]. simpl.
    destruct (rem >? 0); [|done].
    destruct (is_zero _); [done|].
    destruct (try_existing cat maxWeightG id unitW rem shipments) as [[? ?]|];
      [apply IH; lia|].
    destruct (min_with _ _); [apply IH; lia|done].
Qed.

Lemma pack_items_more_fuel fuel fuel' cat maxWeightG xs shipments out :
  (fuel <= fuel')%nat ->
  pack_items fuel cat maxWeightG xs shipments = Some out ->
  pack_items fuel' cat maxWeightG xs shipments = Some out.
Proof.
  intros Hle. revert shipments. induction xs as [|x xs IH]; intros shipments; simpl;
    [done|].
  destruct (pack_item fuel _ _ _ _ _ _) as [mid|] eqn:E; [|discriminate].
  rewrite (pack_item_more_fuel _ _ _ _ _ _ _ _ _ Hle E). apply IH.
Qed.

Lemma packShipment_more_fuel fuel fuel' cat items maxWeightG packages :
  (fuel <= fuel')%nat ->
  packShipment fuel cat items maxWeightG = Some packages ->
  packShipment fuel' cat items maxWeightG = Some packages.
Proof. apply pack_items_more_fuel. Qed.

(** C5. For every catalog, every list of items and every positive ceiling,
    every package of a result of the greedy first-fit strategy has a mass,
    the sum over its lines of unit mass times quantity as both
    [calculateShipmentWeight] and [calculateTotalMass] compute it, of at most
    the ceiling; and the strategy returns, with fuel for the largest
    quantity, when no unit mass is negative. *)
Theorem packages_within_ceiling cat items maxWeightG :
  0 < maxWeightG ->
  (masses_nonnegative cat ->
   is_Some (packShipment (enough_fuel items) cat items maxWeightG)) /\
  forall fuel packages,
    packShipment fuel cat items maxWeightG = Some packages ->
    Forall (fun package =>
              calculateShipmentWeight cat package = weighted (unit_mass cat) package /\
              InventoryService.calculateTotalMass cat package
              = weighted (unit_mass cat) package /\
              weighted (unit_mass cat) package <= maxWeightG) packages.
Proof.
  intros Hmax. split.
  - intros Hcat. apply packShipment_terminates; [exact Hmax| |done].
    rewrite Forall_forall. intros it _. unfold unit_mass.
    destruct (cat !! productId it) as [product|] eqn:E; [eauto|lia].
  - intros fuel packages Hrun.
    destruct (packShipment_result _ _ _ _ _ Hmax Hrun) as (Hw & _).
    eapply Forall_impl; [exact Hw|]. intros package Hp. unfold within in Hp.
    rewrite calculateTotalMass_weighted, <- calculateShipmentWeight_weighted. auto.
Qed.

Lemma filter_kept_all cat items :
  Forall (kept cat) items -> filter (kept cat) items = items.
Proof.
  induction 1 as [|it items Hk _ IH]; [done|].
  rewrite filter_cons, decide_True by done. by rewrite IH.
Qed.

(** With a unit mass below zero the loop for the item does not end: no
    fuel gives a result. *)
Lemma packShipment_negative_mass fuel cat id product q maxWeightG :
  0 < maxWeightG ->
  cat !! id = Some product ->
  Product.massG product < 0 ->
  0 < q ->
  packShipment fuel cat [mkItem id q] maxWeightG = None.
Proof.
  intros Hmax Hlook Hneg Hq. unfold packShipment, itemsWithWeight. simpl.
  rewrite Hlook. destruct (Z.gtb_spec q 0) as [_|?]; [|lia]. simpl.
  rewrite (pack_item_diverges cat maxWeightG id (Product.massG product) Hmax);
    [done| |exact Hneg|exact Hq|constructor].
  unfold unit_mass. by rewrite Hlook.
Qed.

(** C6, as stated, fails.  A product of unit mass -5 g, which [initCatalog]
    takes as it is, is a catalog product whose unit mass is at most the
    ceiling of 1800 g, and the strategy does not terminate on one unit of it:
    every package has room for one more unit, so no fuel gives a result.
    Under a ceiling of 0 g a product of unit mass 0 g is within the ceiling,
    and the quantity of the new package is [Math.min(NaN, 1)]: no package of
    a whole number of units is returned. *)
Lemma packing_needs_masses_from_zero :
  (Forall (fun it => 0 < quantity it /\
                     exists product,
                       ({[ 0 := Product.mk 0 "RBC A+ Adult" (-5) 0 ]} : gmap Z Product.t)
                         !! productId it = Some product /\
                       Product.massG product <= 1800)
          [mkItem 0 1] /\
   forall fuel,
     packShipment fuel {[ 0 := Product.mk 0 "RBC A+ Adult" (-5) 0 ]} [mkItem 0 1] 1800
     = None) /\
  (Forall (fun it => 0 < quantity it /\
                     exists product,
                       ({[ 0 := Product.mk 0 "RBC A+ Adult" 0 0 ]} : gmap Z Product.t)
                         !! productId it = Some product /\
                       Product.massG product <= 0)
          [mkItem 0 1] /\
   forall fuel,
     packShipment fuel {[ 0 := Product.mk 0 "RBC A+ Adult" 0 0 ]} [mkItem 0 1] 0
     = None).
Proof.
  split; split.
  - constructor; [|constructor]. split; [simpl; lia|].
    exists (Product.mk 0 "RBC A+ Adult" (-5) 0). split; [reflexivity|simpl; lia].
  - intros fuel.
    apply (packShipment_negative_mass fuel _ 0 (Product.mk 0 "RBC A+ Adult" (-5) 0));
      [lia|reflexivity|simpl; lia|lia].
  - constructor; [|constructor]. split; [simpl; lia|].
    exists (Product.mk 0 "RBC A+ Adult" 0 0). split; [reflexivity|simpl; lia].
  - intros fuel. by destruct fuel.
Qed.

(** C6, amended.  Under a positive ceiling, for a list of items each of
    positive quantity and of a catalog product whose unit mass is at most the
    ceiling and not negative, the greedy first-fit strategy returns, with
    fuel for the largest quantity, and the packages of a result hold as many
    units as the input, in total and of each product. *)
Theorem packing_keeps_every_unit cat items maxWeightG :
  0 < maxWeightG ->
  Forall (fun it => 0 < quantity it /\
                    exists product, cat !! productId it = Some product /\
                                    0 <= Product.massG product <= maxWeightG) items ->
  is_Some (packShipment (enough_fuel items) cat items maxWeightG) /\
  forall fuel packages,
    packShipment fuel cat items maxWeightG = Some packages ->
    total_quantity (concat packages) = total_quantity items /\
    forall id, quantity_of id (concat packages) = quantity_of id items.
Proof.
  intros Hmax Hitems.
  assert (Hkept : filter (kept cat) items = items).
  { apply filter_kept_all. eapply Forall_impl; [exact Hitems|].
    intros it (Hq & product & E & _). split; [eauto|done]. }
  assert (Hlight : Forall (fun it => 0 <= unit_mass cat (productId it) <= maxWeightG)
                     items).
  { eapply Forall_impl; [exact Hitems|].
    intros it (_ & product & E & Hm). unfold unit_mass. by rewrite E. }
  split.
  - apply packShipment_terminates; [exact Hmax| |done].
    eapply Forall_impl; [exact Hlight|]. simpl. lia.
  - intros fuel packages Hrun.
    destruct (packShipment_result _ _ _ _ _ Hmax Hrun) as (_ & _ & _ & Heq).
    specialize (Heq Hlight). rewrite Hkept in Heq.
    split; [apply Heq|]. intros id. apply Heq.
Qed.

(** Scenario 3: three units of 1000 g under a ceiling of 1800 g make three
    packages of one unit. *)
Example scenario3 :
  packShipment 3 {[ 0 := Product.mk 0 "RBC A+ Adult" 1000 3 ]} [mkItem 0 3] 1800
  = Some [[mkItem 0 1]; [mkItem 0 1]; [mkItem 0 1]].
Proof. vm_compute. reflexivity. Qed.

Example pack_mixed :
  packShipment 5 catalog_mixed [mkItem 1 5; mkItem 0 3; mkItem 9 4; mkItem 1 0] 1800
  = Some [[mkItem 0 2; mkItem 1 5]; [mkItem 0 1]].
Proof. vm_compute. reflexivity. Qed.

Lemma masses_nonnegative_mixed : masses_nonnegative catalog_mixed.
Proof.
  intros id product. unfold catalog_mixed.
  rewrite lookup_insert. case_decide; [intros [= <-]; simpl; lia|].
  rewrite lookup_insert. case_decide; [intros [= <-]; simpl; lia|].
  by rewrite lookup_empty.
Qed.

Lemma packages_within_ceiling_witness :
  is_Some (packShipment (enough_fuel [mkItem 1 5; mkItem 0 3; mkItem 9 4; mkItem 1 0])
             catalog_mixed [mkItem 1 5; mkItem 0 3; mkItem 9 4; mkItem 1 0] 1800) /\
  forall fuel packages,
    packShipment fuel catalog_mixed [mkItem 1 5; mkItem 0 3; mkItem 9 4; mkItem 1 0] 1800
    = Some packages ->
    Forall (fun package =>
              calculateShipmentWeight catalog_mixed package
              = weighted (unit_mass catalog_mixed) package /\
              InventoryService.calculateTotalMass catalog_mixed package
              = weighted (unit_mass catalog_mixed) package /\
              weighted (unit_mass catalog_mixed) package <= 1800) packages.
Proof.
  destruct (packages_within_ceiling catalog_mixed
              [mkItem 1 5; mkItem 0 3; mkItem 9 4; mkItem 1 0] 1800 ltac:(lia))
    as [Hreturns Hwithin].
  split; [exact (Hreturns masses_nonnegative_mixed)|exact Hwithin].
Defined.

Lemma packing_keeps_every_unit_witness :
  is_Some (packShipment (enough_fuel [mkItem 1 5; mkItem 0 3])
             catalog_mixed [mkItem 1 5; mkItem 0 3] 1800) /\
  forall fuel packages,
    packShipment fuel catalog_mixed [mkItem 1 5; mkItem 0 3] 1800 = Some packages ->
    total_quantity (concat packages) = total_quantity [mkItem 1 5; mkItem 0 3] /\
    forall id, quantity_of id (concat packages) = quantity_of id [mkItem 1 5; mkItem 0 3].
Proof.
  apply (packing_keeps_every_unit catalog_mixed [mkItem 1 5; mkItem 0 3] 1800).
  - lia.
  - repeat constructor; simpl; try lia.
    + exists (Product.mk 1 "PLT AB+" 80 0). split; [reflexivity|simpl; lia].
    + exists (Product.mk 0 "RBC A+ Adult" 700 0). split; [reflexivity|simpl; lia].
Defined.

(** ** Batch mode against one package at a time *)

Example packages_101_packed :
  packShipment 101 (catalog state_101) [mkItem 0 101] 1800 = Some packages_101.
Proof. vm_compute. reflexivity. Qed.

(** C3. Batch mode does not leave the state of one package at a time: for
    the 101 packages of an order of 101 units, both succeed and leave
    the same stock, the same shipment records, the same shipped items and the
    same status, but not the same shipment count: [updateOrderShipment] adds
    one to [totalShipments] per call, and batch mode calls it once per batch
    of 50, so the count is 3 where one package at a time gives 101. *)
Theorem batch_mode_counts_batches :
  exists s_batch s_single,
    FulfillmentService.batchShipPackages 1 packages_101 state_101 = (s_batch, Ok tt) /\
    FulfillmentService.for_each (FulfillmentService.shipPackage 1) packages_101 state_101
    = (s_single, Ok tt) /\
    catalog s_batch = catalog s_single /\
    shipments s_batch = shipments s_single /\
    length (shipments s_batch) = 101%nat /\
    map Order.shippedItems (orders s_batch) = map Order.shippedItems (orders s_single) /\
    map Order.status (orders s_batch) = map Order.status (orders s_single) /\
    map Order.totalShipments (orders s_batch) = [3] /\
    map Order.totalShipments (orders s_single) = [101].
Proof.
  eexists _, _. split; [vm_compute; reflexivity|].
  split; [vm_compute; reflexivity|].
  repeat split; vm_compute; reflexivity.
Qed.

(** The same through [processOrder], which takes batch mode above 100
    packages: 101 shipment records and a shipment count of 3. *)
Lemma processOrder_101_counts_3 :
  exists s',
    FulfillmentService.processOrder 101 1 1 [Req.mk 0 101] state_101 = Some (s', Ok tt) /\
    length (shipments s') = 101%nat /\
    orders s' = [Order.mk 1 [mkItem 0 101] [mkItem 0 101] FULFILLED 3 1].
Proof.
  eexists. split; [vm_compute; reflexivity|]. split; vm_compute; reflexivity.
Qed.

(** ** The effect of a shipment on the ledger and on the catalog *)

Lemma for_each_app {A} (f : A -> M unit) l1 l2 s :
  FulfillmentService.for_each f (l1 ++ l2) s
  = match FulfillmentService.for_each f l1 s with
    | (s1, Ok _) => FulfillmentService.for_each f l2 s1
    | (s1, Throw e) => (s1, Throw e)
    end.
Proof.
  revert s. induction l1 as [|x l1 IH]; intros s; simpl; [done|].
  unfold bind. destruct (f x s) as [s1 [[]|e]]; [apply IH|done].
Qed.

Lemma reserve_loop_unit_mass items cat id :
  unit_mass (InventoryService.reserve_loop cat items).1 id = unit_mass cat id.
Proof.
  revert cat. induction items as [|it items IH]; intros cat; simpl; [done|].
  destruct (cat !! productId it) as [product|] eqn:E; [|done].
  destruct (_ <? _); [done|]. rewrite IH. unfold unit_mass.
  rewrite lookup_insert. case_decide; [subst; by rewrite E|done].
Qed.

Lemma weighted_ext c1 c2 items :
  (forall id, c1 id = c2 id) -> weighted c1 items = weighted c2 items.
Proof. intros H. induction items as [|x l IH]; simpl; [done|]. by rewrite H, IH. Qed.

Lemma shippedQuantity_merge_item l it id :
  OrderQueueService.shippedQuantity (merge_item l it) id
  = OrderQueueService.shippedQuantity l id
    + (if productId it =? id then 1 else 0) * quantity it.
Proof.
  unfold OrderQueueService.shippedQuantity.
  induction l as [|x l IH]; simpl.
  - destruct (productId it =? id); lia.
  - destruct (Z.eqb_spec (productId x) (productId it)) as [E|E]; simpl.
    + rewrite <- E. destruct (productId x =? id); simpl; lia.
    + destruct (Z.eqb_spec (productId x) id) as [E'|E'].
      * destruct (Z.eqb_spec (productId it) id); [congruence|lia].
      * exact IH.
Qed.

Lemma shippedQuantity_foldl_merge items l id :
  OrderQueueService.shippedQuantity (foldl merge_item l items) id
  = OrderQueueService.shippedQuantity l id + quantity_of id items.
Proof.
  revert l. induction items as [|it items IH]; intros l; simpl.
  - unfold quantity_of. simpl. lia.
  - rewrite IH, shippedQuantity_merge_item. unfold quantity_of. simpl. lia.
Qed.

Lemma save_same_row os order :
  OrderQueueService.findOne os (Order.orderId order) = Some order ->
  OrderQueueService.save os order = os.
Proof.
  induction os as [|o os IH]; simpl; [discriminate|].
  destruct (Z.eqb_spec (Order.orderId o) (Order.orderId order)); [by intros [= ->]|].
  intros H. by rewrite IH.
Qed.

Lemma save_save os order1 order2 :
  Order.orderId order1 = Order.orderId order2 ->
  OrderQueueService.save (OrderQueueService.save os order1) order2
  = OrderQueueService.save os order2.
Proof.
  intros E. induction os as [|o os IH]; simpl.
  - destruct (Z.eqb_spec (Order.orderId order1) (Order.orderId order2)); [done|lia].
  - destruct (Z.eqb_spec (Order.orderId o) (Order.orderId order1)); simpl.
    + destruct (Z.eqb_spec (Order.orderId order1) (Order.orderId order2)); [|lia].
      destruct (Z.eqb_spec (Order.orderId o) (Order.orderId order2)); [done|lia].
    + destruct (Z.eqb_spec (Order.orderId o) (Order.orderId order2)); [lia|].
      by rewrite IH.
Qed.

Lemma shipped_more_refl order : shipped_more order order [].
Proof. repeat split. intros id. unfold quantity_of. simpl. lia. Qed.

Lemma shipped_more_trans order1 order2 order3 items1 items2 :
  shipped_more order1 order2 items1 -> shipped_more order2 order3 items2 ->
  shipped_more order1 order3 (items1 ++ items2).
Proof.
  intros (Hi1 & Hr1 & Hc1 & Hs1) (Hi2 & Hr2 & Hc2 & Hs2).
  repeat split; try congruence.
  intros id. rewrite Hs2, Hs1. unfold quantity_of. rewrite weighted_app. lia.
Qed.

Lemma recorded_refl orderId os : recorded orderId [] os os.
Proof.
  unfold recorded. destruct (OrderQueueService.findOne os orderId) as [order|] eqn:E;
    [|done].
  exists order. split; [|apply shipped_more_refl].
  symmetry. apply save_same_row. by rewrite (findOne_orderId _ _ _ E).
Qed.

Lemma recorded_trans orderId items1 items2 os1 os2 os3 :
  recorded orderId items1 os1 os2 -> recorded orderId items2 os2 os3 ->
  recorded orderId (items1 ++ items2) os1 os3.
Proof.
  unfold recorded.
  destruct (OrderQueueService.findOne os1 orderId) as [order1|] eqn:E1.
  - intros (order2 & -> & H12). pose proof H12 as (Hid & _).
    pose proof (findOne_orderId _ _ _ E1) as Hid1.
    assert (E2 : OrderQueueService.findOne (OrderQueueService.save os1 order2) orderId
                 = Some order2).
    { replace orderId with (Order.orderId order2) by congruence.
      apply findOne_save_same. }
    rewrite E2. intros (order3 & -> & H23). exists order3. split.
    + apply save_save. by destruct H23 as (-> & _).
    + eapply shipped_more_trans; eauto.
  - intros ->. rewrite E1. by intros ->.
Qed.

Lemma updateOrderShipment_recorded orderId items s :
  recorded orderId items (orders s)
    (orders (OrderQueueService.updateOrderShipment orderId items s).1).
Proof.
  unfold recorded, OrderQueueService.updateOrderShipment.
  destruct (OrderQueueService.findOne (orders s) orderId) as [order|] eqn:E; simpl;
    [|done].
  eexists. split; [reflexivity|]. repeat split. simpl.
  intros id. apply shippedQuantity_foldl_merge.
Qed.

Lemma updateOrderShipment_frame orderId items s :
  catalog (OrderQueueService.updateOrderShipment orderId items s).1 = catalog s /\
  shipments (OrderQueueService.updateOrderShipment orderId items s).1 = shipments s.
Proof.
  unfold OrderQueueService.updateOrderShipment.
  by destruct (OrderQueueService.findOne (orders s) orderId).
Qed.

Lemma reserveStock_frame items s :
  orders (InventoryService.reserveStock items s).1 = orders s /\
  shipments (InventoryService.reserveStock items s).1 = shipments s /\
  forall id, unit_mass (catalog (InventoryService.reserveStock items s).1) id
             = unit_mass (catalog s) id.
Proof.
  unfold InventoryService.reserveStock.
  pose proof (reserve_loop_unit_mass items (catalog s)) as H.
  destruct (InventoryService.reserve_loop (catalog s) items). simpl in *. auto.
Qed.

(** [shipPackage] with the binds written out. *)
Lemma shipPackage_eq orderId items s :
  FulfillmentService.shipPackage orderId items s
  = let totalMass := InventoryService.calculateTotalMass (catalog s) items in
    if totalMass >? FulfillmentService.MAX_PACKAGE_WEIGHT_G
    then (s, Throw (ExceedsMaximumWeight totalMass))
    else match InventoryService.reserveStock items s with
         | (s1, Throw e) => (s1, Throw e)
         | (s1, Ok _) =>
             match OrderQueueService.updateOrderShipment orderId items
                     (with_shipments s1
                        (shipments s1 ++ [Shipment.mk orderId items totalMass])) with
             | (s3, Ok _) => (s3, Ok tt)
             | (s3, Throw e) => (s3, Throw e)
             end
         end.
Proof.
  unfold FulfillmentService.shipPackage. simpl.
  destruct (_ >? _); [done|]. unfold bind.
  destruct (InventoryService.reserveStock items s) as [s1 [[]|e]]; [|done]. simpl.
  by destruct (OrderQueueService.updateOrderShipment _ _ _) as [s3 [o|e]].
Qed.

(** What one [shipPackage] does to the order table: either it throws and
    leaves the table as it was, or the package is recorded for the order. *)
Lemma shipPackage_recorded orderId items s s' r :
  FulfillmentService.shipPackage orderId items s = (s', r) ->
  (r = Ok tt /\ recorded orderId items (orders s) (orders s')) \/
  (exists e, r = Throw e /\ orders s' = orders s).
Proof.
  rewrite shipPackage_eq. simpl.
  destruct (_ >? _); [intros [= <- <-]; eauto|].
  pose proof (reserveStock_frame items s) as (Ho & _).
  destruct (InventoryService.reserveStock items s) as [s1 [[]|e]]; simpl in Ho;
    [|intros [= <- <-]; eauto].
  set (s2 := with_shipments s1 _).
  pose proof (updateOrderShipment_recorded orderId items s2) as Hrec.
  replace (orders s2) with (orders s) in Hrec by (simpl; congruence).
  unfold OrderQueueService.updateOrderShipment in *.
  destruct (OrderQueueService.findOne (orders s2) orderId); simpl in *.
  - intros [= <- <-]. left. by split.
  - intros [= <- <-]. right. eexists. split; [done|]. simpl. congruence.
Qed.

Lemma weighted_nonneg c items :
  (forall id, 0 <= c id) -> positive_lines items -> 0 <= weighted c items.
Proof.
  intros Hc. induction 1 as [|it items Hq _ IH]; simpl; [lia|].
  pose proof (Hc (productId it)). nia.
Qed.

Lemma weighted_concat_nonneg c (packages : list (list Item)) :
  (forall id, 0 <= c id) -> Forall positive_lines packages ->
  0 <= weighted c (concat packages).
Proof.
  intros Hc. induction 1 as [|pk packages Hpk _ IH]; simpl; [lia|].
  rewrite weighted_app. pose proof (weighted_nonneg c pk Hc Hpk). lia.
Qed.

(** The pass one package at a time: the packages recorded for the order
    are those before the first one that throws. *)
Lemma for_each_shipPackage_recorded orderId packages s s' r :
  FulfillmentService.for_each (FulfillmentService.shipPackage orderId) packages s = (s', r) ->
  exists committed rest,
    packages = committed ++ rest /\
    recorded orderId (concat committed) (orders s) (orders s') /\
    (r = Ok tt -> rest = []).
Proof.
  revert s. induction packages as [|pk packages IH]; intros s; simpl.
  - intros [= <- <-]. exists [], []. repeat split. apply recorded_refl.
  - unfold bind.
    destruct (FulfillmentService.shipPackage orderId pk s) as [s1 r1] eqn:E.
    destruct (shipPackage_recorded _ _ _ _ _ E) as [[-> Hrec]|(e & -> & Ho)].
    + intros Hrest. destruct (IH _ Hrest) as (committed & rest & -> & Hrec' & Hok).
      exists (pk :: committed), rest. repeat split; [|exact Hok].
      simpl. eapply recorded_trans; eauto.
    + intros [= <- <-]. exists [], (pk :: packages). repeat split; [|done].
      rewrite Ho. apply recorded_refl.
Qed.

(** [process_batch] with the binds written out. *)
Lemma process_batch_eq orderId batch s :
  FulfillmentService.process_batch orderId batch s
  = let acc := foldl (FulfillmentService.collect_shipment (catalog s) orderId)
                 ([], []) batch in
    match (if FulfillmentService.is_empty acc.1 then (s, Ok tt)
           else InventoryService.reserveStock acc.1 s) with
    | (s1, Throw e) => (s1, Throw e)
    | (s1, Ok _) =>
        let s2 := if FulfillmentService.is_empty acc.2 then s1
                  else with_shipments s1 (shipments s1 ++ acc.2) in
        if FulfillmentService.is_empty acc.1 then (s2, Ok tt)
        else match OrderQueueService.updateOrderShipment orderId acc.1 s2 with
             | (s3, Ok _) => (s3, Ok tt)
             | (s3, Throw e) => (s3, Throw e)
             end
    end.
Proof.
  unfold FulfillmentService.process_batch. simpl.
  destruct (foldl _ _ batch) as [allBatchItems shipmentData]. simpl. unfold bind.
  destruct (FulfillmentService.is_empty allBatchItems).
  - simpl. by destruct (FulfillmentService.is_empty shipmentData).
  - destruct (InventoryService.reserveStock allBatchItems s) as [s1 [[]|e]]; [|done].
    destruct (FulfillmentService.is_empty shipmentData); simpl;
      by destruct (OrderQueueService.updateOrderShipment _ _ _) as [s3 [o|e]].
Qed.

Lemma collect_shipment_bounds c cat orderId batch acc :
  (forall id, 0 <= c id) -> Forall positive_lines batch ->
  weighted c acc.1
  <= weighted c (foldl (FulfillmentService.collect_shipment cat orderId) acc batch).1
  <= weighted c acc.1 + weighted c (concat batch).
Proof.
  intros Hc Hall. revert acc. induction Hall as [|pk batch Hpk _ IH]; intros acc; simpl;
    [lia|].
  rewrite weighted_app. pose proof (weighted_nonneg c pk Hc Hpk).
  specialize (IH (FulfillmentService.collect_shipment cat orderId acc pk)).
  assert (Hstep : weighted c acc.1
                  <= weighted c (FulfillmentService.collect_shipment cat orderId acc pk).1
                  <= weighted c acc.1 + weighted c pk).
  { unfold FulfillmentService.collect_shipment. destruct (_ >? _); simpl; [lia|].
    rewrite weighted_foldl_merge. lia. }
  lia.
Qed.

Lemma process_batch_recorded orderId batch s s' r :
  FulfillmentService.process_batch orderId batch s = (s', r) ->
  Forall positive_lines batch ->
  exists items,
    recorded orderId items (orders s) (orders s') /\
    forall c, (forall id, 0 <= c id) ->
              0 <= weighted c items <= weighted c (concat batch).
Proof.
  rewrite process_batch_eq. simpl. intros Hrun Hall.
  set (acc := foldl _ _ batch) in *.
  assert (Hacc : forall c, (forall id, 0 <= c id) ->
                           0 <= weighted c acc.1 <= weighted c (concat batch)).
  { intros c Hc.
    pose proof (collect_shipment_bounds c (catalog s) orderId batch ([], []) Hc Hall) as H.
    simpl in H. fold acc in H. lia. }
  assert (Hnone : forall c, (forall id, 0 <= c id) ->
                            0 <= weighted c [] <= weighted c (concat batch)).
  { intros c Hc. specialize (Hacc c Hc). simpl. lia. }
  destruct (FulfillmentService.is_empty acc.1) eqn:Eempty.
  - exists []. split; [|exact Hnone].
    destruct (FulfillmentService.is_empty acc.2); injection Hrun as <- <-;
      apply recorded_refl.
  - pose proof (reserveStock_frame acc.1 s) as (Ho & _).
    destruct (InventoryService.reserveStock acc.1 s) as [s1 [[]|e]]; simpl in Ho.
    2:{ injection Hrun as <- <-. exists []. split; [|exact Hnone].
        rewrite Ho. apply recorded_refl. }
    set (s2 := if FulfillmentService.is_empty acc.2 then s1 else _) in *.
    assert (Ho2 : orders s2 = orders s).
    { unfold s2. by destruct (FulfillmentService.is_empty acc.2). }
    pose proof (updateOrderShipment_recorded orderId acc.1 s2) as Hrec.
    rewrite Ho2 in Hrec. exists acc.1. split; [|exact Hacc].
    destruct (OrderQueueService.updateOrderShipment orderId acc.1 s2) as [s3 [o|e]];
      by injection Hrun as <- <-.
Qed.

Lemma batches_recorded orderId (all : list (list Item)) starts s s' r :
  FulfillmentService.for_each
    (fun i => FulfillmentService.process_batch orderId
                (take FulfillmentService.BATCH_SIZE (drop i all))) starts s = (s', r) ->
  Forall positive_lines all ->
  exists items,
    recorded orderId items (orders s) (orders s') /\
    forall c, (forall id, 0 <= c id) ->
      0 <= weighted c items
      <= foldr (fun i acc =>
                  weighted c (concat (take FulfillmentService.BATCH_SIZE (drop i all))) + acc)
               0 starts.
Proof.
  intros Hrun Hall. revert s Hrun. induction starts as [|i starts IH]; intros s; simpl.
  - intros [= <- <-]. exists []. split; [apply recorded_refl|]. intros c _. simpl. lia.
  - unfold bind.
    destruct (FulfillmentService.process_batch orderId _ s) as [s1 r1] eqn:E.
    apply process_batch_recorded in E as (items1 & Hrec1 & Hb1);
      [|by apply Forall_take, Forall_drop].
    destruct r1 as [[]|e].
    + intros Hrest. destruct (IH _ Hrest) as (items2 & Hrec2 & Hb2).
      exists (items1 ++ items2). split; [eapply recorded_trans; eauto|].
      intros c Hc. rewrite weighted_app. specialize (Hb1 c Hc). specialize (Hb2 c Hc). lia.
    + intros [= <- <-]. exists items1. split; [exact Hrec1|].
      intros c Hc. specialize (Hb1 c Hc).
      assert (0 <= foldr (fun i acc =>
                  weighted c (concat (take FulfillmentService.BATCH_SIZE (drop i all))) + acc)
               0 starts); [|lia].
      clear -Hc Hall. induction starts as [|j starts IH]; simpl; [lia|].
      pose proof (weighted_concat_nonneg c
                    (take FulfillmentService.BATCH_SIZE (drop j all)) Hc
                    ltac:(by apply Forall_take, Forall_drop)). lia.
Qed.

(** The batches cover the packages, each once. *)
Lemma batches_cover c (all : list (list Item)) k0 n :
  foldr (fun i acc =>
           weighted c (concat (take FulfillmentService.BATCH_SIZE (drop i all))) + acc)
        0 (map (fun k => k * FulfillmentService.BATCH_SIZE)%nat (seq k0 n))
  = weighted c (concat (take (n * FulfillmentService.BATCH_SIZE)
                          (drop (k0 * FulfillmentService.BATCH_SIZE) all))).
Proof.
  revert k0. induction n as [|n IH]; intros k0; [done|].
  cbn [seq map foldr]. rewrite IH.
  replace (S n * FulfillmentService.BATCH_SIZE)%nat
    with (FulfillmentService.BATCH_SIZE + n * FulfillmentService.BATCH_SIZE)%nat by lia.
  rewrite <- take_take_drop, drop_drop, concat_app, weighted_app.
  replace (S k0 * FulfillmentService.BATCH_SIZE)%nat
    with (k0 * FulfillmentService.BATCH_SIZE + FulfillmentService.BATCH_SIZE)%nat by lia.
  done.
Qed.

Lemma batch_starts_cover c (all : list (list Item)) :
  foldr (fun i acc =>
           weighted c (concat (take FulfillmentService.BATCH_SIZE (drop i all))) + acc)
        0 (FulfillmentService.batch_starts (length all))
  = weighted c (concat all).
Proof.
  unfold FulfillmentService.batch_starts. rewrite batches_cover.
  rewrite Nat.mul_0_l, drop_0.
  rewrite take_ge; [done|]. unfold FulfillmentService.BATCH_SIZE.
  pose proof (Nat.div_mod_eq (length all + (50 - 1)) 50).
  pose proof (Nat.mod_upper_bound (length all + (50 - 1)) 50). lia.
Qed.

(** The pass over the packages of one order, in either mode: what is
    recorded for the order is, product by product, no more than the
    packages hold. *)
Lemma ship_all_recorded orderId packages s s' r :
  FulfillmentService.ship_all orderId packages s = (s', r) ->
  Forall positive_lines packages ->
  exists items,
    recorded orderId items (orders s) (orders s') /\
    forall c, (forall id, 0 <= c id) ->
              0 <= weighted c items <= weighted c (concat packages).
Proof.
  unfold FulfillmentService.ship_all, FulfillmentService.batchShipPackages.
  destruct (_ <? _)%nat; intros Hrun Hall.
  - destruct (batches_recorded _ _ _ _ _ _ Hrun Hall) as (items & Hrec & Hb).
    exists items. split; [exact Hrec|]. intros c Hc. specialize (Hb c Hc).
    by rewrite batch_starts_cover in Hb.
  - destruct (for_each_shipPackage_recorded _ _ _ _ _ Hrun)
      as (committed & rest & -> & Hrec & _).
    exists (concat committed). split; [exact Hrec|]. intros c Hc.
    apply Forall_app in Hall as [Hc1 Hc2].
    rewrite concat_app, weighted_app.
    pose proof (weighted_concat_nonneg c committed Hc Hc1).
    pose proof (weighted_concat_nonneg c rest Hc Hc2). lia.
Qed.

(** ** The ledger invariant *)

Lemma quantity_of_nonneg id items : positive_lines items -> 0 <= quantity_of id items.
Proof.
  intros H. apply weighted_nonneg; [|exact H]. intros id'. destruct (id' =? id); lia.
Qed.

Lemma remaining_of_positive shipped requested :
  positive_lines (OrderQueueService.remaining_of shipped requested).
Proof.
  induction requested as [|x l IH]; simpl; [constructor|].
  destruct (Z.gtb_spec (quantity x - OrderQueueService.shippedQuantity shipped (productId x)) 0);
    [|exact IH].
  constructor; [simpl; lia|exact IH].
Qed.

(** What remains of a product, added to what has shipped, does not exceed
    what was requested. *)
Lemma remaining_of_bound shipped requested id :
  positive_lines requested ->
  0 <= OrderQueueService.shippedQuantity shipped id ->
  quantity_of id (OrderQueueService.remaining_of shipped requested) = 0 \/
  OrderQueueService.shippedQuantity shipped id
  + quantity_of id (OrderQueueService.remaining_of shipped requested)
  <= quantity_of id requested.
Proof.
  intros Hpos HS. induction Hpos as [|x l Hx Hl IH]; [by left|].
  pose proof (quantity_of_nonneg id l Hl) as HQ.
  change (OrderQueueService.remaining_of shipped (x :: l))
    with (if quantity x - OrderQueueService.shippedQuantity shipped (productId x) >? 0
          then mkItem (productId x)
                 (quantity x - OrderQueueService.shippedQuantity shipped (productId x))
                 :: OrderQueueService.remaining_of shipped l
          else OrderQueueService.remaining_of shipped l).
  unfold quantity_of in *.
  destruct (Z.gtb_spec (quantity x - OrderQueueService.shippedQuantity shipped (productId x)) 0)
    as [Hr|Hr]; rewrite ?weighted_cons; cbn [productId quantity];
    destruct (Z.eqb_spec (productId x) id) as [E|Hne]; try rewrite E in *; lia.
Qed.

Lemma getShippableItems_kept cat items :
  Forall (kept cat) (FulfillmentService.getShippableItems cat items).
Proof.
  induction items as [|x l IH]; simpl; [constructor|].
  unfold InventoryService.getAvailableStock.
  destruct (Z.gtb_spec (Z.min (quantity x)
              match cat !! productId x with
              | Some product => Product.quantityInStock product
              | None => 0
              end) 0) as [Hpos|]; [|exact IH].
  constructor; [|exact IH]. split; simpl; [|lia].
  destruct (cat !! productId x); [eauto|lia].
Qed.

Lemma getShippableItems_bound c cat items :
  (forall id, 0 <= c id) -> positive_lines items ->
  0 <= weighted c (FulfillmentService.getShippableItems cat items) <= weighted c items.
Proof.
  intros Hc. induction 1 as [|x l Hx _ IH]; simpl; [lia|].
  pose proof (Hc (productId x)).
  destruct (Z.gtb_spec (Z.min (quantity x)
              (InventoryService.getAvailableStock cat (productId x))) 0); simpl; nia.
Qed.

(** One attempt on an order records for it, product by product, no more
    than was requested and has not shipped. *)
Lemma attemptFulfillment_recorded fuel order s s' r :
  good_order order ->
  FulfillmentService.attemptFulfillment fuel order s = Some (s', r) ->
  exists items,
    recorded (Order.orderId order) items (orders s) (orders s') /\
    forall id,
      0 <= quantity_of id items /\
      OrderQueueService.shippedQuantity (Order.shippedItems order) id
      + quantity_of id items
      <= quantity_of id (Order.requestedItems order).
Proof.
  intros [Hlines Hshipped]. unfold FulfillmentService.attemptFulfillment.
  assert (Hnothing : exists items,
             recorded (Order.orderId order) items (orders s) (orders s) /\
             forall id,
               0 <= quantity_of id items /\
               OrderQueueService.shippedQuantity (Order.shippedItems order) id
               + quantity_of id items
               <= quantity_of id (Order.requestedItems order)).
  { exists []. split; [apply recorded_refl|]. intros id. specialize (Hshipped id).
    unfold quantity_of at 1 2. simpl. lia. }
  destruct (FulfillmentService.is_empty _); [by intros [= <- <-]|].
  destruct (FulfillmentService.is_empty _); [by intros [= <- <-]|].
  set (remaining := OrderQueueService.getRemainingItems order).
  set (shippable := FulfillmentService.getShippableItems (catalog s) remaining).
  destruct (packShipment fuel (catalog s) shippable _) as [packages|] eqn:Epack;
    [|discriminate].
  intros [= Hrun].
  assert (Hmax : 0 < FulfillmentService.MAX_PACKAGE_WEIGHT_G) by done.
  destruct (packShipment_result _ _ _ _ _ Hmax Epack) as (_ & Hpos & Hle & _).
  destruct (ship_all_recorded _ _ _ _ _ Hrun Hpos) as (items & Hrec & Hitems).
  exists items. split; [exact Hrec|]. intros id.
  set (c := fun id' => if id' =? id then 1 else 0).
  assert (Hc : forall id', 0 <= c id') by (intros id'; unfold c; destruct (id' =? id); lia).
  specialize (Hitems c Hc). specialize (Hle c Hc).
  unfold shippable in Hle.
  rewrite (filter_kept_all _ _ (getShippableItems_kept (catalog s) remaining)) in Hle.
  pose proof (getShippableItems_bound c (catalog s) remaining Hc
                (remaining_of_positive _ _)) as Hship.
  specialize (Hshipped id).
  assert (HS : 0 <= OrderQueueService.shippedQuantity (Order.shippedItems order) id)
    by lia.
  pose proof (remaining_of_bound (Order.shippedItems order) (Order.requestedItems order)
                id Hlines HS) as Hbound.
  unfold quantity_of in *. fold c in Hbound, Hshipped. fold c.
  unfold remaining, OrderQueueService.getRemainingItems in *.
  destruct Hbound; lia.
Qed.

Lemma Forall_save (P : Order.t -> Prop) os order :
  Forall P os -> P order -> Forall P (OrderQueueService.save os order).
Proof.
  intros Hos Ho. induction Hos as [|o os Hp Hos IH]; simpl; [by repeat constructor|].
  destruct (_ =? _); constructor; auto.
Qed.

Lemma save_ids_existing os order row :
  OrderQueueService.findOne os (Order.orderId order) = Some row ->
  map Order.orderId (OrderQueueService.save os order) = map Order.orderId os.
Proof.
  induction os as [|o os IH]; simpl; [discriminate|].
  destruct (Z.eqb_spec (Order.orderId o) (Order.orderId order)) as [E|E]; simpl.
  - by rewrite E.
  - intros H. by rewrite IH.
Qed.

Lemma save_new os order :
  OrderQueueService.findOne os (Order.orderId order) = None ->
  OrderQueueService.save os order = os ++ [order].
Proof.
  induction os as [|o os IH]; simpl; [done|].
  destruct (Z.eqb_spec (Order.orderId o) (Order.orderId order)); [discriminate|].
  intros H. by rewrite IH.
Qed.

Lemma findOne_None_fresh os orderId :
  OrderQueueService.findOne os orderId = None -> orderId ∉ map Order.orderId os.
Proof.
  induction os as [|o os IH]; simpl; [intros _; apply not_elem_of_nil|].
  destruct (Z.eqb_spec (Order.orderId o) orderId); [discriminate|].
  intros H. apply not_elem_of_cons. split; [congruence|auto].
Qed.

Lemma findOne_NoDup os order :
  NoDup (map Order.orderId os) -> order ∈ os ->
  OrderQueueService.findOne os (Order.orderId order) = Some order.
Proof.
  induction os as [|o os IH]; simpl; [intros _ H; by apply elem_of_nil in H|].
  intros Hnd Hin. apply NoDup_cons in Hnd as [Hfresh Hnd].
  apply elem_of_cons in Hin as [->|Hin].
  - by rewrite Z.eqb_refl.
  - destruct (Z.eqb_spec (Order.orderId o) (Order.orderId order)) as [E|E]; [|auto].
    exfalso. apply Hfresh. rewrite E. apply list_elem_of_fmap. eauto.
Qed.

Lemma findOne_elem_of os orderId order :
  OrderQueueService.findOne os orderId = Some order -> order ∈ os.
Proof. intros H. apply find_some in H as [H _]. by apply list_elem_of_In. Qed.

Lemma recorded_other orderId items os os' other :
  recorded orderId items os os' -> other <> orderId ->
  OrderQueueService.findOne os' other = OrderQueueService.findOne os other.
Proof.
  unfold recorded. destruct (OrderQueueService.findOne os orderId) as [row|] eqn:E.
  - intros (row' & -> & Hid & _) Hne. apply findOne_save_other.
    rewrite Hid, (findOne_orderId _ _ _ E). done.
  - by intros ->.
Qed.

Lemma recorded_ids orderId items os os' :
  recorded orderId items os os' -> map Order.orderId os' = map Order.orderId os.
Proof.
  unfold recorded. destruct (OrderQueueService.findOne os orderId) as [row|] eqn:E.
  - intros (row' & -> & Hid & _). apply (save_ids_existing _ _ row).
    by rewrite Hid, (findOne_orderId _ _ _ E).
  - by intros ->.
Qed.

Lemma recorded_good orderId items os os' row :
  recorded orderId items os os' ->
  OrderQueueService.findOne os orderId = Some row ->
  (forall id,
     0 <= quantity_of id items /\
     OrderQueueService.shippedQuantity (Order.shippedItems row) id + quantity_of id items
     <= quantity_of id (Order.requestedItems row)) ->
  Forall good_order os -> Forall good_order os'.
Proof.
  unfold recorded. intros Hrec Hrow Hitems Hall. rewrite Hrow in Hrec.
  destruct Hrec as (row' & -> & _ & Hreq & _ & Hship).
  apply Forall_save; [exact Hall|].
  assert (Hgood : good_order row).
  { rewrite Forall_forall in Hall. apply Hall. eapply findOne_elem_of; eauto. }
  destruct Hgood as [Hlines Hbounds]. split; rewrite Hreq; [exact Hlines|].
  intros id. rewrite Hship. specialize (Hitems id). specialize (Hbounds id). lia.
Qed.

Lemma attemptFulfillment_inv fuel order s s' r :
  ledger_inv s ->
  OrderQueueService.findOne (orders s) (Order.orderId order) = Some order ->
  FulfillmentService.attemptFulfillment fuel order s = Some (s', r) ->
  ledger_inv s' /\
  forall other, other <> Order.orderId order ->
    OrderQueueService.findOne (orders s') other
    = OrderQueueService.findOne (orders s) other.
Proof.
  intros (Hnd & Hgood) Hrow Hrun.
  assert (Hgo : good_order order).
  { rewrite Forall_forall in Hgood. apply Hgood. eapply findOne_elem_of; eauto. }
  destruct (attemptFulfillment_recorded _ _ _ _ _ Hgo Hrun) as (items & Hrec & Hb).
  split; [|intros other Hne; eapply recorded_other; eauto].
  split.
  - by rewrite (recorded_ids _ _ _ _ Hrec).
  - eapply recorded_good; eauto.
Qed.

Lemma attempt_each_inv fuel pendingOrders s s' r :
  ledger_inv s ->
  NoDup (map Order.orderId pendingOrders) ->
  (forall order, order ∈ pendingOrders ->
     OrderQueueService.findOne (orders s) (Order.orderId order) = Some order) ->
  FulfillmentService.attempt_each fuel pendingOrders s = Some (s', r) ->
  ledger_inv s'.
Proof.
  revert s. induction pendingOrders as [|o l IH]; intros s Hinv Hnd Hrows; simpl.
  - by intros [= <- _].
  - apply NoDup_cons in Hnd as [Hfresh Hnd].
    destruct (FulfillmentService.attemptFulfillment fuel o s) as [[s1 r1]|] eqn:E;
      [|discriminate].
    destruct (attemptFulfillment_inv _ _ _ _ _ Hinv (Hrows o ltac:(left)) E)
      as [Hinv1 Hother].
    destruct r1 as [[]|e]; [|by intros [= <- _]].
    apply IH; [exact Hinv1|exact Hnd|].
    intros order Hin. rewrite Hother; [apply Hrows; by right|].
    intros Heq. apply Hfresh. rewrite <- Heq. apply list_elem_of_fmap. eauto.
Qed.

Lemma pending_rows s :
  NoDup (map Order.orderId (orders s)) ->
  let pendingOrders :=
    merge_sort OrderQueueService.created_le
      (filter OrderQueueService.is_pending (orders s)) in
  NoDup (map Order.orderId pendingOrders) /\
  forall order, order ∈ pendingOrders ->
    order ∈ orders s /\
    OrderQueueService.findOne (orders s) (Order.orderId order) = Some order.
Proof.
  intros Hnd. simpl.
  pose proof (merge_sort_Permutation OrderQueueService.created_le
                (filter OrderQueueService.is_pending (orders s))) as Hperm.
  split.
  - rewrite Hperm. eapply sublist_NoDup; [exact Hnd|].
    apply fmap_sublist, sublist_filter.
  - intros order Hin. rewrite Hperm in Hin. apply list_elem_of_filter in Hin as [_ Hin].
    split; [exact Hin|]. by apply findOne_NoDup.
Qed.

Lemma fulfillPendingOrders_inv fuel s s' r :
  ledger_inv s ->
  FulfillmentService.fulfillPendingOrders fuel s = Some (s', r) -> ledger_inv s'.
Proof.
  intros Hinv. unfold FulfillmentService.fulfillPendingOrders. simpl.
  destruct (pending_rows s (proj1 Hinv)) as [Hnd Hrows].
  apply attempt_each_inv; [exact Hinv|exact Hnd|]. intros order Hin. by apply Hrows.
Qed.

Lemma to_items_positive requested :
  Forall (fun line => 0 < Req.quantity line) requested ->
  positive_lines (OrderQueueService.to_items requested).
Proof. unfold positive_lines. induction 1; simpl; constructor; auto. Qed.

Lemma enqueueOrder_fresh_inv now orderId requestedItems s :
  ledger_inv s ->
  OrderQueueService.findOne (orders s) orderId = None ->
  Forall (fun line => 0 < Req.quantity line) requestedItems ->
  let order := Order.mk orderId (OrderQueueService.to_items requestedItems) [] PENDING 0 now in
  OrderQueueService.enqueueOrder now orderId requestedItems s
  = (with_orders s (OrderQueueService.save (orders s) order), Ok order) /\
  ledger_inv (with_orders s (OrderQueueService.save (orders s) order)) /\
  OrderQueueService.findOne (OrderQueueService.save (orders s) order) orderId = Some order.
Proof.
  intros (Hnd & Hgood) Hfresh Hlines order.
  unfold OrderQueueService.enqueueOrder. rewrite Hfresh. fold order.
  split; [done|]. split; [|exact (findOne_save_same (orders s) order)].
  assert (Hsave : OrderQueueService.save (orders s) order = orders s ++ [order])
    by (by apply save_new).
  split; simpl; rewrite Hsave.
  - rewrite map_app. apply NoDup_app. split; [exact Hnd|]. split.
    + intros id Hin Hin'. apply list_elem_of_singleton in Hin'. subst id.
      by apply (findOne_None_fresh _ _ Hfresh).
    + apply NoDup_singleton.
  - apply Forall_app. split; [exact Hgood|]. repeat constructor.
    + simpl. by apply to_items_positive.
    + unfold order, OrderQueueService.shippedQuantity. simpl. lia.
    + unfold order, OrderQueueService.shippedQuantity. simpl.
      apply quantity_of_nonneg. by apply to_items_positive.
Qed.

Lemma exec_ledger_inv fuel op s s' r :
  first_submission s op -> ledger_inv s -> exec fuel op s = Some (s', r) -> ledger_inv s'.
Proof.
  intros Hop Hinv. pose proof Hinv as (Hnd & Hgood).
  destruct op as [productInfo| |items|now order_id requested|restock
                 |now orderId requestedItems|orderId shippedItems]; simpl in *.
  - intros ->%lift_state. unfold InventoryService.initCatalog.
    by destruct (isInitialized s).
  - by intros ->%lift_state.
  - intros ->%lift_state.
    pose proof (reserveStock_frame items s) as (Ho & _).
    unfold ledger_inv. by rewrite Ho.
  - destruct Hop as [Hfresh Hlines].
    destruct (enqueueOrder_fresh_inv now order_id requested s Hinv Hfresh Hlines)
      as (Henq & Hinv1 & Hrow).
    unfold FulfillmentService.processOrder. rewrite Henq. intros Hrun.
    eapply attemptFulfillment_inv in Hrun as [Hinv' _]; [exact Hinv'|exact Hinv1|].
    exact Hrow.
  - unfold FulfillmentService.processRestock. simpl.
    apply fulfillPendingOrders_inv. by split.
  - destruct Hop as [Hfresh Hlines].
    destruct (enqueueOrder_fresh_inv now orderId requestedItems s Hinv Hfresh Hlines)
      as (Henq & Hinv1 & _).
    intros ->%lift_state. by rewrite Henq.
  - done.
Qed.

(** C2, amended. In every state reached from the fresh process through the
    public operations with every order identifier submitted once (and lines
    of positive quantity, [updateOrderShipment] called by the allocator
    alone), every order has, for every product, a shipped quantity of at most
    the requested quantity. *)
Theorem shipped_at_most_requested s :
  reach first_submission initial_state s ->
  forall order id,
    order ∈ orders s ->
    OrderQueueService.shippedQuantity (Order.shippedItems order) id
    <= quantity_of id (Order.requestedItems order).
Proof.
  intros Hreach.
  assert (Hinv : ledger_inv s).
  { induction Hreach as [|s' s'' op fuel r _ IH Hop Hexec].
    - split; constructor.
    - eauto using exec_ledger_inv. }
  intros order id Hin. destruct Hinv as (_ & Hgood).
  rewrite Forall_forall in Hgood. destruct (Hgood _ Hin) as [_ H]. apply H.
Qed.

(** A second submission of an order identifier with a smaller quantity:
    five units shipped against two requested. *)
Lemma resubmission_breaks_invariant :
  ~ (forall s, reach checked_by_controller initial_state s ->
       forall order id,
         order ∈ orders s ->
         OrderQueueService.shippedQuantity (Order.shippedItems order) id
         <= quantity_of id (Order.requestedItems order)).
Proof.
  intros H.
  specialize (H (mkState {[ 0 := Product.mk 0 "RBC A+ Adult" 700 0 ]} true
                   [Order.mk 1 [mkItem 0 2] [mkItem 0 5] PENDING 3 1]
                   [Shipment.mk 1 [mkItem 0 2] 1400; Shipment.mk 1 [mkItem 0 2] 1400;
                    Shipment.mk 1 [mkItem 0 1] 700])).
  assert (Hreach : reach checked_by_controller initial_state
            (mkState {[ 0 := Product.mk 0 "RBC A+ Adult" 700 0 ]} true
               [Order.mk 1 [mkItem 0 2] [mkItem 0 5] PENDING 3 1]
               [Shipment.mk 1 [mkItem 0 2] 1400; Shipment.mk 1 [mkItem 0 2] 1400;
                Shipment.mk 1 [mkItem 0 1] 700])).
  { eapply (reach_step _ _ _ _ (OpProcessOrder 2 1 [Req.mk 0 2]) 10%nat (Ok tt)).
    - eapply (reach_step _ _ _ _ (OpProcessOrder 1 1 [Req.mk 0 5]) 10%nat (Ok tt)).
      + eapply (reach_step _ _ _ _ (OpProcessRestock [Req.mk 0 5]) 10%nat (Ok tt)).
        * eapply (reach_step _ _ _ _ (OpInitCatalog [product0]) 0%nat (Ok tt)).
          -- apply reach_refl.
          -- exact I.
          -- reflexivity.
        * repeat constructor.
        * reflexivity.
      + repeat constructor.
      + vm_compute. reflexivity.
    - repeat constructor.
    - vm_compute. reflexivity. }
  specialize (H Hreach (Order.mk 1 [mkItem 0 2] [mkItem 0 5] PENDING 3 1) 0
                ltac:(by left)).
  vm_compute in H. by apply H.
Qed.

Lemma shipped_at_most_requested_witness :
  OrderQueueService.shippedQuantity [mkItem 0 2] 0 <= quantity_of 0 [mkItem 0 2].
Proof.
  apply (shipped_at_most_requested scenario9_state
           ltac:(
             eapply (reach_step _ _ _ _ (OpProcessOrder 1 1 [Req.mk 0 2]) 10%nat (Ok tt));
             [eapply (reach_step _ _ _ _ (OpProcessRestock [Req.mk 0 5]) 10%nat (Ok tt));
              [eapply (reach_step _ _ _ _ (OpInitCatalog [product0]) 0%nat (Ok tt));
               [apply reach_refl|repeat constructor|reflexivity]
              |exact I|reflexivity]
             |split; [reflexivity|repeat constructor]
             |vm_compute; reflexivity])
           (Order.mk 1 [mkItem 0 2] [mkItem 0 2] FULFILLED 1 1) 0).
  by left.
Defined.

(** ** A pass in which a reservation fails *)

Lemma calculateTotalMass_ext cat cat' items :
  (forall id, unit_mass cat' id = unit_mass cat id) ->
  InventoryService.calculateTotalMass cat' items
  = InventoryService.calculateTotalMass cat items.
Proof. intros H. rewrite !calculateTotalMass_weighted. by apply weighted_ext. Qed.

Lemma shipPackage_ok orderId items s s' :
  FulfillmentService.shipPackage orderId items s = (s', Ok tt) ->
  shipments s'
  = shipments s
    ++ [Shipment.mk orderId items (InventoryService.calculateTotalMass (catalog s) items)] /\
  (forall id, unit_mass (catalog s') id = unit_mass (catalog s) id) /\
  recorded orderId items (orders s) (orders s').
Proof.
  intros Hrun.
  destruct (shipPackage_recorded _ _ _ _ _ Hrun) as [[_ Hrec]|(e & [=] & _)].
  revert Hrun. rewrite shipPackage_eq. simpl.
  destruct (_ >? _); [discriminate|].
  pose proof (reserveStock_frame items s) as (_ & Hsh & Hm).
  destruct (InventoryService.reserveStock items s) as [s1 [[]|e]]; [|discriminate].
  simpl in Hsh, Hm. set (s2 := with_shipments s1 _).
  pose proof (updateOrderShipment_frame orderId items s2) as (Hc & Hs).
  destruct (OrderQueueService.updateOrderShipment orderId items s2) as [s3 [o|e]];
    [|discriminate].
  intros [= <-]. simpl in Hc, Hs. rewrite Hc, Hs, Hsh. auto.
Qed.

(** A pass that succeeds has inserted one record per package, in order, and
    recorded every package for the order. *)
Lemma for_each_shipPackage_ok orderId packages s s' :
  FulfillmentService.for_each (FulfillmentService.shipPackage orderId) packages s
  = (s', Ok tt) ->
  shipments s'
  = shipments s
    ++ map (fun items =>
              Shipment.mk orderId items
                (InventoryService.calculateTotalMass (catalog s) items)) packages /\
  (forall id, unit_mass (catalog s') id = unit_mass (catalog s) id) /\
  recorded orderId (concat packages) (orders s) (orders s').
Proof.
  revert s. induction packages as [|items packages IH]; intros s; simpl.
  - intros [= <-]. rewrite app_nil_r. repeat split. apply recorded_refl.
  - unfold bind.
    destruct (FulfillmentService.shipPackage orderId items s) as [s1 [[]|e]] eqn:E;
      [|discriminate].
    apply shipPackage_ok in E as (Hs1 & Hm1 & Hr1).
    intros Hrest. apply IH in Hrest as (Hs' & Hm' & Hr').
    split; [|split].
    + rewrite Hs', Hs1, <- app_assoc. simpl. do 2 f_equal.
      apply map_ext. intros pk. f_equal. by apply calculateTotalMass_ext.
    + intros id. by rewrite Hm', Hm1.
    + eapply recorded_trans; eauto.
Qed.

(** One package at a time. *)
Lemma package_pass_stops orderId before failing after s s1 s2 e order :
  FulfillmentService.for_each (FulfillmentService.shipPackage orderId) before s
  = (s1, Ok tt) ->
  InventoryService.calculateTotalMass (catalog s1) failing
  <= FulfillmentService.MAX_PACKAGE_WEIGHT_G ->
  InventoryService.reserveStock failing s1 = (s2, Throw e) ->
  OrderQueueService.findOne (orders s) orderId = Some order ->
  FulfillmentService.for_each (FulfillmentService.shipPackage orderId)
    (before ++ failing :: after) s = (s2, Throw e) /\
  shipments s2
  = shipments s
    ++ map (fun items =>
              Shipment.mk orderId items
                (InventoryService.calculateTotalMass (catalog s) items)) before /\
  exists order2,
    OrderQueueService.findOne (orders s2) orderId = Some order2 /\
    Order.requestedItems order2 = Order.requestedItems order /\
    (forall id,
       OrderQueueService.shippedQuantity (Order.shippedItems order2) id
       = OrderQueueService.shippedQuantity (Order.shippedItems order) id
         + quantity_of id (concat before)) /\
    OrderQueueService.getRemainingItems order2
    = OrderQueueService.remaining_of (Order.shippedItems order2)
        (Order.requestedItems order).
Proof.
  intros Hbefore Hmass Hreserve Horder.
  pose proof (reserveStock_frame failing s1) as (Ho & Hsh & _).
  rewrite Hreserve in Ho, Hsh. simpl in Ho, Hsh.
  destruct (for_each_shipPackage_ok _ _ _ _ Hbefore) as (Hs1 & _ & Hrec).
  split; [|split].
  - rewrite for_each_app, Hbefore. simpl. unfold bind.
    rewrite shipPackage_eq. simpl.
    destruct (Z.gtb_spec (InventoryService.calculateTotalMass (catalog s1) failing)
                FulfillmentService.MAX_PACKAGE_WEIGHT_G); [lia|].
    by rewrite Hreserve.
  - by rewrite Hsh.
  - unfold recorded in Hrec. rewrite Horder in Hrec.
    destruct Hrec as (order2 & Hsave & Hid & Hreq & _ & Hship).
    exists order2. split; [|split; [exact Hreq|split; [exact Hship|]]].
    + rewrite Ho, Hsave. rewrite <- (findOne_orderId _ _ _ Horder), <- Hid.
      apply findOne_save_same.
    + unfold OrderQueueService.getRemainingItems. by rewrite Hreq.
Qed.


Lemma for_each_map {A B} (f : B -> M unit) (g : A -> B) l s :
  FulfillmentService.for_each f (map g l) s
  = FulfillmentService.for_each (fun x => f (g x)) l s.
Proof.
  revert s. induction l as [|x l IH]; intros s; simpl; [done|].
  unfold bind. destruct (f (g x) s) as [s1 [[]|e]]; [apply IH|done].
Qed.

Lemma batchShipPackages_batches orderId allShipments s :
  FulfillmentService.batchShipPackages orderId allShipments s
  = FulfillmentService.for_each (FulfillmentService.process_batch orderId)
      (batches allShipments) s.
Proof.
  unfold FulfillmentService.batchShipPackages, batches. by rewrite for_each_map.
Qed.

(** Batch mode. *)
Lemma batch_pass_stops orderId allShipments before failing after s s1 s2 e :
  batches allShipments = before ++ failing :: after ->
  FulfillmentService.for_each (FulfillmentService.process_batch orderId) before s
  = (s1, Ok tt) ->
  batch_items (catalog s1) orderId failing <> [] ->
  InventoryService.reserveStock (batch_items (catalog s1) orderId failing) s1
  = (s2, Throw e) ->
  FulfillmentService.batchShipPackages orderId allShipments s = (s2, Throw e) /\
  shipments s2 = shipments s1 /\
  orders s2 = orders s1.
Proof.
  intros Hsplit Hbefore Hitems Hreserve.
  pose proof (reserveStock_frame (batch_items (catalog s1) orderId failing) s1)
    as (Ho & Hsh & _).
  rewrite Hreserve in Ho, Hsh. simpl in Ho, Hsh.
  split; [|by split].
  rewrite batchShipPackages_batches, Hsplit, for_each_app, Hbefore. simpl. unfold bind.
  rewrite process_batch_eq. simpl. fold (batch_items (catalog s1) orderId failing).
  destruct (batch_items (catalog s1) orderId failing) eqn:E; [done|].
  simpl. by rewrite Hreserve.
Qed.

(** C4, amended. A pass goes over the packages of an order one at a time,
    or, above 100 packages, batch by batch.  When the packages (batches)
    [before] have been shipped and the reservation of the next one fails,
    the pass ends there with that error, whatever comes after: no later
    package is attempted.  What was shipped before stays committed, with its
    shipment records and its quantities in the order's shipped items; the
    failed package (batch) leaves no record and no order update, so the
    order keeps as its remainder what it requested less what was shipped
    before. *)
Theorem pass_stops_at_failed_reservation :
  (forall orderId before failing after s s1 s2 e order,
     FulfillmentService.for_each (FulfillmentService.shipPackage orderId) before s
     = (s1, Ok tt) ->
     InventoryService.calculateTotalMass (catalog s1) failing
     <= FulfillmentService.MAX_PACKAGE_WEIGHT_G ->
     InventoryService.reserveStock failing s1 = (s2, Throw e) ->
     OrderQueueService.findOne (orders s) orderId = Some order ->
     FulfillmentService.for_each (FulfillmentService.shipPackage orderId)
       (before ++ failing :: after) s = (s2, Throw e) /\
     shipments s2
     = shipments s
       ++ map (fun items =>
                 Shipment.mk orderId items
                   (InventoryService.calculateTotalMass (catalog s) items)) before /\
     exists order2,
       OrderQueueService.findOne (orders s2) orderId = Some order2 /\
       Order.requestedItems order2 = Order.requestedItems order /\
       (forall id,
          OrderQueueService.shippedQuantity (Order.shippedItems order2) id
          = OrderQueueService.shippedQuantity (Order.shippedItems order) id
            + quantity_of id (concat before)) /\
       OrderQueueService.getRemainingItems order2
       = OrderQueueService.remaining_of (Order.shippedItems order2)
           (Order.requestedItems order)) /\
  (forall orderId allShipments before failing after s s1 s2 e,
     batches allShipments = before ++ failing :: after ->
     FulfillmentService.for_each (FulfillmentService.process_batch orderId) before s
     = (s1, Ok tt) ->
     batch_items (catalog s1) orderId failing <> [] ->
     InventoryService.reserveStock (batch_items (catalog s1) orderId failing) s1
     = (s2, Throw e) ->
     FulfillmentService.batchShipPackages orderId allShipments s = (s2, Throw e) /\
     shipments s2 = shipments s1 /\
     orders s2 = orders s1).
Proof.
  split.
  - apply package_pass_stops.
  - apply batch_pass_stops.
Qed.

(** The order of [order_short] on [state_short]: three packages are packed,
    the second cannot be reserved, and the third, which could be shipped, is
    not attempted. *)
Example order_short_packages :
  packShipment 1 (catalog state_short) (OrderQueueService.to_items order_short) 1800
  = Some [[mkItem 0 1]; [mkItem 0 1]; [mkItem 1 1]].
Proof. vm_compute. reflexivity. Qed.

Lemma later_package_not_attempted :
  exists s s',
    FulfillmentService.processOrder 1 1 1 order_short state_short
    = Some (s', Throw (InsufficientStock 0 0 1)) /\
    OrderQueueService.enqueueOrder 1 1 order_short state_short
    = (s, Ok (Order.mk 1 (OrderQueueService.to_items order_short) [] PENDING 0 1)) /\
    shipments s' = [Shipment.mk 1 [mkItem 0 1] 1000] /\
    stock_of s' 1 = 5 /\
    (FulfillmentService.shipPackage 1 [mkItem 1 1] s').2 = Ok tt /\
    shipments (pass_skipping_failures 1 [[mkItem 0 1]; [mkItem 0 1]; [mkItem 1 1]] s)
    = [Shipment.mk 1 [mkItem 0 1] 1000; Shipment.mk 1 [mkItem 1 1] 900] /\
    s' <> pass_skipping_failures 1 [[mkItem 0 1]; [mkItem 0 1]; [mkItem 1 1]] s.
Proof.
  eexists _, _. split; [vm_compute; reflexivity|].
  split; [vm_compute; reflexivity|].
  split; [vm_compute; reflexivity|].
  split; [vm_compute; reflexivity|].
  split; [vm_compute; reflexivity|].
  split; [vm_compute; reflexivity|].
  intros H. apply (f_equal shipments) in H. vm_compute in H. discriminate.
Qed.

Lemma pass_stops_at_failed_reservation_witness :
  (FulfillmentService.for_each (FulfillmentService.shipPackage 1)
    ([[mkItem 0 1]] ++ [mkItem 0 1] :: [[mkItem 1 1]]) short_s
  = (short_s2, Throw (InsufficientStock 0 0 1)) /\
  shipments short_s2
  = shipments short_s
    ++ map (fun items =>
              Shipment.mk 1 items
                (InventoryService.calculateTotalMass (catalog short_s) items))
         [[mkItem 0 1]] /\
  exists order2,
    OrderQueueService.findOne (orders short_s2) 1 = Some order2 /\
    Order.requestedItems order2
    = Order.requestedItems
        (Order.mk 1 (OrderQueueService.to_items order_short) [] PENDING 0 1) /\
    (forall id,
       OrderQueueService.shippedQuantity (Order.shippedItems order2) id
       = OrderQueueService.shippedQuantity
           (Order.shippedItems
              (Order.mk 1 (OrderQueueService.to_items order_short) [] PENDING 0 1)) id
         + quantity_of id (concat [[mkItem 0 1]])) /\
    OrderQueueService.getRemainingItems order2
    = OrderQueueService.remaining_of (Order.shippedItems order2)
        (Order.requestedItems
           (Order.mk 1 (OrderQueueService.to_items order_short) [] PENDING 0 1))) /\
  (FulfillmentService.batchShipPackages 1 (replicate 120 [mkItem 0 1]) state_120
   = (state_120_2, Throw (InsufficientStock 0 10 50)) /\
   shipments state_120_2 = shipments state_120_1 /\
   orders state_120_2 = orders state_120_1).
Proof.
  split.
  - apply (proj1 pass_stops_at_failed_reservation
             1 [[mkItem 0 1]] [mkItem 0 1] [[mkItem 1 1]]
             short_s short_s1 short_s2 (InsufficientStock 0 0 1)
             (Order.mk 1 (OrderQueueService.to_items order_short) [] PENDING 0 1)).
    + vm_compute. reflexivity.
    + vm_compute. discriminate.
    + vm_compute. reflexivity.
    + vm_compute. reflexivity.
  - apply (proj2 pass_stops_at_failed_reservation
             1 (replicate 120 [mkItem 0 1])
             [replicate 50 [mkItem 0 1]] (replicate 50 [mkItem 0 1])
             [replicate 20 [mkItem 0 1]]
             state_120 state_120_1 state_120_2 (InsufficientStock 0 10 50)).
    + vm_compute. reflexivity.
    + vm_compute. reflexivity.
    + vm_compute. discriminate.
    + vm_compute. reflexivity.
Defined.

(** ** First in, first out *)

Global Instance created_le_transitive : Transitive OrderQueueService.created_le.
Proof. intros a b c. unfold OrderQueueService.created_le. lia. Qed.

Global Instance created_le_total : Total OrderQueueService.created_le.
Proof. intros a b. unfold OrderQueueService.created_le. lia. Qed.

(** An order none of whose remaining lines is in stock is left as it is. *)
Lemma getShippableItems_nothing cat items :
  Forall (fun line => InventoryService.getAvailableStock cat (productId line) <= 0) items ->
  FulfillmentService.getShippableItems cat items = [].
Proof.
  induction 1 as [|x l Hx _ IH]; simpl; [done|].
  destruct (Z.gtb_spec (Z.min (quantity x)
              (InventoryService.getAvailableStock cat (productId x))) 0); [lia|exact IH].
Qed.

Lemma attemptFulfillment_nothing fuel order s :
  Forall (fun line =>
            InventoryService.getAvailableStock (catalog s) (productId line) <= 0)
         (OrderQueueService.getRemainingItems order) ->
  FulfillmentService.attemptFulfillment fuel order s = Some (s, Ok tt).
Proof.
  intros H. unfold FulfillmentService.attemptFulfillment.
  rewrite (getShippableItems_nothing _ _ H). simpl.
  by destruct (FulfillmentService.is_empty _).
Qed.

Lemma attempt_each_nothing fuel pendingOrders s :
  Forall (fun order =>
            Forall (fun line =>
                      InventoryService.getAvailableStock (catalog s) (productId line) <= 0)
                   (OrderQueueService.getRemainingItems order)) pendingOrders ->
  FulfillmentService.attempt_each fuel pendingOrders s = Some (s, Ok tt).
Proof.
  induction 1 as [|o l Ho _ IH]; simpl; [done|].
  by rewrite (attemptFulfillment_nothing _ _ _ Ho).
Qed.

Lemma attempt_each_app fuel l1 l2 s s1 :
  FulfillmentService.attempt_each fuel l1 s = Some (s1, Ok tt) ->
  FulfillmentService.attempt_each fuel (l1 ++ l2) s
  = FulfillmentService.attempt_each fuel l2 s1.
Proof.
  revert s. induction l1 as [|o l1 IH]; intros s; simpl; [by intros [= ->]|].
  destruct (FulfillmentService.attemptFulfillment fuel o s) as [[s' [[]|e]]|];
    [apply IH|discriminate|discriminate].
Qed.

Lemma remaining_of_ids shipped requested :
  map productId (OrderQueueService.remaining_of shipped requested)
  `sublist_of` map productId requested.
Proof.
  induction requested as [|x l IH]; simpl; [done|].
  destruct (_ >? _); simpl; [by apply sublist_skip|by apply sublist_cons].
Qed.

(** With one unit of [P] in stock and nothing else, the lines of distinct
    products one of which is [P] make one shippable unit of [P]. *)
Lemma getShippableItems_one_unit cat P items :
  InventoryService.getAvailableStock cat P = 1 ->
  (forall id, id <> P -> InventoryService.getAvailableStock cat id <= 0) ->
  positive_lines items ->
  NoDup (map productId items) ->
  P ∈ map productId items ->
  FulfillmentService.getShippableItems cat items = [mkItem P 1].
Proof.
  intros HP Hother Hpos. induction Hpos as [|x l Hx Hl IH]; simpl.
  - intros _ H. by apply elem_of_nil in H.
  - intros Hnd Hin. apply NoDup_cons in Hnd as [Hfresh Hnd].
    destruct (decide (productId x = P)) as [E|E].
    + rewrite E, HP.
      destruct (Z.gtb_spec (Z.min (quantity x) 1) 0); [|lia].
      replace (Z.min (quantity x) 1) with 1 by lia. f_equal.
      apply getShippableItems_nothing. rewrite Forall_forall. intros line Hline.
      apply Hother. intros Heq. apply Hfresh. rewrite E, <- Heq.
      apply list_elem_of_fmap. eauto.
    + specialize (Hother _ E).
      destruct (Z.gtb_spec (Z.min (quantity x)
                  (InventoryService.getAvailableStock cat (productId x))) 0); [lia|].
      apply IH; [exact Hnd|]. apply elem_of_cons in Hin as [Hin|Hin]; [congruence|done].
Qed.

Lemma packShipment_one_unit fuel cat P product :
  cat !! P = Some product ->
  0 <= Product.massG product <= FulfillmentService.MAX_PACKAGE_WEIGHT_G ->
  packShipment (S fuel) cat [mkItem P 1] FulfillmentService.MAX_PACKAGE_WEIGHT_G
  = Some [[mkItem P 1]].
Proof.
  intros Hlook Hmass. unfold packShipment, itemsWithWeight. simpl. rewrite Hlook. simpl.
  unfold floor_div.
  destruct (Z.eqb_spec (Product.massG product) 0); [simpl; by destruct fuel|].
  assert (0 < FulfillmentService.MAX_PACKAGE_WEIGHT_G / Product.massG product).
  { apply Z.div_str_pos. lia. }
  simpl.
  destruct (Z.eqb_spec (FulfillmentService.MAX_PACKAGE_WEIGHT_G / Product.massG product) 0);
    [lia|].
  replace (Z.min (FulfillmentService.MAX_PACKAGE_WEIGHT_G / Product.massG product) 1)
    with 1 by lia.
  simpl. by destruct fuel.
Qed.

Lemma ship_all_single orderId items s :
  FulfillmentService.ship_all orderId [items] s
  = match FulfillmentService.shipPackage orderId items s with
    | (s1, Ok _) => (s1, Ok tt)
    | (s1, Throw e) => (s1, Throw e)
    end.
Proof.
  unfold FulfillmentService.ship_all. simpl. unfold bind.
  by destruct (FulfillmentService.shipPackage orderId items s) as [s1 [[]|e]].
Qed.

(** The attempt on an order that needs [P], with one unit of [P] in stock
    and nothing else: one package of one unit is shipped. *)
Lemma attemptFulfillment_one_unit fuel A s P product :
  catalog s !! P = Some product ->
  Product.quantityInStock product = 1 ->
  0 <= Product.massG product <= FulfillmentService.MAX_PACKAGE_WEIGHT_G ->
  (forall id, id <> P -> InventoryService.getAvailableStock (catalog s) id <= 0) ->
  OrderQueueService.findOne (orders s) (Order.orderId A) = Some A ->
  NoDup (map productId (Order.requestedItems A)) ->
  needs A P ->
  exists A',
    FulfillmentService.attemptFulfillment (S fuel) A s
    = Some (mkState (<[P := InventoryService.set_stock product 0]> (catalog s))
              (isInitialized s)
              (OrderQueueService.save (orders s) A')
              (shipments s
                 ++ [Shipment.mk (Order.orderId A) [mkItem P 1] (Product.massG product)]),
            Ok tt) /\
    shipped_more A A' [mkItem P 1].
Proof.
  intros Hlook Hstock Hmass Hother Hrow Hnd Hneeds.
  unfold FulfillmentService.attemptFulfillment.
  assert (Hship : FulfillmentService.getShippableItems (catalog s)
                    (OrderQueueService.getRemainingItems A) = [mkItem P 1]).
  { apply getShippableItems_one_unit; auto.
    - unfold InventoryService.getAvailableStock. by rewrite Hlook.
    - apply remaining_of_positive.
    - eapply sublist_NoDup; [exact Hnd|]. apply remaining_of_ids. }
  assert (Hne : FulfillmentService.is_empty (OrderQueueService.getRemainingItems A) = false).
  { unfold needs in Hneeds.
    destruct (OrderQueueService.getRemainingItems A); [|done].
    by apply elem_of_nil in Hneeds. }
  rewrite Hne, Hship. simpl FulfillmentService.is_empty. cbv iota.
  rewrite (packShipment_one_unit fuel _ _ _ Hlook Hmass).
  rewrite ship_all_single, shipPackage_eq.
  assert (Hm : InventoryService.calculateTotalMass (catalog s) [mkItem P 1]
               = Product.massG product).
  { unfold InventoryService.calculateTotalMass. simpl. rewrite Hlook. lia. }
  rewrite Hm. cbv zeta.
  destruct (Z.gtb_spec (Product.massG product) FulfillmentService.MAX_PACKAGE_WEIGHT_G);
    [lia|].
  unfold InventoryService.reserveStock. simpl InventoryService.reserve_loop.
  rewrite Hlook. rewrite Hstock. change (1 <? 1) with false. cbv iota.
  change (1 - 1) with 0.
  unfold OrderQueueService.updateOrderShipment. simpl orders. rewrite Hrow.
  eexists. split; [reflexivity|].
  repeat split. simpl. intros id. unfold quantity_of. simpl.
  unfold OrderQueueService.shippedQuantity.
  pose proof (shippedQuantity_merge_item (Order.shippedItems A) (mkItem P 1) id) as Hq.
  unfold OrderQueueService.shippedQuantity in Hq. simpl in Hq. lia.
Qed.

Lemma getAvailableStock_insert cat id product id' :
  InventoryService.getAvailableStock (<[id := product]> cat) id'
  = if decide (id = id') then Product.quantityInStock product
    else InventoryService.getAvailableStock cat id'.
Proof.
  unfold InventoryService.getAvailableStock. rewrite lookup_insert. by case_decide.
Qed.

Lemma same_row os A B :
  NoDup (map Order.orderId os) -> A ∈ os -> B ∈ os ->
  Order.orderId A = Order.orderId B -> A = B.
Proof.
  intros Hnd HA HB E.
  pose proof (findOne_NoDup _ _ Hnd HA) as H1.
  pose proof (findOne_NoDup _ _ Hnd HB) as H2.
  rewrite E in H1. congruence.
Qed.

(** The retry after a restock of one unit, in the setting of
    [oldest_in_need]: the unit goes to [A], and to no other order. *)
Lemma restock_one_unit fuel s P A :
  oldest_in_need s P A ->
  exists s' A',
    FulfillmentService.processRestock (S fuel) [Req.mk P 1] s = Some (s', Ok tt) /\
    OrderQueueService.findOne (orders s') (Order.orderId A) = Some A' /\
    shipped_more A A' [mkItem P 1] /\
    nothing_in_stock (catalog s') /\
    (forall B, B ∈ orders s -> B <> A ->
               OrderQueueService.findOne (orders s') (Order.orderId B) = Some B) /\
    shipments s'
    = shipments s ++ [Shipment.mk (Order.orderId A) [mkItem P 1] (unit_mass (catalog s) P)].
Proof.
  intros (Hnd & Hnone & (product & Hlook & Hmass) & HA & HpA & HndA & HneedA & Holder).
  assert (Hq0 : Product.quantityInStock product = 0).
  { specialize (Hnone P). unfold InventoryService.getAvailableStock in Hnone.
    by rewrite Hlook in Hnone. }
  unfold FulfillmentService.processRestock, InventoryService.processRestock.
  simpl foldl. unfold InventoryService.restock_item. simpl Req.product_id.
  rewrite Hlook, Hq0. simpl Req.quantity. change (0 + 1) with 1.
  set (product1 := InventoryService.set_stock product 1).
  set (s1 := with_catalog s (<[P := product1]> (catalog s))).
  unfold FulfillmentService.fulfillPendingOrders, OrderQueueService.getPendingOrders.
  change (orders s1) with (orders s).
  set (l := merge_sort OrderQueueService.created_le
              (filter OrderQueueService.is_pending (orders s))).
  pose proof (merge_sort_Permutation OrderQueueService.created_le
                (filter OrderQueueService.is_pending (orders s))) as Hperm.
  pose proof (StronglySorted_merge_sort OrderQueueService.created_le
                (filter OrderQueueService.is_pending (orders s))) as Hsorted.
  fold l in Hperm, Hsorted.
  assert (Hl : forall o, o ∈ l -> o ∈ orders s /\ OrderQueueService.is_pending o).
  { intros o Ho. rewrite Hperm in Ho. apply list_elem_of_filter in Ho. tauto. }
  assert (HAl : A ∈ l).
  { rewrite Hperm. apply list_elem_of_filter. by split. }
  assert (Hndl : NoDup l).
  { rewrite Hperm. eapply sublist_NoDup; [|apply sublist_filter].
    eapply NoDup_fmap_1. exact Hnd. }
  apply list_elem_of_split in HAl as (pre & post & Hsplit).
  rewrite Hsplit in Hndl, Hsorted.
  apply NoDup_app in Hndl as (_ & Hpre_fresh & _).
  assert (Hstock1 : forall id, id <> P ->
             InventoryService.getAvailableStock (catalog s1) id <= 0).
  { intros id Hne. simpl. rewrite getAvailableStock_insert.
    case_decide; [congruence|]. rewrite Hnone. lia. }
  assert (Hpre : FulfillmentService.attempt_each (S fuel) pre s1 = Some (s1, Ok tt)).
  { apply attempt_each_nothing. rewrite Forall_forall. intros o Ho.
    rewrite Forall_forall. intros line Hline. apply Hstock1. intros HP.
    assert (Hol : o ∈ l) by (rewrite Hsplit; apply elem_of_app; by left).
    destruct (Hl o Hol) as [Hin Hpend].
    assert (Hle : OrderQueueService.created_le o A).
    { eapply StronglySorted_app_1_elem_of; [exact Hsorted|exact Ho|by left]. }
    assert (HoA : o <> A).
    { intros ->. apply (Hpre_fresh A Ho). by left. }
    assert (Hneed : needs o P).
    { unfold needs. rewrite <- HP. apply list_elem_of_fmap. eauto. }
    specialize (Holder o Hin Hpend Hneed HoA).
    unfold OrderQueueService.created_le in Hle. lia. }
  rewrite Hsplit, (attempt_each_app _ _ _ _ _ Hpre). cbn [FulfillmentService.attempt_each].
  destruct (attemptFulfillment_one_unit fuel A s1 P product1) as (A' & Hrun & Hmore);
    auto.
  { simpl. apply lookup_insert_eq. }
  { simpl. by apply findOne_NoDup. }
  rewrite Hrun. pose proof Hmore as (HidA & _).
  set (s2 := mkState _ _ _ _).
  assert (Hnone2 : nothing_in_stock (catalog s2)).
  { intros id. simpl. rewrite !getAvailableStock_insert.
    case_decide; [done|apply Hnone]. }
  assert (Hpost : FulfillmentService.attempt_each (S fuel) post s2 = Some (s2, Ok tt)).
  { apply attempt_each_nothing. rewrite Forall_forall. intros o _.
    rewrite Forall_forall. intros line _. rewrite Hnone2. lia. }
  rewrite Hpost. exists s2, A'. split; [done|]. split; [|split; [exact Hmore|]].
  { simpl. rewrite <- HidA. apply findOne_save_same. }
  split; [exact Hnone2|]. split.
  - intros B HB HBA. simpl. rewrite findOne_save_other.
    + by apply findOne_NoDup.
    + rewrite HidA. intros E. apply HBA. by apply (same_row (orders s)).
  - simpl. unfold unit_mass. by rewrite Hlook.
Qed.

(** C7, amended.  [getPendingOrders] returns the orders whose status is
    Pending or PartiallyFulfilled, each once, sorted by creation timestamp
    ascending, and [fulfillPendingOrders] attempts them in that order.
    Consequently, in a ledger with one row per order identifier, when
    nothing is in stock and a restock brings one unit of a catalog product
    whose unit mass is between 0 and the ceiling, the unit is shipped to the
    open order that names each product in one line, needs the product and was
    created strictly before every other open order that needs it; the other
    orders are left as they were. *)
Theorem fifo_retry :
  (forall s, exists pendingOrders,
     OrderQueueService.getPendingOrders s = (s, Ok pendingOrders) /\
     pendingOrders ≡ₚ filter OrderQueueService.is_pending (orders s) /\
     (forall order,
        order ∈ pendingOrders <->
        order ∈ orders s /\
        (Order.status order = PENDING \/ Order.status order = PARTIALLY_FULFILLED)) /\
     StronglySorted (fun a b => Order.createdAt a <= Order.createdAt b) pendingOrders /\
     forall fuel,
       FulfillmentService.fulfillPendingOrders fuel s
       = FulfillmentService.attempt_each fuel pendingOrders s) /\
  (forall fuel s P A,
     oldest_in_need s P A ->
     exists s' A',
       FulfillmentService.processRestock (S fuel) [Req.mk P 1] s = Some (s', Ok tt) /\
       OrderQueueService.findOne (orders s') (Order.orderId A) = Some A' /\
       shipped_more A A' [mkItem P 1] /\
       nothing_in_stock (catalog s') /\
       (forall B, B ∈ orders s -> B <> A ->
                  OrderQueueService.findOne (orders s') (Order.orderId B) = Some B) /\
       shipments s'
       = shipments s
         ++ [Shipment.mk (Order.orderId A) [mkItem P 1] (unit_mass (catalog s) P)]).
Proof.
  split; [|apply restock_one_unit].
  intros s. eexists. split; [reflexivity|].
  pose proof (merge_sort_Permutation OrderQueueService.created_le
                (filter OrderQueueService.is_pending (orders s))) as Hperm.
  split; [exact Hperm|]. split; [|split].
  - intros order. rewrite Hperm, list_elem_of_filter.
    unfold OrderQueueService.is_pending. tauto.
  - apply (StronglySorted_merge_sort OrderQueueService.created_le).
  - reflexivity.
Qed.

(** Scenario 4 on [state_fifo]: the unit goes to the older order although it
    is the second row. *)
Example scenario4 :
  FulfillmentService.processRestock 1 [Req.mk 0 1] state_fifo
  = Some (mkState {[ 0 := Product.mk 0 "RBC A+ Adult" 700 0 ]} true
            [order_B; Order.mk 1 [mkItem 0 1] [mkItem 0 1] FULFILLED 1 10]
            [Shipment.mk 1 [mkItem 0 1] 700],
          Ok tt).
Proof. vm_compute. reflexivity. Qed.

Lemma fifo_retry_witness :
  exists s' A',
    FulfillmentService.processRestock 1 [Req.mk 0 1] state_fifo = Some (s', Ok tt) /\
    OrderQueueService.findOne (orders s') (Order.orderId order_A) = Some A' /\
    shipped_more order_A A' [mkItem 0 1] /\
    nothing_in_stock (catalog s') /\
    (forall B, B ∈ orders state_fifo -> B <> order_A ->
               OrderQueueService.findOne (orders s') (Order.orderId B) = Some B) /\
    shipments s'
    = shipments state_fifo
      ++ [Shipment.mk (Order.orderId order_A) [mkItem 0 1]
            (unit_mass (catalog state_fifo) 0)].
Proof.
  apply (proj2 fifo_retry 0%nat state_fifo 0 order_A).
  split; [|split; [|split; [|split; [|split; [|split; [|split]]]]]].
  - simpl. apply NoDup_cons. split; [|apply NoDup_singleton].
    intros H. apply list_elem_of_singleton in H. discriminate.
  - intros id. unfold InventoryService.getAvailableStock. simpl.
    rewrite lookup_singleton. by case_decide.
  - eexists. split; [reflexivity|]. simpl. unfold FulfillmentService.MAX_PACKAGE_WEIGHT_G.
    lia.
  - right. left.
  - by left.
  - simpl. apply NoDup_singleton.
  - unfold needs. vm_compute. left.
  - intros B HB _ _ HBA. apply elem_of_cons in HB as [->|HB]; [simpl; lia|].
    apply list_elem_of_singleton in HB. congruence.
Defined.

Lemma served_state_two_lines : served initial_state state_two_lines.
Proof.
  eapply (served_step _ _ _ (PostProcessOrder 20 2 [Req.mk 0 1]) 10%nat 200).
  - eapply (served_step _ _ _ (PostProcessOrder 10 1 [Req.mk 0 1; Req.mk 0 1]) 10%nat 200).
    + eapply (served_step _ _ _ (PostInitCatalog [product0]) 0%nat 200).
      * apply served_refl.
      * reflexivity.
    + vm_compute. reflexivity.
  - vm_compute. reflexivity.
Qed.

Lemma served_state_blocked : served initial_state state_blocked.
Proof.
  eapply (served_step _ _ _ (PostProcessRestock [Req.mk 1 3]) 10%nat 500).
  - eapply (served_step _ _ _ (PostProcessOrder 20 2 [Req.mk 0 1]) 10%nat 200).
    + eapply (served_step _ _ _ (PostProcessOrder 10 1 [Req.mk 0 1]) 10%nat 200).
      * eapply (served_step _ _ _ (PostProcessOrder 5 3 [Req.mk 1 2; Req.mk 1 2])
                  10%nat 200).
        -- eapply (served_step _ _ _
                     (PostInitCatalog [product0; Info.mk 1 "PLT AB+" 80]) 0%nat 200).
           ++ apply served_refl.
           ++ reflexivity.
        -- vm_compute. reflexivity.
      * vm_compute. reflexivity.
    + vm_compute. reflexivity.
  - vm_compute. reflexivity.
Qed.

Lemma served_state_heavy : served initial_state state_heavy.
Proof.
  eapply (served_step _ _ _ (PostProcessOrder 20 2 [Req.mk 0 1]) 10%nat 200).
  - eapply (served_step _ _ _ (PostProcessOrder 10 1 [Req.mk 0 1]) 10%nat 200).
    + eapply (served_step _ _ _ (PostInitCatalog [Info.mk 0 "RBC A+ Adult" 2000])
                0%nat 200).
      * apply served_refl.
      * reflexivity.
    + vm_compute. reflexivity.
  - vm_compute. reflexivity.
Qed.

Lemma served_state_negative : served initial_state state_negative.
Proof.
  eapply (served_step _ _ _ (PostProcessOrder 20 2 [Req.mk 0 1]) 10%nat 200).
  - eapply (served_step _ _ _ (PostProcessOrder 10 1 [Req.mk 0 1]) 10%nat 200).
    + eapply (served_step _ _ _ (PostInitCatalog [Info.mk 0 "RBC A+ Adult" (-5)])
                0%nat 200).
      * apply served_refl.
      * reflexivity.
    + vm_compute. reflexivity.
  - vm_compute. reflexivity.
Qed.

(** C7, as stated, fails in its last part.  In each of four states that
    the HTTP interface reaches from the fresh process, order 1 was created
    before order 2, both are open and need one unit of product 0, which is
    out of stock, and the unit that a restock brings is not allocated to
    order 1 (nor to any order: no shipment is recorded and the unit stays in
    stock).
    - Order 1 has its unit in two lines of the product: each line finds the
      unit in stock, two units are packed, and the reservation throws.
    - An older open order for another product, which is in stock, throws in
      the same way; the pass ends there and order 1 is not attempted.
    - The product is heavier than a package: the packer leaves it out.
    - The unit mass of the product is negative: the packer does not end. *)
Lemma restocked_unit_not_allocated :
  (served initial_state state_two_lines /\
   FulfillmentService.processRestock 10 [Req.mk 0 1] state_two_lines
   = Some (mkState {[ 0 := Product.mk 0 "RBC A+ Adult" 700 1 ]} true
             [order_A2; order_B] [],
           Throw (InsufficientStock 0 1 2))) /\
  (served initial_state state_blocked /\
   FulfillmentService.processRestock 10 [Req.mk 0 1] state_blocked
   = Some (mkState (<[1 := Product.mk 1 "PLT AB+" 80 3]>
                      {[ 0 := Product.mk 0 "RBC A+ Adult" 700 1 ]}) true
             [order_C; order_A; order_B] [],
           Throw (InsufficientStock 1 3 4))) /\
  (served initial_state state_heavy /\
   FulfillmentService.processRestock 10 [Req.mk 0 1] state_heavy
   = Some (mkState {[ 0 := Product.mk 0 "RBC A+ Adult" 2000 1 ]} true
             [order_A; order_B] [],
           Ok tt)) /\
  (served initial_state state_negative /\
   forall fuel,
     FulfillmentService.processRestock fuel [Req.mk 0 1] state_negative = None).
Proof.
  split; [split; [exact served_state_two_lines|vm_compute; reflexivity]|].
  split; [split; [exact served_state_blocked|vm_compute; reflexivity]|].
  split; [split; [exact served_state_heavy|vm_compute; reflexivity]|].
  split; [exact served_state_negative|]. intros fuel.
  unfold FulfillmentService.processRestock.
  replace (InventoryService.processRestock [Req.mk 0 1] state_negative)
    with (mkState {[ 0 := Product.mk 0 "RBC A+ Adult" (-5) 1 ]} true
            [order_A; order_B] [], @Ok unit tt) by (vm_compute; reflexivity).
  unfold FulfillmentService.fulfillPendingOrders.
  replace (OrderQueueService.getPendingOrders _)
    with (mkState {[ 0 := Product.mk 0 "RBC A+ Adult" (-5) 1 ]} true
            [order_A; order_B] [], Ok [order_A; order_B]) by (vm_compute; reflexivity).
  cbn [FulfillmentService.attempt_each]. unfold FulfillmentService.attemptFulfillment.
  replace (OrderQueueService.getRemainingItems order_A) with [mkItem 0 1]
    by (vm_compute; reflexivity).
  replace (FulfillmentService.getShippableItems _ [mkItem 0 1]) with [mkItem 0 1]
    by (vm_compute; reflexivity).
  cbn [FulfillmentService.is_empty].
  by rewrite (packShipment_negative_mass fuel _ 0 (Product.mk 0 "RBC A+ Adult" (-5) 1)).
Qed.

(** * Further properties of the services *)

(** ** The order ledger *)

Lemma remaining_of_nil shipped requested :
  forallb (fun requestedItem =>
             negb (OrderQueueService.shippedQuantity shipped (productId requestedItem)
                   <? quantity requestedItem)) requested = true
  <-> OrderQueueService.remaining_of shipped requested = [].
Proof.
  induction requested as [|x l IH]; simpl; [done|].
  destruct (Z.ltb_spec (OrderQueueService.shippedQuantity shipped (productId x))
              (quantity x));
    destruct (Z.gtb_spec (quantity x
                          - OrderQueueService.shippedQuantity shipped (productId x)) 0);
    simpl; try lia; [split; discriminate|exact IH].
Qed.

(** [isOrderFulfilled] and [getRemainingItems] agree: an order counts as
    fulfilled exactly when nothing remains to be shipped for it. *)
Theorem fulfilled_iff_nothing_remaining order :
  OrderQueueService.isOrderFulfilled order = true
  <-> OrderQueueService.getRemainingItems order = [].
Proof. apply remaining_of_nil. Qed.

(** [updateOrderShipment] on an order that is not in the ledger throws and
    changes nothing; on an order of the ledger it saves the order with one
    more shipment counted, the shipped quantity of every product increased
    by the quantity of the shipped items for it, and the status FULFILLED if
    nothing remains, PARTIALLY_FULFILLED otherwise. *)
Theorem updateOrderShipment_result orderId shippedItems s :
  match OrderQueueService.findOne (orders s) orderId with
  | None =>
      OrderQueueService.updateOrderShipment orderId shippedItems s
      = (s, Throw (OrderNotFound orderId))
  | Some order =>
      exists updated,
        OrderQueueService.updateOrderShipment orderId shippedItems s
        = (with_orders s (OrderQueueService.save (orders s) updated), Ok updated) /\
        Order.orderId updated = Order.orderId order /\
        Order.requestedItems updated = Order.requestedItems order /\
        Order.createdAt updated = Order.createdAt order /\
        Order.totalShipments updated = Order.totalShipments order + 1 /\
        (forall id,
           OrderQueueService.shippedQuantity (Order.shippedItems updated) id
           = OrderQueueService.shippedQuantity (Order.shippedItems order) id
             + quantity_of id shippedItems) /\
        (Order.status updated = FULFILLED
         <-> OrderQueueService.getRemainingItems updated = []) /\
        (Order.status updated = PARTIALLY_FULFILLED
         <-> OrderQueueService.getRemainingItems updated <> [])
  end.
Proof.
  unfold OrderQueueService.updateOrderShipment.
  destruct (OrderQueueService.findOne (orders s) orderId) as [order|]; [|done].
  set (shipped := foldl merge_item (Order.shippedItems order) shippedItems).
  set (counted := Order.mk _ _ shipped (Order.status order) _ _).
  assert (Hiff : OrderQueueService.isOrderFulfilled counted = true
                 <-> OrderQueueService.remaining_of shipped (Order.requestedItems order)
                     = []) by apply remaining_of_nil.
  eexists. split; [reflexivity|].
  unfold OrderQueueService.getRemainingItems. simpl.
  split; [done|]. split; [done|]. split; [done|]. split; [done|].
  split; [apply shippedQuantity_foldl_merge|].
  destruct (OrderQueueService.isOrderFulfilled counted).
  - split; split.
    + intros _. by apply Hiff.
    + done.
    + discriminate.
    + intros H. exfalso. apply H. by apply Hiff.
  - split; split.
    + discriminate.
    + intros H. apply Hiff in H. discriminate.
    + intros _ Hnil. apply Hiff in Hnil. discriminate.
    + done.
Qed.

(** ** The catalog *)

Lemma quantity_of_cons id x l :
  quantity_of id (x :: l)
  = (if productId x =? id then quantity x else 0) + quantity_of id l.
Proof. unfold quantity_of. simpl. destruct (_ =? _); lia. Qed.

Lemma quantity_of_absent id items :
  id ∉ map productId items -> quantity_of id items = 0.
Proof.
  induction items as [|x l IH]; [done|]. rewrite quantity_of_cons. simpl.
  intros H. apply not_elem_of_cons in H as [Hx Hl].
  destruct (Z.eqb_spec (productId x) id); [congruence|]. rewrite IH; [lia|done].
Qed.

Lemma quantity_of_nonnegative id items :
  Forall (fun it => 0 <= quantity it) items -> 0 <= quantity_of id items.
Proof.
  induction 1 as [|x l Hx _ IH]; [done|]. rewrite quantity_of_cons.
  destruct (_ =? _); lia.
Qed.

Lemma set_stock_same product :
  InventoryService.set_stock product (Product.quantityInStock product) = product.
Proof. by destruct product. Qed.

Lemma restock_lookup restock cat id :
  foldl InventoryService.restock_item cat restock !! id
  = (fun product =>
       InventoryService.set_stock product
         (Product.quantityInStock product
          + quantity_of id (OrderQueueService.to_items restock))) <$> cat !! id.
Proof.
  unfold OrderQueueService.to_items.
  revert cat. induction restock as [|line l IH]; intros cat; cbn [foldl map].
  - destruct (cat !! id) as [product|]; simpl; [|done].
    f_equal. unfold quantity_of. simpl. rewrite Z.add_0_r. by rewrite set_stock_same.
  - rewrite IH, quantity_of_cons. simpl. unfold InventoryService.restock_item.
    destruct (cat !! Req.product_id line) as [product|] eqn:E.
    + rewrite lookup_insert. case_decide as Hid.
      * subst id. rewrite E, Z.eqb_refl. simpl. f_equal.
        unfold InventoryService.set_stock. simpl. f_equal. lia.
      * by destruct (Z.eqb_spec (Req.product_id line) id).
    + destruct (Z.eqb_spec (Req.product_id line) id) as [<-|]; [by rewrite E|done].
Qed.

(** [processRestock] never throws.  It adds to the stock of every product
    of the catalog the quantities of all the restock lines that name it, and
    leaves names and masses as they were; lines that name a product that is
    not in the catalog are skipped, and no product is added. *)
Theorem processRestock_adds restock s :
  exists cat',
    InventoryService.processRestock restock s = (with_catalog s cat', Ok tt) /\
    forall id,
      cat' !! id
      = (fun product =>
           InventoryService.set_stock product
             (Product.quantityInStock product
              + quantity_of id (OrderQueueService.to_items restock)))
        <$> catalog s !! id.
Proof. eexists. split; [reflexivity|]. apply restock_lookup. Qed.

Lemma reserve_loop_lookup items cat cat' id :
  InventoryService.reserve_loop cat items = (cat', Ok tt) ->
  cat' !! id
  = (fun product =>
       InventoryService.set_stock product
         (Product.quantityInStock product - quantity_of id items)) <$> cat !! id.
Proof.
  revert cat. induction items as [|it items IH]; intros cat;
    cbn [InventoryService.reserve_loop].
  - intros [= <-]. destruct (cat !! id) as [product|]; simpl; [|done].
    f_equal. unfold quantity_of. simpl. rewrite Z.sub_0_r. by rewrite set_stock_same.
  - destruct (cat !! productId it) as [product|] eqn:E; [|discriminate].
    destruct (_ <? _); [discriminate|]. intros Hrun.
    rewrite (IH _ Hrun), quantity_of_cons, lookup_insert. case_decide as Hid.
    + subst id. rewrite E, Z.eqb_refl. simpl. f_equal.
      unfold InventoryService.set_stock. simpl. f_equal. lia.
    + by destruct (Z.eqb_spec (productId it) id).
Qed.

Lemma getAvailableStock_insert_same cat id product :
  InventoryService.getAvailableStock (<[id := product]> cat) id
  = Product.quantityInStock product.
Proof. unfold InventoryService.getAvailableStock. by rewrite lookup_insert, decide_True. Qed.

Lemma getAvailableStock_insert_other cat id id' product :
  id <> id' ->
  InventoryService.getAvailableStock (<[id := product]> cat) id'
  = InventoryService.getAvailableStock cat id'.
Proof.
  intros H. unfold InventoryService.getAvailableStock.
  by rewrite lookup_insert, decide_False.
Qed.

Lemma reserve_loop_ok_iff items cat :
  Forall (fun it => 0 <= quantity it) items ->
  (InventoryService.reserve_loop cat items).2 = Ok tt <-> reservable cat items.
Proof.
  intros Hall. revert cat. induction Hall as [|it items Hq Hall IH]; intros cat; simpl.
  - split; [|done]. intros _ id Hin. by apply elem_of_nil in Hin.
  - pose proof (quantity_of_nonnegative (productId it) items Hall) as Hrest.
    destruct (cat !! productId it) as [product|] eqn:E.
    2:{ split; [discriminate|]. intros H.
        destruct (H (productId it) ltac:(simpl; left)) as [[? Hsome] _]. congruence. }
    destruct (Z.ltb_spec (Product.quantityInStock product) (quantity it)) as [Hlt|Hge].
    { split; [discriminate|]. intros H.
      destruct (H (productId it) ltac:(simpl; left)) as [_ Hle].
      rewrite quantity_of_cons, Z.eqb_refl in Hle.
      unfold InventoryService.getAvailableStock in Hle. rewrite E in Hle. lia. }
    rewrite IH. split.
    + intros H id Hin. rewrite quantity_of_cons.
      destruct (Z.eqb_spec (productId it) id) as [<-|Hne].
      * split; [by rewrite E|].
        unfold InventoryService.getAvailableStock at 1. rewrite E.
        destruct (decide (productId it ∈ map productId items)) as [Hin'|Hnot].
        -- destruct (H _ Hin') as [_ Hle].
           rewrite getAvailableStock_insert_same in Hle. simpl in Hle. lia.
        -- rewrite (quantity_of_absent _ _ Hnot). lia.
      * simpl in Hin. apply elem_of_cons in Hin as [->|Hin]; [done|].
        destruct (H _ Hin) as [Hsome Hle].
        rewrite lookup_insert, decide_False in Hsome by done.
        rewrite getAvailableStock_insert_other in Hle by done. split; [done|lia].
    + intros H id Hin.
      destruct (H id ltac:(simpl; by right)) as [Hsome Hle].
      rewrite quantity_of_cons in Hle.
      destruct (Z.eqb_spec (productId it) id) as [<-|Hne].
      * split; [by rewrite lookup_insert, decide_True|].
        rewrite getAvailableStock_insert_same. simpl.
        unfold InventoryService.getAvailableStock in Hle. rewrite E in Hle. lia.
      * rewrite lookup_insert, decide_False by done.
        rewrite getAvailableStock_insert_other by done. split; [done|lia].
Qed.

(** For items whose quantities are not negative, [reserveStock] succeeds
    exactly when every product named is in the catalog and its lines
    together ask for no more than is in stock; when it succeeds, the stock of
    every product is decreased by the quantities of all the lines that name
    it, and nothing else changes. *)
Theorem reserveStock_succeeds_iff items s :
  Forall (fun it => 0 <= quantity it) items ->
  ((InventoryService.reserveStock items s).2 = Ok tt <-> reservable (catalog s) items) /\
  ((InventoryService.reserveStock items s).2 = Ok tt ->
   exists cat',
     (InventoryService.reserveStock items s).1 = with_catalog s cat' /\
     forall id,
       cat' !! id
       = (fun product =>
            InventoryService.set_stock product
              (Product.quantityInStock product - quantity_of id items))
         <$> catalog s !! id).
Proof.
  intros Hall. unfold InventoryService.reserveStock.
  pose proof (reserve_loop_ok_iff items (catalog s) Hall) as Hiff.
  destruct (InventoryService.reserve_loop (catalog s) items) as [cat' r] eqn:E.
  simpl in *. split; [exact Hiff|].
  intros ->. exists cat'. split; [done|]. intros id. by apply reserve_loop_lookup.
Qed.

Lemma reserveStock_succeeds_iff_witness :
  ((InventoryService.reserveStock [mkItem 0 2; mkItem 1 5; mkItem 0 1]
      state_short).2 = Ok tt
   <-> reservable (catalog state_short) [mkItem 0 2; mkItem 1 5; mkItem 0 1]) /\
  ((InventoryService.reserveStock [mkItem 0 2; mkItem 1 5; mkItem 0 1]
      state_short).2 = Ok tt ->
   exists cat',
     (InventoryService.reserveStock [mkItem 0 2; mkItem 1 5; mkItem 0 1] state_short).1
     = with_catalog state_short cat' /\
     forall id,
       cat' !! id
       = (fun product =>
            InventoryService.set_stock product
              (Product.quantityInStock product
               - quantity_of id [mkItem 0 2; mkItem 1 5; mkItem 0 1]))
         <$> catalog state_short !! id).
Proof.
  apply (reserveStock_succeeds_iff [mkItem 0 2; mkItem 1 5; mkItem 0 1] state_short).
  repeat constructor; simpl; lia.
Defined.

Lemma hasStock_insert_absent cat id product items :
  id ∉ map productId items ->
  InventoryService.hasStock (<[id := product]> cat) items
  = InventoryService.hasStock cat items.
Proof.
  induction items as [|it items IH]; simpl; [done|].
  intros H. apply not_elem_of_cons in H as [Hne Hrest].
  rewrite lookup_insert, decide_False by done.
  destruct (cat !! productId it); [|done]. destruct (_ <? _); [done|]. by apply IH.
Qed.

(** For items that name each product once, [hasStock] answers whether
    [reserveStock] would succeed. *)
Theorem hasStock_iff_reserveStock_succeeds items s :
  NoDup (map productId items) ->
  InventoryService.hasStock (catalog s) items = true
  <-> (InventoryService.reserveStock items s).2 = Ok tt.
Proof.
  intros Hnd. unfold InventoryService.reserveStock.
  assert (H : forall cat,
             InventoryService.hasStock cat items = true
             <-> (InventoryService.reserve_loop cat items).2 = Ok tt).
  { induction items as [|it items IH]; intros cat; simpl; [done|].
    apply NoDup_cons in Hnd as [Hfresh Hnd].
    destruct (cat !! productId it) as [product|]; [|done].
    destruct (_ <? _); [done|].
    rewrite <- (IH Hnd). by rewrite hasStock_insert_absent. }
  specialize (H (catalog s)).
  by destruct (InventoryService.reserve_loop (catalog s) items).
Qed.

Lemma hasStock_iff_reserveStock_succeeds_witness :
  InventoryService.hasStock (catalog state_short) [mkItem 1 5; mkItem 0 1] = true
  <-> (InventoryService.reserveStock [mkItem 1 5; mkItem 0 1] state_short).2 = Ok tt.
Proof.
  apply (hasStock_iff_reserveStock_succeeds [mkItem 1 5; mkItem 0 1] state_short).
  apply (bool_decide_unpack _). vm_compute. reflexivity.
Defined.

(** Two lines of one unit of a product with one unit in stock: [hasStock]
    looks at each line on its own and says yes, [reserveStock] throws. *)
Example hasStock_line_by_line :
  InventoryService.hasStock (catalog state_short) [mkItem 0 1; mkItem 0 1] = true /\
  (InventoryService.reserveStock [mkItem 0 1; mkItem 0 1] state_short).2
  = Throw (InsufficientStock 0 0 1).
Proof. split; reflexivity. Qed.

Lemma init_products_lookup productInfo cat id :
  foldl InventoryService.init_product cat productInfo !! id
  = match List.find (fun info => Info.product_id info =? id) (rev productInfo) with
    | Some info =>
        Some (Product.mk (Info.product_id info) (Info.product_name info)
                (Info.mass_g info) 0)
    | None => cat !! id
    end.
Proof.
  induction productInfo as [|info l IH] using rev_ind; [done|].
  rewrite foldl_app, rev_app_distr. simpl. unfold InventoryService.init_product at 1.
  rewrite lookup_insert.
  destruct (Z.eqb_spec (Info.product_id info) id).
  - by rewrite decide_True.
  - by rewrite decide_False.
Qed.

(** [initCatalog] on a catalog that is not initialized succeeds whatever
    the catalog held: afterwards the products are those of the descriptors,
    each with no stock and with the name and the mass of the last descriptor
    for its identifier, and [getProductStock] finds no other product. *)
Theorem initCatalog_products productInfo s :
  isInitialized s = false ->
  exists cat',
    InventoryService.initCatalog productInfo s
    = (mkState cat' true (orders s) (shipments s), Ok tt) /\
    forall id,
      InventoryService.getProductStock cat' id
      = match List.find (fun info => Info.product_id info =? id) (rev productInfo) with
        | Some info => Some (StockRow.mk id (Info.product_name info) 0 (Info.mass_g info))
        | None => None
        end.
Proof.
  intros Hinit. unfold InventoryService.initCatalog. rewrite Hinit.
  eexists. split; [reflexivity|]. intros id.
  unfold InventoryService.getProductStock. rewrite init_products_lookup.
  destruct (List.find _ _) as [info|] eqn:E; [|by rewrite lookup_empty].
  destruct (find_some _ _ E) as [_ Hid]. apply Z.eqb_eq in Hid. by rewrite <- Hid.
Qed.

Lemma initCatalog_products_witness :
  exists cat',
    InventoryService.initCatalog [product0; Info.mk 1 "PLT AB+" 80; Info.mk 0 "RBC" 650]
      initial_state
    = (mkState cat' true (orders initial_state) (shipments initial_state), Ok tt) /\
    forall id,
      InventoryService.getProductStock cat' id
      = match List.find (fun info => Info.product_id info =? id)
                (rev [product0; Info.mk 1 "PLT AB+" 80; Info.mk 0 "RBC" 650]) with
        | Some info => Some (StockRow.mk id (Info.product_name info) 0 (Info.mass_g info))
        | None => None
        end.
Proof.
  apply (initCatalog_products [product0; Info.mk 1 "PLT AB+" 80; Info.mk 0 "RBC" 650]
           initial_state).
  reflexivity.
Defined.

(** A property of the catalog that initialization and a change of stock
    keep is kept by every operation. *)
Lemma exec_catalog_invariant (C : gmap Z Product.t -> Prop) fuel op s s' r :
  C ∅ ->
  (forall cat info, C cat -> C (InventoryService.init_product cat info)) ->
  (forall cat id product q,
     C cat -> cat !! id = Some product ->
     C (<[id := InventoryService.set_stock product q]> cat)) ->
  C (catalog s) -> exec fuel op s = Some (s', r) -> C (catalog s').
Proof.
  intros Hempty Hinit Hset Hs.
  assert (Hreserve : forall items,
             preserves (fun s => C (catalog s)) (InventoryService.reserveStock items)).
  { intros items s0 H0. unfold InventoryService.reserveStock.
    assert (H : forall cat, C cat -> C (InventoryService.reserve_loop cat items).1).
    { induction items as [|it items IH]; intros cat Hc; simpl; [exact Hc|].
      destruct (cat !! productId it) as [product|] eqn:E; [|exact Hc].
      destruct (_ <? _); [exact Hc|]. apply IH. by apply Hset. }
    specialize (H (catalog s0) H0).
    by destruct (InventoryService.reserve_loop (catalog s0) items). }
  destruct op as [productInfo| |items|now order_id requested|restock
                 |now orderId requestedItems|orderId shippedItems]; simpl.
  - intros ->%lift_state. unfold InventoryService.initCatalog.
    destruct (isInitialized s); [exact Hs|]. simpl.
    generalize (∅ : gmap Z Product.t) Hempty.
    induction productInfo as [|info l IH]; intros cat Hc; simpl; auto.
  - by intros ->%lift_state.
  - intros ->%lift_state. by apply Hreserve.
  - apply (processOrder_keeps (fun s => C (catalog s))); auto.
  - unfold FulfillmentService.processRestock. simpl.
    apply (fulfillPendingOrders_keeps (fun s => C (catalog s))); auto. simpl.
    revert Hs. generalize (catalog s).
    induction restock as [|line l IH]; intros cat Hc; simpl; [exact Hc|].
    apply IH. unfold InventoryService.restock_item.
    destruct (cat !! Req.product_id line) as [product|] eqn:E; [|exact Hc].
    by apply Hset.
  - intros ->%lift_state. exact Hs.
  - intros ->%lift_state.
    by apply (preserves_updateOrderShipment (fun s => C (catalog s))).
Qed.

Lemma reach_keyed s : reach any_operation initial_state s -> keyed (catalog s).
Proof.
  induction 1 as [|s' s'' op fuel r _ IH _ Hexec].
  - intros id product. simpl. by rewrite lookup_empty.
  - revert Hexec. apply (exec_catalog_invariant keyed); [| | |exact IH].
    + intros id product. by rewrite lookup_empty.
    + intros cat info Hc id product. unfold InventoryService.init_product.
      rewrite lookup_insert. case_decide; [|apply Hc]. by intros [= <-].
    + intros cat id product q Hc E id' product'.
      rewrite lookup_insert. case_decide; [|apply Hc]. intros [= <-]. simpl.
      subst id'. by apply Hc.
Qed.

Lemma insert_by_productId_Permutation row l :
  InventoryService.insert_by_productId row l ≡ₚ row :: l.
Proof.
  induction l as [|y l IH]; simpl; [done|].
  destruct (_ <? _); [|done]. rewrite IH. apply Permutation_swap.
Qed.

Lemma sort_by_productId_Permutation l : InventoryService.sort_by_productId l ≡ₚ l.
Proof.
  induction l as [|x l IH]; simpl; [done|].
  rewrite insert_by_productId_Permutation. by rewrite IH.
Qed.

Lemma insert_by_productId_sorted row l :
  StockRow.productId row ∉ map StockRow.productId l ->
  StronglySorted row_lt l ->
  StronglySorted row_lt (InventoryService.insert_by_productId row l).
Proof.
  induction l as [|y l IH]; simpl; intros Hfresh Hsorted.
  - repeat constructor.
  - apply not_elem_of_cons in Hfresh as [Hne Hfresh].
    apply StronglySorted_inv in Hsorted as [Hl Hy].
    destruct (Z.ltb_spec (StockRow.productId y) (StockRow.productId row)).
    + constructor; [by apply IH|].
      rewrite insert_by_productId_Permutation. by constructor.
    + constructor; [by constructor|]. constructor; [unfold row_lt; lia|].
      eapply Forall_impl; [exact Hy|]. unfold row_lt. intros z. lia.
Qed.

Lemma sort_by_productId_sorted l :
  NoDup (map StockRow.productId l) ->
  StronglySorted row_lt (InventoryService.sort_by_productId l).
Proof.
  induction l as [|x l IH]; simpl; intros Hnd; [constructor|].
  apply NoDup_cons in Hnd as [Hfresh Hnd].
  apply insert_by_productId_sorted; [|by apply IH].
  by rewrite sort_by_productId_Permutation.
Qed.

Global Instance row_lt_antisymm : AntiSymm (=) row_lt.
Proof. intros a b. unfold row_lt. lia. Qed.

Lemma keyed_products_NoDup cat :
  keyed cat ->
  NoDup (map StockRow.productId
           (map InventoryService.stock_row (InventoryService.getAllProducts cat))).
Proof.
  intros Hkeyed. unfold InventoryService.getAllProducts.
  replace (map StockRow.productId (map InventoryService.stock_row (map_to_list cat).*2))
    with (map_to_list cat).*1; [apply NoDup_fst_map_to_list|].
  assert (H : Forall (fun kv => Product.productId kv.2 = kv.1) (map_to_list cat)).
  { rewrite Forall_forall. intros [k product] Hin. simpl.
    apply Hkeyed. by apply elem_of_map_to_list. }
  induction H as [|kv l Hkv _ IH]; [done|].
  rewrite !fmap_cons. f_equal; [symmetry; exact Hkv|exact IH].
Qed.

(** In every state reached from the fresh process, the stock report has one
    row for each product of the catalog, in strictly ascending order of
    product identifier, whatever the order in which the catalog map iterates
    over its products. *)
Theorem stock_report_any_iteration_order s products :
  reach any_operation initial_state s ->
  products ≡ₚ InventoryService.getAllProducts (catalog s) ->
  InventoryService.stock_report products = InventoryService.getAllStock (catalog s) /\
  StronglySorted row_lt (InventoryService.getAllStock (catalog s)) /\
  forall row,
    row ∈ InventoryService.getAllStock (catalog s)
    <-> InventoryService.getProductStock (catalog s) (StockRow.productId row) = Some row.
Proof.
  intros Hreach Hperm. pose proof (reach_keyed s Hreach) as Hkeyed.
  pose proof (keyed_products_NoDup _ Hkeyed) as Hnd.
  assert (Hsorted : StronglySorted row_lt (InventoryService.getAllStock (catalog s))).
  { by apply sort_by_productId_sorted. }
  split; [|split; [exact Hsorted|]].
  - apply (StronglySorted_unique row_lt); [|exact Hsorted|].
    + apply sort_by_productId_sorted. by rewrite Hperm.
    + unfold InventoryService.getAllStock, InventoryService.stock_report.
      rewrite !sort_by_productId_Permutation. by rewrite Hperm.
  - intros row. unfold InventoryService.getAllStock, InventoryService.stock_report.
    rewrite sort_by_productId_Permutation.
    unfold InventoryService.getAllProducts, InventoryService.getProductStock.
    rewrite list_elem_of_fmap. split.
    + intros (product & -> & Hin). apply list_elem_of_fmap in Hin as ([k p] & -> & Hin).
      apply elem_of_map_to_list in Hin. simpl.
      rewrite (Hkeyed _ _ Hin). by rewrite Hin.
    + destruct (catalog s !! StockRow.productId row) as [product|] eqn:E; [|done].
      intros [= <-]. exists product. split; [done|].
      apply list_elem_of_fmap. exists (StockRow.productId (InventoryService.stock_row product), product).
      split; [done|]. by apply elem_of_map_to_list.
Qed.

Lemma reach_scenario9 : reach any_operation initial_state scenario9_state.
Proof.
  eapply (reach_step _ _ _ _ (OpProcessOrder 1 1 [Req.mk 0 2]) 10%nat (Ok tt)).
  - eapply (reach_step _ _ _ _ (OpProcessRestock [Req.mk 0 5]) 10%nat (Ok tt)).
    + eapply (reach_step _ _ _ _ (OpInitCatalog [product0]) 0%nat (Ok tt)).
      * apply reach_refl.
      * exact I.
      * reflexivity.
    + exact I.
    + reflexivity.
  - exact I.
  - vm_compute. reflexivity.
Defined.

Lemma reach_state_three : reach any_operation initial_state state_three.
Proof.
  eapply (reach_step _ _ _ _ (OpProcessRestock [Req.mk 2 4; Req.mk 0 1]) 10%nat (Ok tt)).
  - eapply (reach_step _ _ _ _
              (OpInitCatalog [Info.mk 2 "FFP" 300; product0; Info.mk 1 "PLT AB+" 80])
              0%nat (Ok tt)).
    + apply reach_refl.
    + exact I.
    + reflexivity.
  - exact I.
  - vm_compute. reflexivity.
Defined.

(** Three products listed with the identifiers 2, 0, 1: the report has
    them as 0, 1, 2. *)
Lemma stock_report_any_iteration_order_witness :
  InventoryService.stock_report
    [Product.mk 2 "FFP" 300 4; Product.mk 0 "RBC A+ Adult" 700 1;
     Product.mk 1 "PLT AB+" 80 0]
  = InventoryService.getAllStock (catalog state_three) /\
  StronglySorted row_lt (InventoryService.getAllStock (catalog state_three)) /\
  forall row,
    row ∈ InventoryService.getAllStock (catalog state_three)
    <-> InventoryService.getProductStock (catalog state_three) (StockRow.productId row)
        = Some row.
Proof.
  apply (stock_report_any_iteration_order state_three).
  - exact reach_state_three.
  - replace (InventoryService.getAllProducts (catalog state_three))
      with [Product.mk 2 "FFP" 300 4; Product.mk 1 "PLT AB+" 80 0;
            Product.mk 0 "RBC A+ Adult" 700 1] by (vm_compute; reflexivity).
    apply perm_skip, perm_swap.
Defined.

Example stock_report_three :
  InventoryService.getAllStock (catalog state_three)
  = [StockRow.mk 0 "RBC A+ Adult" 1 700; StockRow.mk 1 "PLT AB+" 0 80;
     StockRow.mk 2 "FFP" 4 300].
Proof. vm_compute. reflexivity. Qed.

Example stock_report_mixed :
  InventoryService.getAllStock catalog_mixed
  = [StockRow.mk 0 "RBC A+ Adult" 0 700; StockRow.mk 1 "PLT AB+" 0 80].
Proof. vm_compute. reflexivity. Qed.

(** ** The packages of the greedy first-fit strategy *)

Section PackShape.
Variable cat : gmap Z Product.t.
Variable maxWeightG : Z.
Variable Q : list Item -> Prop.

Lemma try_existing_shape id unitW remainingQuantity shipments shipments' unitsToAdd :
  (forall package units, Q package -> Q (merge_item package (mkItem id units))) ->
  Forall Q shipments ->
  try_existing cat maxWeightG id unitW remainingQuantity shipments
  = Some (shipments', unitsToAdd) ->
  Forall Q shipments'.
Proof.
  intros Hmerge Hall. revert shipments' unitsToAdd.
  induction Hall as [|shipment rest Hq Hrest IH]; intros shipments' unitsToAdd; simpl;
    [discriminate|].
  destruct (positive _) as [units|].
  - intros [= <- _]. constructor; auto.
  - destruct (try_existing cat maxWeightG id unitW remainingQuantity rest)
      as [[rest' added]|]; [|discriminate].
    intros [= <- _]. constructor; eauto.
Qed.

Lemma pack_item_shape fuel id unitW shipments remainingQuantity out :
  (is_zero (floor_div maxWeightG unitW) = false ->
   (forall units, Q [mkItem id units]) /\
   (forall package units, Q package -> Q (merge_item package (mkItem id units)))) ->
  Forall Q shipments ->
  pack_item fuel cat maxWeightG id unitW shipments remainingQuantity = Some out ->
  Forall Q out.
Proof.
  intros Hid. revert shipments remainingQuantity.
  induction fuel as [|fuel IH]; intros shipments rem Hall; simpl.
  - destruct (rem >? 0); [discriminate|]. by intros [= <-].
  - destruct (rem >? 0); [|by intros [= <-]].
    destruct (is_zero (floor_div maxWeightG unitW)) eqn:Ezero; [by intros [= <-]|].
    destruct (Hid eq_refl) as [Hnew Hmerge].
    destruct (try_existing cat maxWeightG id unitW rem shipments)
      as [[shipments' unitsToAdd]|] eqn:Etry.
    + apply IH. eapply try_existing_shape; eauto.
    + destruct (min_with _ _) as [units|]; [|discriminate].
      apply IH. apply Forall_app. split; [exact Hall|]. by repeat constructor.
Qed.

Lemma pack_items_shape fuel xs shipments out :
  Forall (fun x =>
            is_zero (floor_div maxWeightG (unitWeight x)) = false ->
            (forall units, Q [mkItem (productId (item x)) units]) /\
            (forall package units,
               Q package -> Q (merge_item package (mkItem (productId (item x)) units))))
         xs ->
  Forall Q shipments ->
  pack_items fuel cat maxWeightG xs shipments = Some out ->
  Forall Q out.
Proof.
  intros Hxs. revert shipments. induction Hxs as [|x xs Hx _ IH]; intros shipments Hall;
    simpl; [by intros [= <-]|].
  destruct (pack_item fuel cat maxWeightG (productId (item x)) (unitWeight x) shipments
              (quantity (item x))) as [mid|] eqn:Emid; [|discriminate].
  apply IH. eapply pack_item_shape; eauto.
Qed.

(** A property of packages that holds of a package of one line of a kept
    product that is not too heavy, and is kept when more units of such a
    product are put into a package, holds of every package of a result. *)
Lemma packShipment_shape fuel items packages :
  (forall it product,
     cat !! productId it = Some product -> 0 < quantity it ->
     is_zero (floor_div maxWeightG (Product.massG product)) = false ->
     (forall units, Q [mkItem (productId it) units]) /\
     (forall package units,
        Q package -> Q (merge_item package (mkItem (productId it) units)))) ->
  packShipment fuel cat items maxWeightG = Some packages ->
  Forall Q packages.
Proof.
  intros Hitems. unfold packShipment, itemsWithWeight.
  apply pack_items_shape; [|constructor].
  rewrite sort_heaviest_first_Permutation.
  induction items as [|it items IH]; simpl; [constructor|].
  destruct (cat !! productId it) as [product|] eqn:E; [|exact IH].
  destruct (Z.gtb_spec (quantity it) 0); [|exact IH].
  constructor; [|exact IH]. simpl. by apply Hitems.
Qed.

End PackShape.

Lemma merge_item_ids l it :
  map productId (merge_item l it)
  = if decide (productId it ∈ map productId l) then map productId l
    else map productId l ++ [productId it].
Proof.
  induction l as [|x l IH]; cbn [merge_item map].
  - rewrite decide_False; [done|]. apply not_elem_of_nil.
  - destruct (Z.eqb_spec (productId x) (productId it)) as [E|E]; cbn [map].
    + rewrite decide_True; [done|]. rewrite E. by left.
    + rewrite IH. destruct (decide (productId it ∈ map productId l)) as [Hin|Hnot].
      * rewrite decide_True; [done|]. by right.
      * rewrite decide_False; [done|]. intros Hin. apply elem_of_cons in Hin as [?|?]; auto.
Qed.

Lemma merge_item_nonempty l it : merge_item l it <> [].
Proof. destruct l as [|x l]; simpl; [done|]. by destruct (_ =? _). Qed.

Lemma merge_item_NoDup l it :
  NoDup (map productId l) -> NoDup (map productId (merge_item l it)).
Proof.
  intros Hnd. rewrite merge_item_ids. case_decide as Hin; [done|].
  apply NoDup_app. split; [done|]. split; [|apply NoDup_singleton].
  intros id Hid Hid'. apply list_elem_of_singleton in Hid'. by subst id.
Qed.

(** Every package of a result of the greedy first-fit strategy under a
    positive ceiling has at least one line, names each product in one line
    only, and every line names a product of the catalog and has a positive
    quantity. *)
Theorem packages_well_formed fuel cat items maxWeightG packages :
  0 < maxWeightG ->
  packShipment fuel cat items maxWeightG = Some packages ->
  Forall (fun package =>
            package <> [] /\
            NoDup (map productId package) /\
            Forall (fun it => is_Some (cat !! productId it) /\ 0 < quantity it) package)
         packages.
Proof.
  intros Hmax Hrun.
  destruct (packShipment_result _ _ _ _ _ Hmax Hrun) as (_ & Hpos & _).
  assert (Hshape : Forall (fun package =>
                      package <> [] /\ NoDup (map productId package) /\
                      Forall (fun id => is_Some (cat !! id)) (map productId package))
                     packages).
  { revert Hrun. apply packShipment_shape. intros it product E _ _. split.
    - intros units. split; [done|]. simpl. split; [apply NoDup_singleton|].
      repeat constructor. by rewrite E.
    - intros package units (_ & Hnd & Hcat).
      split; [apply merge_item_nonempty|]. split; [by apply merge_item_NoDup|].
      rewrite merge_item_ids. case_decide; [done|].
      apply Forall_app. split; [done|]. repeat constructor. simpl. by rewrite E. }
  rewrite Forall_forall in Hshape, Hpos. rewrite Forall_forall.
  intros package Hin. destruct (Hshape _ Hin) as (Hne & Hnd & Hcat).
  split; [done|]. split; [done|]. specialize (Hpos _ Hin).
  rewrite Forall_fmap in Hcat. unfold positive_lines in Hpos.
  rewrite Forall_forall in Hcat, Hpos. rewrite Forall_forall. intros it Hit.
  split; [by apply Hcat|by apply Hpos].
Qed.

Lemma packages_well_formed_witness :
  Forall (fun package =>
            package <> [] /\
            NoDup (map productId package) /\
            Forall (fun it => is_Some (catalog_mixed !! productId it) /\ 0 < quantity it)
                   package)
         [[mkItem 0 2; mkItem 1 5]; [mkItem 0 1]].
Proof.
  apply (packages_well_formed 5 catalog_mixed
           [mkItem 1 5; mkItem 0 3; mkItem 9 4; mkItem 1 0] 1800).
  - lia.
  - vm_compute. reflexivity.
Defined.

(** A product whose unit mass is more than the ceiling is left out of every
    package (the ceiling not being negative). *)
Theorem too_heavy_left_out fuel cat items maxWeightG packages id product :
  0 <= maxWeightG ->
  cat !! id = Some product ->
  maxWeightG < Product.massG product ->
  packShipment fuel cat items maxWeightG = Some packages ->
  id ∉ map productId (concat packages).
Proof.
  intros Hmax Hlook Hheavy Hrun.
  assert (Hshape : Forall (fun package => id ∉ map productId package) packages).
  { revert Hrun. apply packShipment_shape. intros it product' E _ Hzero.
    assert (Hne : productId it <> id).
    { intros Heq. rewrite Heq, Hlook in E. injection E as <-.
      unfold floor_div in Hzero.
      destruct (Z.eqb_spec (Product.massG product) 0); [lia|]. simpl in Hzero.
      rewrite Z.div_small in Hzero by lia. discriminate. }
    split.
    - intros units. simpl. intros Hin. apply list_elem_of_singleton in Hin. congruence.
    - intros package units Hnot. rewrite merge_item_ids. case_decide; [done|].
      intros Hin. apply elem_of_app in Hin as [Hin|Hin]; [done|].
      apply list_elem_of_singleton in Hin. simpl in Hin. congruence. }
  clear Hrun.
  induction Hshape as [|package packages Hp _ IH]; simpl; [apply not_elem_of_nil|].
  rewrite map_app. intros Hin.
  apply elem_of_app in Hin as [Hin|Hin]; [exact (Hp Hin)|exact (IH Hin)].
Qed.

Lemma too_heavy_left_out_witness :
  0 ∉ map productId (concat [[mkItem 1 5]]).
Proof.
  apply (too_heavy_left_out 5 catalog_mixed [mkItem 1 5; mkItem 0 3] 500 [[mkItem 1 5]] 0
           (Product.mk 0 "RBC A+ Adult" 700 0)).
  - lia.
  - reflexivity.
  - simpl. lia.
  - vm_compute. reflexivity.
Defined.

Lemma weigh_filter_kept cat items : weigh cat (filter (kept cat) items) = weigh cat items.
Proof.
  induction items as [|it items IH]; [done|].
  rewrite filter_cons. destruct (decide (kept cat it)) as [[[product E] Hq]|Hn]; simpl.
  - rewrite E. destruct (Z.gtb_spec (quantity it) 0); [|lia]. by rewrite IH.
  - destruct (cat !! productId it) as [product|] eqn:E; [|exact IH].
    destruct (Z.gtb_spec (quantity it) 0); [|exact IH].
    exfalso. apply Hn. split; [eauto|lia].
Qed.

(** The strategy ignores the items that name a product that is not in the
    catalog and those whose quantity is not positive: the result is that for
    the other items alone. *)
Theorem packShipment_ignores_unknown_and_empty fuel cat items maxWeightG :
  packShipment fuel cat items maxWeightG
  = packShipment fuel cat (filter (kept cat) items) maxWeightG.
Proof. unfold packShipment, itemsWithWeight. by rewrite weigh_filter_kept. Qed.

Section SingleProduct.
Variable cat : gmap Z Product.t.
Variable maxWeightG id : Z.
Variable product : Product.t.
Hypothesis known : cat !! id = Some product.
Hypothesis fits : 0 < Product.massG product <= maxWeightG.

Lemma per_package_positive : 0 < maxWeightG / Product.massG product.
Proof. apply Z.div_str_pos. lia. Qed.

Lemma try_existing_full n remainingQuantity :
  0 <= remainingQuantity ->
  try_existing cat maxWeightG id (Product.massG product) remainingQuantity
    (replicate n [mkItem id (maxWeightG / Product.massG product)])
  = None.
Proof.
  intros Hrem. induction n as [|n IH]; [done|].
  cbn [replicate try_existing]. rewrite IH.
  unfold calculateShipmentWeight. simpl. rewrite known.
  replace (maxWeightG - (0 + Product.massG product
                             * (maxWeightG / Product.massG product)))
    with (maxWeightG mod Product.massG product)
    by (rewrite Z.mod_eq; lia).
  unfold floor_div. destruct (Z.eqb_spec (Product.massG product) 0); [lia|].
  rewrite Z.div_small by (apply Z.mod_pos_bound; lia). simpl.
  by destruct (Z.gtb_spec (Z.min 0 remainingQuantity) 0); [lia|].
Qed.

Lemma pack_item_nothing_left fuel unitW shipments remainingQuantity :
  remainingQuantity <= 0 ->
  pack_item fuel cat maxWeightG id unitW shipments remainingQuantity = Some shipments.
Proof.
  intros H. destruct fuel; simpl; by destruct (Z.gtb_spec remainingQuantity 0); [lia|].
Qed.

Lemma pack_item_full fuel n remainingQuantity :
  0 <= remainingQuantity ->
  (Z.to_nat remainingQuantity <= fuel)%nat ->
  pack_item fuel cat maxWeightG id (Product.massG product)
    (replicate n [mkItem id (maxWeightG / Product.massG product)]) remainingQuantity
  = Some (replicate
            (n + Z.to_nat (remainingQuantity / (maxWeightG / Product.massG product)))
            [mkItem id (maxWeightG / Product.massG product)]
          ++ (if remainingQuantity mod (maxWeightG / Product.massG product) =? 0 then []
              else [[mkItem id
                       (remainingQuantity mod (maxWeightG / Product.massG product))]])).
Proof.
  pose proof per_package_positive as Hk.
  set (k := maxWeightG / Product.massG product) in *.
  revert n remainingQuantity. induction fuel as [|fuel IH]; intros n rem Hrem Hfuel.
  - assert (rem = 0) as -> by lia. cbn [pack_item].
    rewrite Z.div_0_l, Z.mod_0_l by lia. simpl. by rewrite Nat.add_0_r, app_nil_r.
  - cbn [pack_item]. destruct (Z.gtb_spec rem 0) as [Hpos|Hzero].
    2:{ assert (rem = 0) as -> by lia.
        rewrite Z.div_0_l, Z.mod_0_l by lia. simpl. by rewrite Nat.add_0_r, app_nil_r. }
    rewrite try_existing_full by lia.
    unfold floor_div. destruct (Z.eqb_spec (Product.massG product) 0); [lia|].
    fold k. simpl. destruct (Z.eqb_spec k 0); [lia|].
    destruct (Z.le_gt_cases k rem) as [Hfull|Hlast].
    + replace (Z.min k rem) with k by lia.
      replace (replicate n [mkItem id k] ++ [[mkItem id k]])
        with (replicate (S n) [mkItem id k])
        by (by rewrite <- replicate_cons_app).
      rewrite IH by lia.
      assert (Hdiv : rem / k = (rem - k) / k + 1).
      { rewrite <- Z.div_add by lia. f_equal. lia. }
      assert (Hmod : rem mod k = (rem - k) mod k).
      { rewrite <- (Z.mod_add (rem - k) 1 k) by lia. f_equal. lia. }
      rewrite Hdiv, Hmod.
      do 3 f_equal. pose proof (Z.div_pos (rem - k) k). lia.
    + replace (Z.min k rem) with rem by lia.
      rewrite Z.sub_diag, pack_item_nothing_left by lia.
      rewrite Z.div_small, Z.mod_small by lia. simpl.
      destruct (Z.eqb_spec rem 0); [lia|]. by rewrite Nat.add_0_r.
Qed.

End SingleProduct.

(** An order line for one product that fits in a package is packed as full
    packages, each with as many units as the ceiling allows, and one last
    package with the units left over, if there are any. *)
Theorem single_product_packages cat id product q maxWeightG :
  cat !! id = Some product ->
  0 < Product.massG product <= maxWeightG ->
  0 < q ->
  packShipment (Z.to_nat q) cat [mkItem id q] maxWeightG
  = Some (replicate (Z.to_nat (q / (maxWeightG / Product.massG product)))
            [mkItem id (maxWeightG / Product.massG product)]
          ++ (if q mod (maxWeightG / Product.massG product) =? 0 then []
              else [[mkItem id (q mod (maxWeightG / Product.massG product))]])).
Proof.
  intros Hlook Hmass Hq.
  pose proof (pack_item_full cat maxWeightG id product Hlook Hmass (Z.to_nat q) 0 q
                ltac:(lia) ltac:(lia)) as Hpack.
  cbn [replicate Nat.add] in Hpack.
  unfold packShipment, itemsWithWeight. simpl. rewrite Hlook.
  destruct (Z.gtb_spec q 0); [|lia]. simpl.
  by rewrite Hpack.
Qed.

Lemma single_product_packages_witness :
  packShipment (Z.to_nat 5) catalog_mixed [mkItem 0 5] 1800
  = Some (replicate (Z.to_nat (5 / (1800 / 700))) [mkItem 0 (1800 / 700)]
          ++ (if 5 mod (1800 / 700) =? 0 then []
              else [[mkItem 0 (5 mod (1800 / 700))]])).
Proof.
  apply (single_product_packages catalog_mixed 0 (Product.mk 0 "RBC A+ Adult" 700 0) 5 1800).
  - reflexivity.
  - simpl. lia.
  - lia.
Defined.

(** ** The batches of batch mode *)

Lemma batches_concat_from (all : list (list Item)) k0 n :
  concat (map (fun i => take FulfillmentService.BATCH_SIZE (drop i all))
            (map (fun k => k * FulfillmentService.BATCH_SIZE)%nat (seq k0 n)))
  = take (n * FulfillmentService.BATCH_SIZE)
      (drop (k0 * FulfillmentService.BATCH_SIZE) all).
Proof.
  revert k0. induction n as [|n IH]; intros k0; [done|].
  cbn [seq map concat]. rewrite IH.
  replace (S n * FulfillmentService.BATCH_SIZE)%nat
    with (FulfillmentService.BATCH_SIZE + n * FulfillmentService.BATCH_SIZE)%nat by lia.
  rewrite <- take_take_drop, drop_drop.
  replace (S k0 * FulfillmentService.BATCH_SIZE)%nat
    with (k0 * FulfillmentService.BATCH_SIZE + FulfillmentService.BATCH_SIZE)%nat by lia.
  done.
Qed.

Lemma batches_concat (allShipments : list (list Item)) :
  concat (batches allShipments) = allShipments.
Proof.
  unfold batches, FulfillmentService.batch_starts.
  rewrite batches_concat_from, Nat.mul_0_l, drop_0.
  rewrite take_ge; [done|]. unfold FulfillmentService.BATCH_SIZE.
  pose proof (Nat.div_mod_eq (length allShipments + (50 - 1)) 50).
  pose proof (Nat.mod_upper_bound (length allShipments + (50 - 1)) 50). lia.
Qed.

Lemma batches_lengths (allShipments : list (list Item)) :
  Forall (fun batch => (0 < length batch <= FulfillmentService.BATCH_SIZE)%nat)
         (batches allShipments).
Proof.
  unfold batches, FulfillmentService.batch_starts.
  rewrite Forall_forall. intros batch Hin.
  apply list_elem_of_fmap in Hin as (i & -> & Hin).
  apply list_elem_of_fmap in Hin as (k & -> & Hin).
  apply elem_of_seq in Hin. rewrite length_take, length_drop.
  unfold FulfillmentService.BATCH_SIZE in *.
  pose proof (Nat.div_mod_eq (length allShipments + (50 - 1)) 50).
  pose proof (Nat.mod_upper_bound (length allShipments + (50 - 1)) 50). lia.
Qed.

(** The loop of [batchShipPackages] cuts the packages into consecutive
    batches: put end to end the batches are the packages, in order, and every
    batch has at least one package and at most fifty. *)
Theorem batches_partition (allShipments : list (list Item)) :
  concat (batches allShipments) = allShipments /\
  Forall (fun batch => (0 < length batch <= FulfillmentService.BATCH_SIZE)%nat)
         (batches allShipments).
Proof. split; [apply batches_concat|apply batches_lengths]. Qed.

(** ** Invariants of the allocator *)

Lemma recorded_known orderId items os os' id :
  recorded orderId items os os' -> known_order id os -> known_order id os'.
Proof.
  intros Hrec. unfold known_order.
  destruct (decide (id = orderId)) as [->|Hne];
    [|by rewrite (recorded_other _ _ _ _ _ Hrec Hne)].
  unfold recorded in Hrec.
  destruct (OrderQueueService.findOne os orderId) as [row|] eqn:E; [|by subst os'].
  destruct Hrec as (row' & -> & Hid & _). intros _.
  rewrite <- (findOne_orderId _ _ _ E), <- Hid, findOne_save_same. eauto.
Qed.

Lemma elem_of_known order os : order ∈ os -> known_order (Order.orderId order) os.
Proof.
  intros Hin. unfold known_order.
  destruct (OrderQueueService.findOne os (Order.orderId order)) eqn:E; [eauto|].
  apply findOne_None_fresh in E. exfalso. apply E. apply list_elem_of_fmap. eauto.
Qed.

Lemma shipPackage_known orderId items id :
  preserves (fun s => known_order id (orders s))
    (FulfillmentService.shipPackage orderId items).
Proof.
  intros s Hs.
  destruct (FulfillmentService.shipPackage orderId items s) as [s' r] eqn:E.
  destruct (shipPackage_recorded _ _ _ _ _ E) as [[_ Hrec]|(e & _ & Ho)]; simpl.
  - eapply recorded_known; eauto.
  - by rewrite Ho.
Qed.

(** What one batch does to the order table: the items it reserves are
    recorded for the order, or the table is as it was. *)
Lemma process_batch_orders orderId batch s :
  orders (FulfillmentService.process_batch orderId batch s).1 = orders s \/
  recorded orderId (batch_items (catalog s) orderId batch) (orders s)
    (orders (FulfillmentService.process_batch orderId batch s).1).
Proof.
  rewrite process_batch_eq. unfold batch_items. simpl.
  set (acc := foldl _ _ batch).
  destruct (FulfillmentService.is_empty acc.1) eqn:Eempty.
  - left. by destruct (FulfillmentService.is_empty acc.2).
  - pose proof (reserveStock_frame acc.1 s) as (Ho & _).
    destruct (InventoryService.reserveStock acc.1 s) as [s1 [[]|e]]; simpl in Ho;
      [|by left].
    set (s2 := if FulfillmentService.is_empty acc.2 then s1 else _).
    assert (Ho2 : orders s2 = orders s).
    { unfold s2. by destruct (FulfillmentService.is_empty acc.2). }
    pose proof (updateOrderShipment_recorded orderId acc.1 s2) as Hrec.
    rewrite Ho2 in Hrec. right.
    by destruct (OrderQueueService.updateOrderShipment orderId acc.1 s2) as [s3 [o|e]].
Qed.

Lemma process_batch_known orderId batch id :
  preserves (fun s => known_order id (orders s))
    (FulfillmentService.process_batch orderId batch).
Proof.
  intros s Hs. destruct (process_batch_orders orderId batch s) as [->|Hrec]; [done|].
  eapply recorded_known; eauto.
Qed.

Lemma ship_all_known orderId packages id :
  preserves (fun s => known_order id (orders s))
    (FulfillmentService.ship_all orderId packages).
Proof.
  unfold FulfillmentService.ship_all, FulfillmentService.batchShipPackages.
  destruct (_ <? _)%nat; apply preserves_for_each; intros x.
  - apply process_batch_known.
  - apply shipPackage_known.
Qed.

Lemma attemptFulfillment_known fuel order s s' r id :
  known_order id (orders s) ->
  FulfillmentService.attemptFulfillment fuel order s = Some (s', r) ->
  known_order id (orders s').
Proof.
  intros Hs. unfold FulfillmentService.attemptFulfillment.
  destruct (FulfillmentService.is_empty _); [congruence|].
  destruct (FulfillmentService.is_empty _); [congruence|].
  destruct (packShipment _ _ _ _) as [packages|]; [|done].
  intros [= H]. pose proof (ship_all_known (Order.orderId order) packages id s Hs) as Hp.
  by rewrite H in Hp.
Qed.

Lemma enqueueOrder_saved now orderId requestedItems s :
  exists order,
    OrderQueueService.enqueueOrder now orderId requestedItems s
    = (with_orders s (OrderQueueService.save (orders s) order), Ok order).
Proof. eexists. reflexivity. Qed.

Section AllocatorInvariant.
Variable P : State -> Prop.
Variable allowed : State -> Op -> Prop.
Hypothesis P_ship : forall orderId items s,
  P s -> known_order orderId (orders s) ->
  P (FulfillmentService.shipPackage orderId items s).1.
Hypothesis P_batch : forall orderId batch s,
  P s -> known_order orderId (orders s) ->
  P (FulfillmentService.process_batch orderId batch s).1.
Hypothesis P_enqueue : forall now orderId requestedItems,
  preserves P (OrderQueueService.enqueueOrder now orderId requestedItems).
Hypothesis P_restock : forall restock,
  preserves P (InventoryService.processRestock restock).
Hypothesis P_init : forall productInfo,
  preserves P (InventoryService.initCatalog productInfo).
Hypothesis P_reset : preserves P InventoryService.resetCatalog.
Hypothesis P_reserve : forall items, preserves P (InventoryService.reserveStock items).
Hypothesis P_update : forall s orderId items,
  allowed s (OpUpdateOrderShipment orderId items) -> P s ->
  P (OrderQueueService.updateOrderShipment orderId items s).1.

Lemma ship_all_invariant orderId packages s :
  P s -> known_order orderId (orders s) ->
  P (FulfillmentService.ship_all orderId packages s).1.
Proof.
  intros Hs Hknown.
  enough (H : (fun s => P s /\ known_order orderId (orders s))
                (FulfillmentService.ship_all orderId packages s).1) by apply H.
  unfold FulfillmentService.ship_all, FulfillmentService.batchShipPackages.
  destruct (_ <? _)%nat;
    (apply preserves_for_each; [|by split]); intros x s0 [H0 Hk0]; split; auto.
  - by apply process_batch_known.
  - by apply shipPackage_known.
Qed.

Lemma attemptFulfillment_invariant fuel order s s' r :
  P s -> known_order (Order.orderId order) (orders s) ->
  FulfillmentService.attemptFulfillment fuel order s = Some (s', r) -> P s'.
Proof.
  intros Hs Hknown. unfold FulfillmentService.attemptFulfillment.
  destruct (FulfillmentService.is_empty _); [congruence|].
  destruct (FulfillmentService.is_empty _); [congruence|].
  destruct (packShipment _ _ _ _) as [packages|]; [|done].
  intros [= H].
  pose proof (ship_all_invariant (Order.orderId order) packages s Hs Hknown) as Hp.
  by rewrite H in Hp.
Qed.

Lemma attempt_each_invariant fuel pendingOrders s s' r :
  P s -> Forall (fun order => known_order (Order.orderId order) (orders s)) pendingOrders ->
  FulfillmentService.attempt_each fuel pendingOrders s = Some (s', r) -> P s'.
Proof.
  revert s. induction pendingOrders as [|o l IH]; simpl; intros s Hs Hall.
  - congruence.
  - apply Forall_cons in Hall as [Ho Hall].
    destruct (FulfillmentService.attemptFulfillment fuel o s) as [[s1 [[]|e]]|] eqn:E;
      [| |done].
    + apply IH; [eapply attemptFulfillment_invariant; eauto|].
      eapply Forall_impl; [exact Hall|]. intros order Hk.
      exact (attemptFulfillment_known _ _ _ _ _ _ Hk E).
    + intros [= <- _]. eapply attemptFulfillment_invariant; eauto.
Qed.

Lemma fulfillPendingOrders_invariant fuel s s' r :
  P s -> FulfillmentService.fulfillPendingOrders fuel s = Some (s', r) -> P s'.
Proof.
  intros Hs. unfold FulfillmentService.fulfillPendingOrders. simpl.
  apply attempt_each_invariant; [exact Hs|].
  rewrite Forall_forall. intros order Hin. apply elem_of_known.
  rewrite merge_sort_Permutation in Hin. by apply list_elem_of_filter in Hin as [_ Hin].
Qed.

Lemma exec_invariant fuel op s s' r :
  allowed s op -> P s -> exec fuel op s = Some (s', r) -> P s'.
Proof.
  intros Hop Hs.
  destruct op as [productInfo| |items|now order_id requested|restock
                 |now orderId requestedItems|orderId shippedItems]; simpl.
  - intros ->%lift_state. by apply P_init.
  - intros ->%lift_state. by apply P_reset.
  - intros ->%lift_state. by apply P_reserve.
  - unfold FulfillmentService.processOrder.
    pose proof (P_enqueue now order_id requested s Hs) as Hq.
    destruct (enqueueOrder_saved now order_id requested s) as (order & Heq).
    rewrite Heq in Hq |- *. simpl in Hq.
    apply attemptFulfillment_invariant; [exact Hq|]. simpl.
    unfold known_order. rewrite findOne_save_same. eauto.
  - unfold FulfillmentService.processRestock.
    pose proof (P_restock restock s Hs) as Hq. simpl in *.
    by apply fulfillPendingOrders_invariant.
  - intros ->%lift_state. by apply P_enqueue.
  - intros ->%lift_state. by apply P_update.
Qed.

Lemma reach_invariant s0 s : P s0 -> reach allowed s0 s -> P s.
Proof.
  intros H0. induction 1 as [|s' s'' op fuel r _ IH Hop Hexec]; [exact H0|].
  eauto using exec_invariant.
Qed.

End AllocatorInvariant.

Section OrdersInvariant.
Variable PO : list Order.t -> Prop.
Hypothesis PO_update : forall orderId items s,
  PO (orders s) -> PO (orders (OrderQueueService.updateOrderShipment orderId items s).1).

Lemma orders_shipPackage orderId items s :
  PO (orders s) -> PO (orders (FulfillmentService.shipPackage orderId items s).1).
Proof.
  intros Hs. rewrite shipPackage_eq. simpl. destruct (_ >? _); [exact Hs|].
  pose proof (reserveStock_frame items s) as (Ho & _).
  destruct (InventoryService.reserveStock items s) as [s1 [[]|e]]; simpl in *;
    [|by rewrite Ho].
  set (s2 := with_shipments s1 _).
  pose proof (PO_update orderId items s2) as Hu. simpl in Hu. rewrite Ho in Hu.
  specialize (Hu Hs).
  by destruct (OrderQueueService.updateOrderShipment orderId items s2) as [s3 [o|e]].
Qed.

Lemma orders_process_batch orderId batch s :
  PO (orders s) -> PO (orders (FulfillmentService.process_batch orderId batch s).1).
Proof.
  intros Hs. rewrite process_batch_eq. simpl. set (acc := foldl _ _ batch).
  destruct (FulfillmentService.is_empty acc.1) eqn:Eempty.
  - by destruct (FulfillmentService.is_empty acc.2).
  - pose proof (reserveStock_frame acc.1 s) as (Ho & _).
    destruct (InventoryService.reserveStock acc.1 s) as [s1 [[]|e]]; simpl in Ho;
      [|simpl; by rewrite Ho].
    set (s2 := if FulfillmentService.is_empty acc.2 then s1 else _).
    assert (Ho2 : orders s2 = orders s).
    { unfold s2. by destruct (FulfillmentService.is_empty acc.2). }
    pose proof (PO_update orderId acc.1 s2) as Hu. rewrite Ho2 in Hu. specialize (Hu Hs).
    by destruct (OrderQueueService.updateOrderShipment orderId acc.1 s2) as [s3 [o|e]].
Qed.

(** A property of the order table that [enqueueOrder] and
    [updateOrderShipment] keep holds in every state reached from a state in
    which it holds. *)
Lemma reach_orders_invariant s0 s :
  (forall now orderId requestedItems s,
     PO (orders s) ->
     PO (orders (OrderQueueService.enqueueOrder now orderId requestedItems s).1)) ->
  PO (orders s0) -> reach any_operation s0 s -> PO (orders s).
Proof.
  intros PO_enqueue.
  apply (reach_invariant (fun s => PO (orders s)) any_operation).
  - intros orderId items s1 H1 _. by apply orders_shipPackage.
  - intros orderId batch s1 H1 _. by apply orders_process_batch.
  - intros now orderId requestedItems s1 H1. by apply PO_enqueue.
  - intros restock s1 H1. exact H1.
  - intros productInfo s1 H1. unfold InventoryService.initCatalog.
    by destruct (isInitialized s1).
  - intros s1 H1. exact H1.
  - intros items s1 H1. by rewrite (proj1 (reserveStock_frame items s1)).
  - intros s1 orderId items _. apply PO_update.
Qed.

End OrdersInvariant.

Lemma enqueueOrder_ids now orderId requestedItems s :
  map Order.orderId (orders (OrderQueueService.enqueueOrder now orderId requestedItems s).1)
  = match OrderQueueService.findOne (orders s) orderId with
    | Some _ => map Order.orderId (orders s)
    | None => map Order.orderId (orders s) ++ [orderId]
    end.
Proof.
  unfold OrderQueueService.enqueueOrder. simpl.
  destruct (OrderQueueService.findOne (orders s) orderId) as [row|] eqn:E.
  - apply (save_ids_existing _ _ row). simpl. by rewrite (findOne_orderId _ _ _ E).
  - rewrite save_new by done. by rewrite map_app.
Qed.

Lemma reach_one_row s0 s :
  NoDup (map Order.orderId (orders s0)) ->
  reach any_operation s0 s -> NoDup (map Order.orderId (orders s)).
Proof.
  intros H0. revert H0.
  apply (reach_orders_invariant (fun os => NoDup (map Order.orderId os))).
  - intros orderId items s1 Hs.
    by rewrite (recorded_ids _ _ _ _ (updateOrderShipment_recorded orderId items s1)).
  - intros now orderId requestedItems s1 Hs. rewrite enqueueOrder_ids.
    destruct (OrderQueueService.findOne (orders s1) orderId) eqn:E; [done|].
    apply NoDup_app. split; [done|]. split; [|apply NoDup_singleton].
    intros id Hin Hin'. apply list_elem_of_singleton in Hin'. subst id.
    by apply (findOne_None_fresh _ _ E).
Qed.

(** The ledger has one row per order identifier, whatever is submitted and
    however often: in every state reached from the fresh process, no two
    orders have the same identifier. *)
Theorem one_row_per_order s :
  reach any_operation initial_state s -> NoDup (map Order.orderId (orders s)).
Proof. apply reach_one_row. constructor. Qed.

Lemma reach_state_resubmitted : reach any_operation initial_state state_resubmitted.
Proof.
  eapply (reach_step _ _ _ _ (OpProcessOrder 3 1 [Req.mk 0 5]) 10%nat (Ok tt)).
  - eapply (reach_step _ _ _ _ (OpProcessOrder 2 2 [Req.mk 0 1]) 10%nat (Ok tt)).
    + eapply (reach_step _ _ _ _ (OpProcessOrder 1 1 [Req.mk 0 2]) 10%nat (Ok tt)).
      * eapply (reach_step _ _ _ _ (OpProcessRestock [Req.mk 0 2]) 10%nat (Ok tt)).
        -- eapply (reach_step _ _ _ _ (OpInitCatalog [product0]) 0%nat (Ok tt)).
           ++ apply reach_refl.
           ++ exact I.
           ++ reflexivity.
        -- exact I.
        -- reflexivity.
      * exact I.
      * vm_compute. reflexivity.
    + exact I.
    + vm_compute. reflexivity.
  - exact I.
  - vm_compute. reflexivity.
Defined.

(** Order 1 is submitted, shipped and submitted again, with order 2 in
    between: the ledger has the identifiers 1 and 2, each once. *)
Lemma one_row_per_order_witness :
  NoDup (map Order.orderId (orders state_resubmitted)).
Proof. apply (one_row_per_order state_resubmitted). exact reach_state_resubmitted. Defined.

(** In every state reached from the fresh process, an order whose status
    is FULFILLED has nothing left to ship, whatever was submitted since. *)
Theorem fulfilled_orders_have_nothing_remaining s order :
  reach any_operation initial_state s ->
  order ∈ orders s ->
  Order.status order = FULFILLED ->
  OrderQueueService.getRemainingItems order = [].
Proof.
  intros Hreach.
  enough (H : Forall (fun order => Order.status order = FULFILLED ->
                                   OrderQueueService.getRemainingItems order = [])
                     (orders s)).
  { rewrite Forall_forall in H. apply H. }
  revert Hreach. apply reach_orders_invariant; [| |constructor].
  - intros orderId items s1 Hs. unfold OrderQueueService.updateOrderShipment.
    destruct (OrderQueueService.findOne (orders s1) orderId) as [row|]; [|done].
    simpl. apply Forall_save; [done|]. simpl.
    unfold OrderQueueService.getRemainingItems. simpl.
    destruct (OrderQueueService.isOrderFulfilled _) eqn:E; [|discriminate].
    intros _. by apply remaining_of_nil.
  - intros now orderId requestedItems s1 Hs. unfold OrderQueueService.enqueueOrder. simpl.
    apply Forall_save; [done|].
    by destruct (OrderQueueService.findOne (orders s1) orderId).
Qed.

Lemma fulfilled_orders_have_nothing_remaining_witness :
  OrderQueueService.getRemainingItems (Order.mk 1 [mkItem 0 2] [mkItem 0 2] FULFILLED 1 1)
  = [].
Proof.
  apply (fulfilled_orders_have_nothing_remaining scenario9_state).
  - exact reach_scenario9.
  - simpl. by left.
  - reflexivity.
Defined.

Lemma collect_shipment_rows cat orderId batch acc :
  Forall (fun row => Shipment.totalMassG row <= FulfillmentService.MAX_PACKAGE_WEIGHT_G /\
                     Shipment.orderId row = orderId) acc.2 ->
  Forall (fun row => Shipment.totalMassG row <= FulfillmentService.MAX_PACKAGE_WEIGHT_G /\
                     Shipment.orderId row = orderId)
         (foldl (FulfillmentService.collect_shipment cat orderId) acc batch).2.
Proof.
  revert acc. induction batch as [|shipmentItems batch IH]; intros acc Hacc; [done|].
  simpl. apply IH. unfold FulfillmentService.collect_shipment.
  destruct (Z.gtb_spec (InventoryService.calculateTotalMass cat shipmentItems)
              FulfillmentService.MAX_PACKAGE_WEIGHT_G); [done|].
  simpl. apply Forall_app. split; [done|]. by repeat constructor.
Qed.

(** No shipment record is over the ceiling: in every state reached from
    the fresh process, by whatever operations, the total mass recorded for a
    shipment is at most 1800 g. *)
Theorem shipment_records_within_ceiling s :
  reach any_operation initial_state s ->
  Forall (fun row => Shipment.totalMassG row <= FulfillmentService.MAX_PACKAGE_WEIGHT_G)
         (shipments s).
Proof.
  apply (reach_invariant
           (fun s => Forall (fun row => Shipment.totalMassG row
                                        <= FulfillmentService.MAX_PACKAGE_WEIGHT_G)
                            (shipments s)) any_operation).
  - intros orderId items s1 Hs _. rewrite shipPackage_eq. simpl.
    destruct (Z.gtb_spec (InventoryService.calculateTotalMass (catalog s1) items)
                FulfillmentService.MAX_PACKAGE_WEIGHT_G); [exact Hs|].
    pose proof (reserveStock_frame items s1) as (_ & Hsh & _).
    destruct (InventoryService.reserveStock items s1) as [s2 [[]|e]]; simpl in *;
      [|by rewrite Hsh].
    set (s3 := with_shipments s2 _).
    pose proof (updateOrderShipment_frame orderId items s3) as (_ & Hsh3).
    assert (Forall (fun row => Shipment.totalMassG row
                               <= FulfillmentService.MAX_PACKAGE_WEIGHT_G) (shipments s3)).
    { simpl. rewrite Hsh. apply Forall_app. split; [done|]. by repeat constructor. }
    destruct (OrderQueueService.updateOrderShipment orderId items s3) as [s4 [o|e]];
      simpl in *; by rewrite Hsh3.
  - intros orderId batch s1 Hs _. rewrite process_batch_eq. simpl.
    set (acc := foldl _ _ batch).
    assert (Hrows : Forall (fun row => Shipment.totalMassG row
                                       <= FulfillmentService.MAX_PACKAGE_WEIGHT_G) acc.2).
    { eapply Forall_impl; [apply collect_shipment_rows; constructor|]. by intros row [H _]. }
    assert (Hstep : forall s2, shipments s2 = shipments s1 ->
              Forall (fun row => Shipment.totalMassG row
                                 <= FulfillmentService.MAX_PACKAGE_WEIGHT_G)
                (shipments (if FulfillmentService.is_empty acc.2 then s2
                            else with_shipments s2 (shipments s2 ++ acc.2)))).
    { intros s2 Hsh. destruct (FulfillmentService.is_empty acc.2); simpl; rewrite Hsh;
        [done|]. apply Forall_app. by split. }
    destruct (FulfillmentService.is_empty acc.1) eqn:Eempty; [by apply Hstep|].
    pose proof (reserveStock_frame acc.1 s1) as (_ & Hsh & _).
    destruct (InventoryService.reserveStock acc.1 s1) as [s2 [[]|e]]; simpl in Hsh;
      [|simpl; by rewrite Hsh].
    specialize (Hstep s2 Hsh).
    set (s3 := if FulfillmentService.is_empty acc.2 then s2 else _) in *.
    pose proof (updateOrderShipment_frame orderId acc.1 s3) as (_ & Hsh3).
    destruct (OrderQueueService.updateOrderShipment orderId acc.1 s3) as [s4 [o|e]];
      simpl in *; by rewrite Hsh3.
  - intros now orderId requestedItems s1 Hs. exact Hs.
  - intros restock s1 Hs. exact Hs.
  - intros productInfo s1 Hs. unfold InventoryService.initCatalog.
    by destruct (isInitialized s1).
  - intros s1 Hs. exact Hs.
  - intros items s1 Hs. by rewrite (proj1 (proj2 (reserveStock_frame items s1))).
  - intros s1 orderId items _ Hs.
    by rewrite (proj2 (updateOrderShipment_frame orderId items s1)).
  - constructor.
Qed.

Lemma shipment_records_within_ceiling_witness :
  Forall (fun row => Shipment.totalMassG row <= FulfillmentService.MAX_PACKAGE_WEIGHT_G)
         (shipments scenario9_state).
Proof. apply (shipment_records_within_ceiling scenario9_state). exact reach_scenario9. Defined.

(** ** The ledger and the shipment records *)

Lemma filter_orderId_all orderId rows :
  Forall (fun row => Shipment.orderId row = orderId) rows ->
  filter (fun row => Shipment.orderId row = orderId) rows = rows.
Proof.
  induction 1 as [|row rows Hrow _ IH]; [done|].
  by rewrite filter_cons, decide_True, IH.
Qed.

Lemma filter_orderId_none orderId rows :
  Forall (fun row => Shipment.orderId row <> orderId) rows ->
  filter (fun row => Shipment.orderId row = orderId) rows = [].
Proof.
  induction 1 as [|row rows Hrow _ IH]; [done|].
  by rewrite filter_cons, decide_False, IH.
Qed.

Lemma shipped_in_app rows1 rows2 :
  shipped_in (rows1 ++ rows2) = shipped_in rows1 ++ shipped_in rows2.
Proof. unfold shipped_in. by rewrite map_app, concat_app. Qed.

Lemma ledger_matches_same s s' :
  orders s' = orders s -> shipments s' = shipments s ->
  ledger_matches_records s -> ledger_matches_records s'.
Proof. unfold ledger_matches_records. by intros -> ->. Qed.

Lemma save_known os order id :
  known_order id os -> known_order id (OrderQueueService.save os order).
Proof.
  unfold known_order. destruct (decide (id = Order.orderId order)) as [->|Hne].
  - rewrite findOne_save_same. eauto.
  - by rewrite findOne_save_other.
Qed.

(** Records are inserted for an order of the ledger and the order is
    updated with items that add up to those of the records. *)
Lemma ledger_commit s s2 orderId items rows :
  ledger_matches_records s ->
  known_order orderId (orders s) ->
  orders s2 = orders s ->
  shipments s2 = shipments s ++ rows ->
  Forall (fun row => Shipment.orderId row = orderId) rows ->
  (1 <= length rows)%nat ->
  (forall id, quantity_of id items = quantity_of id (shipped_in rows)) ->
  ledger_matches_records (OrderQueueService.updateOrderShipment orderId items s2).1.
Proof.
  intros [Hrows Hsums] [order Horder] Ho Hsh Hall Hlen Hitems.
  pose proof (findOne_orderId _ _ _ Horder) as Hoid.
  unfold ledger_matches_records, OrderQueueService.updateOrderShipment.
  rewrite Ho, Horder. simpl. rewrite Hsh.
  set (updated := Order.mk _ _ _ _ _ _).
  assert (Hid : Order.orderId updated = orderId) by done.
  split.
  - intros row Hin. apply save_known.
    apply elem_of_app in Hin as [Hin|Hin]; [by apply Hrows|].
    rewrite Forall_forall in Hall. rewrite (Hall _ Hin). by exists order.
  - intros orderId' order'. rewrite filter_app, shipped_in_app, length_app.
    destruct (Hsums _ _ Horder) as [Hc Hq].
    destruct (decide (orderId' = orderId)) as [->|Hne].
    + rewrite <- Hid at 1. rewrite findOne_save_same. intros [= <-].
      rewrite (filter_orderId_all _ _ Hall). split; [simpl; lia|].
      intros id. simpl. rewrite shippedQuantity_foldl_merge, Hq, Hitems.
      unfold quantity_of. by rewrite weighted_app.
    + rewrite findOne_save_other by (by rewrite Hid).
      intros Hfind. rewrite (filter_orderId_none orderId' rows).
      2:{ eapply Forall_impl; [exact Hall|]. simpl. congruence. }
      rewrite app_nil_r, Nat.add_0_r. by apply Hsums.
Qed.

(** Records without units are inserted for an order of the ledger. *)
Lemma ledger_rows_only s s2 orderId rows :
  ledger_matches_records s ->
  known_order orderId (orders s) ->
  orders s2 = orders s ->
  shipments s2 = shipments s ++ rows ->
  Forall (fun row => Shipment.orderId row = orderId) rows ->
  (forall id, quantity_of id (shipped_in rows) = 0) ->
  ledger_matches_records s2.
Proof.
  intros [Hrows Hsums] Hknown Ho Hsh Hall Hzero.
  unfold ledger_matches_records. rewrite Ho, Hsh. split.
  - intros row Hin. apply elem_of_app in Hin as [Hin|Hin]; [by apply Hrows|].
    rewrite Forall_forall in Hall. by rewrite (Hall _ Hin).
  - intros orderId' order' Hfind. rewrite filter_app, shipped_in_app, length_app.
    destruct (Hsums _ _ Hfind) as [Hc Hq]. split; [lia|].
    intros id. rewrite Hq. unfold quantity_of. rewrite weighted_app.
    destruct (decide (orderId' = orderId)) as [->|Hne].
    + rewrite (filter_orderId_all _ _ Hall). specialize (Hzero id).
      unfold quantity_of in Hzero. lia.
    + rewrite (filter_orderId_none orderId' rows); [simpl; lia|].
      eapply Forall_impl; [exact Hall|]. simpl. congruence.
Qed.

Lemma collect_shipment_sums c cat orderId batch acc :
  weighted c acc.1 = weighted c (shipped_in acc.2) ->
  weighted c (foldl (FulfillmentService.collect_shipment cat orderId) acc batch).1
  = weighted c
      (shipped_in (foldl (FulfillmentService.collect_shipment cat orderId) acc batch).2).
Proof.
  revert acc. induction batch as [|shipmentItems batch IH]; intros acc Hacc; [done|].
  simpl. apply IH. unfold FulfillmentService.collect_shipment.
  destruct (_ >? _); [done|]. simpl.
  rewrite weighted_foldl_merge, shipped_in_app, weighted_app, Hacc.
  unfold shipped_in. simpl. by rewrite app_nil_r.
Qed.

Lemma collect_shipment_nonempty cat orderId batch acc :
  (acc.2 = [] -> acc.1 = []) ->
  (foldl (FulfillmentService.collect_shipment cat orderId) acc batch).2 = [] ->
  (foldl (FulfillmentService.collect_shipment cat orderId) acc batch).1 = [].
Proof.
  revert acc. induction batch as [|shipmentItems batch IH]; intros acc Hacc; [done|].
  simpl. apply IH. unfold FulfillmentService.collect_shipment.
  destruct (_ >? _); [done|]. simpl. intros H. by apply app_eq_nil in H as [_ ?].
Qed.

Lemma is_empty_nil {A} (l : list A) : FulfillmentService.is_empty l = true <-> l = [].
Proof. by destruct l. Qed.

Lemma shipPackage_ledger orderId items s :
  ledger_matches_records s -> known_order orderId (orders s) ->
  ledger_matches_records (FulfillmentService.shipPackage orderId items s).1.
Proof.
  intros Hs Hknown. rewrite shipPackage_eq. simpl. destruct (_ >? _); [exact Hs|].
  pose proof (reserveStock_frame items s) as (Ho & Hsh & _).
  destruct (InventoryService.reserveStock items s) as [s1 [[]|e]]; simpl in *;
    [|by apply (ledger_matches_same s)].
  set (row := Shipment.mk orderId items _).
  set (s2 := with_shipments s1 _).
  assert (Hcommit : ledger_matches_records
                      (OrderQueueService.updateOrderShipment orderId items s2).1).
  { apply (ledger_commit s s2 orderId items [row]);
      [exact Hs|exact Hknown|exact Ho|simpl; by rewrite Hsh|by repeat constructor
      |simpl; lia|].
    intros id. unfold shipped_in. simpl. by rewrite app_nil_r. }
  by destruct (OrderQueueService.updateOrderShipment orderId items s2) as [s3 [o|e]].
Qed.

Lemma process_batch_ledger orderId batch s :
  ledger_matches_records s -> known_order orderId (orders s) ->
  ledger_matches_records (FulfillmentService.process_batch orderId batch s).1.
Proof.
  intros Hs Hknown. rewrite process_batch_eq. simpl. set (acc := foldl _ _ batch).
  assert (Hrows : Forall (fun row => Shipment.orderId row = orderId) acc.2).
  { eapply Forall_impl; [apply collect_shipment_rows; constructor|]. by intros row [_ H]. }
  assert (Hsums : forall id, quantity_of id acc.1 = quantity_of id (shipped_in acc.2)).
  { intros id. by apply collect_shipment_sums. }
  assert (Hne : acc.2 = [] -> acc.1 = []) by (by apply collect_shipment_nonempty).
  assert (Hinsert : forall s1, orders s1 = orders s -> shipments s1 = shipments s ->
            let s2 := if FulfillmentService.is_empty acc.2 then s1
                      else with_shipments s1 (shipments s1 ++ acc.2) in
            orders s2 = orders s /\ shipments s2 = shipments s ++ acc.2).
  { intros s1 Ho Hsh. simpl. destruct (FulfillmentService.is_empty acc.2) eqn:E.
    - apply is_empty_nil in E. rewrite E, app_nil_r. auto.
    - simpl. by rewrite Hsh. }
  destruct (FulfillmentService.is_empty acc.1) eqn:Eempty.
  - apply is_empty_nil in Eempty. destruct (Hinsert s eq_refl eq_refl) as [Ho2 Hsh2].
    apply (ledger_rows_only s _ orderId acc.2);
      [exact Hs|exact Hknown|exact Ho2|exact Hsh2|exact Hrows|].
    intros id. rewrite <- Hsums, Eempty. done.
  - pose proof (reserveStock_frame acc.1 s) as (Ho & Hsh & _).
    destruct (InventoryService.reserveStock acc.1 s) as [s1 [[]|e]]; simpl in Ho, Hsh;
      [|by apply (ledger_matches_same s)].
    destruct (Hinsert s1 Ho Hsh) as [Ho2 Hsh2].
    set (s2 := if FulfillmentService.is_empty acc.2 then s1 else _) in *.
    assert (Hcommit : ledger_matches_records
                        (OrderQueueService.updateOrderShipment orderId acc.1 s2).1).
    { apply (ledger_commit s s2 orderId acc.1 acc.2);
        [exact Hs|exact Hknown|exact Ho2|exact Hsh2|exact Hrows| |exact Hsums].
      destruct acc.2 as [|row rows] eqn:E2; [|simpl; lia].
      rewrite (Hne eq_refl) in Eempty. discriminate. }
    by destruct (OrderQueueService.updateOrderShipment orderId acc.1 s2) as [s3 [o|e]].
Qed.

Lemma enqueueOrder_ledger now orderId requestedItems s :
  ledger_matches_records s ->
  ledger_matches_records (OrderQueueService.enqueueOrder now orderId requestedItems s).1.
Proof.
  intros [Hrows Hsums]. unfold ledger_matches_records, OrderQueueService.enqueueOrder.
  simpl. set (order := match OrderQueueService.findOne (orders s) orderId with
                       | Some _ => _ | None => _ end).
  assert (Hid : Order.orderId order = orderId).
  { unfold order. destruct (OrderQueueService.findOne (orders s) orderId) eqn:E; [|done].
    simpl. by apply findOne_orderId in E. }
  split; [intros row Hin; by apply save_known, Hrows|].
  intros orderId' order'.
  destruct (decide (orderId' = orderId)) as [->|Hne];
    [|rewrite findOne_save_other by (by rewrite Hid); apply Hsums].
  rewrite <- Hid at 1. rewrite findOne_save_same. intros [= <-]. unfold order.
  destruct (OrderQueueService.findOne (orders s) orderId) as [row|] eqn:E; simpl.
  - by apply Hsums.
  - rewrite filter_orderId_none; [done|].
    rewrite Forall_forall. intros row Hin Heq. destruct (Hrows _ Hin) as [? Hsome].
    congruence.
Qed.

Lemma reach_ledger_matches s :
  reach by_allocator initial_state s -> ledger_matches_records s.
Proof.
  apply (reach_invariant ledger_matches_records by_allocator).
  - intros orderId' items s1. apply shipPackage_ledger.
  - intros orderId' batch s1. apply process_batch_ledger.
  - intros now orderId' requestedItems s1. apply enqueueOrder_ledger.
  - intros restock s1 Hs. exact Hs.
  - intros productInfo s1 Hs. unfold InventoryService.initCatalog.
    by destruct (isInitialized s1).
  - intros s1 Hs. exact Hs.
  - intros items s1. pose proof (reserveStock_frame items s1) as (Ho & Hsh & _).
    by apply ledger_matches_same.
  - intros s1 orderId' items [].
  - split; [intros row Hin; by apply elem_of_nil in Hin|]. intros ? ? [=].
Qed.

(** In every state reached from the fresh process by the public operations
    ([updateOrderShipment] being left to the allocator), what [getOrderStatus]
    reports of an order adds up: the shipment records it lists are those of
    the order, at least as many as the shipments the order counts, and they
    hold, product by product, the quantities the order has as shipped. *)
Theorem order_status_adds_up s orderId order remaining rows :
  reach by_allocator initial_state s ->
  FulfillmentService.getOrderStatus orderId s = (Some order, remaining, rows) ->
  remaining = OrderQueueService.getRemainingItems order /\
  Forall (fun row => Shipment.orderId row = orderId) rows /\
  Order.totalShipments order <= Z.of_nat (length rows) /\
  forall id,
    OrderQueueService.shippedQuantity (Order.shippedItems order) id
    = quantity_of id (shipped_in rows).
Proof.
  intros Hreach. pose proof (reach_ledger_matches s Hreach) as Hinv.
  unfold FulfillmentService.getOrderStatus.
  destruct (OrderQueueService.findOne (orders s) orderId) as [row|] eqn:E; [|discriminate].
  intros [= <- <- <-]. destruct Hinv as [_ Hsums]. destruct (Hsums _ _ E) as [Hc Hq].
  split; [done|]. split; [|by split].
  apply list.Forall_forall. intros r Hin. by apply list_elem_of_filter in Hin as [? _].
Qed.

Lemma order_status_adds_up_witness :
  [] = OrderQueueService.getRemainingItems
         (Order.mk 1 [mkItem 0 2] [mkItem 0 2] FULFILLED 1 1) /\
  Forall (fun row => Shipment.orderId row = 1) [Shipment.mk 1 [mkItem 0 2] 1400] /\
  Order.totalShipments (Order.mk 1 [mkItem 0 2] [mkItem 0 2] FULFILLED 1 1)
  <= Z.of_nat (length [Shipment.mk 1 [mkItem 0 2] 1400]) /\
  forall id,
    OrderQueueService.shippedQuantity
      (Order.shippedItems (Order.mk 1 [mkItem 0 2] [mkItem 0 2] FULFILLED 1 1)) id
    = quantity_of id (shipped_in [Shipment.mk 1 [mkItem 0 2] 1400]).
Proof.
  apply (order_status_adds_up scenario9_state 1).
  - eapply (reach_step _ _ _ _ (OpProcessOrder 1 1 [Req.mk 0 2]) 10%nat (Ok tt)).
    + eapply (reach_step _ _ _ _ (OpProcessRestock [Req.mk 0 5]) 10%nat (Ok tt)).
      * eapply (reach_step _ _ _ _ (OpInitCatalog [product0]) 0%nat (Ok tt)).
        -- apply reach_refl.
        -- exact I.
        -- reflexivity.
      * exact I.
      * reflexivity.
    + exact I.
    + vm_compute. reflexivity.
  - reflexivity.
Defined.

(** ** An attempt ships what the stock allows *)

Lemma decreased_refl cat : decreased cat cat (fun _ => 0).
Proof.
  intros id. destruct (cat !! id) as [product|]; simpl; [|done].
  by rewrite Z.sub_0_r, set_stock_same.
Qed.

Lemma decreased_trans cat1 cat2 cat3 d1 d2 :
  decreased cat1 cat2 d1 -> decreased cat2 cat3 d2 ->
  decreased cat1 cat3 (fun id => d1 id + d2 id).
Proof.
  intros H1 H2 id. rewrite H2, H1. destruct (cat1 !! id) as [product|]; simpl; [|done].
  unfold InventoryService.set_stock. simpl. do 2 f_equal. lia.
Qed.

Lemma decreased_ext cat cat' d d' :
  (forall id, d id = d' id) -> decreased cat cat' d -> decreased cat cat' d'.
Proof. intros Hd H id. by rewrite H, Hd. Qed.

Lemma decreased_unit_mass cat cat' d id :
  decreased cat cat' d -> unit_mass cat' id = unit_mass cat id.
Proof. intros H. unfold unit_mass. rewrite H. by destruct (cat !! id). Qed.

Lemma decreased_stock cat cat' d id :
  decreased cat cat' d -> is_Some (cat !! id) ->
  InventoryService.getAvailableStock cat' id
  = InventoryService.getAvailableStock cat id - d id.
Proof.
  intros H [product E]. unfold InventoryService.getAvailableStock. by rewrite H, E.
Qed.

Lemma decreased_known cat cat' d id :
  decreased cat cat' d -> is_Some (cat' !! id) <-> is_Some (cat !! id).
Proof. intros H. rewrite H. by rewrite fmap_is_Some. Qed.

Lemma quantity_of_app id l1 l2 :
  quantity_of id (l1 ++ l2) = quantity_of id l1 + quantity_of id l2.
Proof. apply weighted_app. Qed.

Lemma positive_lines_nonneg items :
  positive_lines items -> Forall (fun it => 0 <= quantity it) items.
Proof. intros H. eapply Forall_impl; [exact H|]. intros it. simpl. lia. Qed.

Lemma reservable_app cat items1 items2 cat' :
  Forall (fun it => 0 <= quantity it) items1 ->
  Forall (fun it => 0 <= quantity it) items2 ->
  reservable cat (items1 ++ items2) ->
  decreased cat cat' (fun id => quantity_of id items1) ->
  reservable cat items1 /\ reservable cat' items2.
Proof.
  intros H1 H2 Hres Hdec. split; intros id Hin.
  - destruct (Hres id) as [Hsome Hle]; [rewrite map_app; apply elem_of_app; by left|].
    split; [done|]. rewrite quantity_of_app in Hle.
    pose proof (quantity_of_nonnegative id items2 H2). lia.
  - destruct (Hres id) as [Hsome Hle]; [rewrite map_app; apply elem_of_app; by right|].
    split; [by apply (decreased_known _ _ _ _ Hdec)|].
    rewrite (decreased_stock _ _ _ _ Hdec Hsome). rewrite quantity_of_app in Hle. lia.
Qed.

Lemma shipPackage_succeeds orderId items s :
  known_order orderId (orders s) ->
  within (catalog s) FulfillmentService.MAX_PACKAGE_WEIGHT_G items ->
  Forall (fun it => 0 <= quantity it) items ->
  reservable (catalog s) items ->
  exists s',
    FulfillmentService.shipPackage orderId items s = (s', Ok tt) /\
    decreased (catalog s) (catalog s') (fun id => quantity_of id items) /\
    recorded orderId items (orders s) (orders s').
Proof.
  intros [order Horder] Hwithin Hnonneg Hres. rewrite shipPackage_eq. simpl.
  unfold within in Hwithin. rewrite calculateShipmentWeight_weighted in Hwithin.
  rewrite calculateTotalMass_weighted.
  destruct (Z.gtb_spec (weighted (unit_mass (catalog s)) items)
              FulfillmentService.MAX_PACKAGE_WEIGHT_G); [lia|].
  unfold InventoryService.reserveStock.
  apply (reserve_loop_ok_iff items (catalog s) Hnonneg) in Hres.
  destruct (InventoryService.reserve_loop (catalog s) items) as [cat' r] eqn:E.
  simpl in Hres. subst r.
  set (s2 := with_shipments _ _).
  pose proof (updateOrderShipment_recorded orderId items s2) as Hrec.
  pose proof (updateOrderShipment_frame orderId items s2) as [Hcat _].
  unfold OrderQueueService.updateOrderShipment in *. simpl in *. rewrite Horder in *.
  simpl in *. eexists. split; [reflexivity|]. simpl. split; [|exact Hrec].
  intros id. by apply reserve_loop_lookup.
Qed.

Lemma for_each_shipPackage_succeeds orderId packages s :
  known_order orderId (orders s) ->
  Forall (within (catalog s) FulfillmentService.MAX_PACKAGE_WEIGHT_G) packages ->
  Forall positive_lines packages ->
  reservable (catalog s) (concat packages) ->
  exists s',
    FulfillmentService.for_each (FulfillmentService.shipPackage orderId) packages s
    = (s', Ok tt) /\
    decreased (catalog s) (catalog s') (fun id => quantity_of id (concat packages)) /\
    recorded orderId (concat packages) (orders s) (orders s').
Proof.
  intros Hknown Hwithin Hpos. revert s Hknown Hwithin.
  induction Hpos as [|pk packages Hpk Hpos IH]; intros s Hknown Hwithin Hres; simpl.
  - exists s. split; [done|]. split; [apply decreased_refl|apply recorded_refl].
  - apply Forall_cons in Hwithin as [Hw Hwithin]. cbn [concat] in Hres.
    assert (Hrest : Forall (fun it => 0 <= quantity it) (concat packages)).
    { apply Forall_concat. eapply Forall_impl; [exact Hpos|].
      intros pk'. apply positive_lines_nonneg. }
    pose proof (positive_lines_nonneg _ Hpk) as Hpk'.
    assert (Hres1 : reservable (catalog s) pk).
    { intros id Hin. destruct (Hres id) as [Hsome Hle];
        [rewrite map_app; apply elem_of_app; by left|].
      split; [done|]. rewrite quantity_of_app in Hle.
      pose proof (quantity_of_nonnegative id _ Hrest). lia. }
    destruct (shipPackage_succeeds orderId pk s Hknown Hw Hpk' Hres1)
      as (s1 & Hship & Hdec & Hrec).
    destruct (reservable_app _ _ _ _ Hpk' Hrest Hres Hdec) as [_ Hres2].
    destruct (IH s1) as (s' & Hrun & Hdec' & Hrec'); [| |exact Hres2|].
    + eapply recorded_known; eauto.
    + eapply Forall_impl; [exact Hwithin|]. intros pk' Hpk2. unfold within in *.
      rewrite calculateShipmentWeight_weighted in *.
      erewrite weighted_ext; [exact Hpk2|].
      intros id. by apply (decreased_unit_mass _ _ _ _ Hdec).
    + exists s'. unfold bind. rewrite Hship. split; [exact Hrun|]. split.
      * eapply decreased_ext; [|eapply decreased_trans; eauto].
        intros id. simpl. by rewrite quantity_of_app.
      * eapply recorded_trans; eauto.
Qed.

Lemma quantity_of_positive id items :
  positive_lines items -> id ∈ map productId items -> 0 < quantity_of id items.
Proof.
  induction 1 as [|x l Hx Hl IH]; [intros H; by apply elem_of_nil in H|].
  intros Hin. rewrite quantity_of_cons. cbn [map] in Hin.
  pose proof (quantity_of_nonnegative id l (positive_lines_nonneg _ Hl)).
  destruct (Z.eqb_spec (productId x) id) as [E|E]; [lia|].
  apply elem_of_cons in Hin as [Hin|Hin]; [congruence|]. specialize (IH Hin). lia.
Qed.

Lemma collect_all_within c cat orderId batch acc :
  Forall (within cat FulfillmentService.MAX_PACKAGE_WEIGHT_G) batch ->
  weighted c (foldl (FulfillmentService.collect_shipment cat orderId) acc batch).1
  = weighted c acc.1 + weighted c (concat batch).
Proof.
  intros Hall. revert acc. induction Hall as [|pk batch Hpk _ IH]; intros acc; simpl;
    [lia|].
  rewrite IH, weighted_app. unfold FulfillmentService.collect_shipment.
  unfold within in Hpk. rewrite calculateShipmentWeight_weighted in Hpk.
  rewrite calculateTotalMass_weighted.
  destruct (Z.gtb_spec (weighted (unit_mass cat) pk)
              FulfillmentService.MAX_PACKAGE_WEIGHT_G); [lia|].
  simpl. rewrite weighted_foldl_merge. lia.
Qed.

Lemma foldl_merge_positive items l :
  positive_lines l -> positive_lines items -> positive_lines (foldl merge_item l items).
Proof.
  intros Hl Hitems. revert l Hl. induction Hitems as [|it items Hit _ IH]; intros l Hl;
    simpl; [done|].
  apply IH. by apply merge_item_positive.
Qed.

Lemma collect_positive cat orderId batch acc :
  positive_lines acc.1 -> Forall positive_lines batch ->
  positive_lines (foldl (FulfillmentService.collect_shipment cat orderId) acc batch).1.
Proof.
  intros Hacc Hall. revert acc Hacc.
  induction Hall as [|pk batch Hpk _ IH]; intros acc Hacc; simpl; [done|].
  apply IH. unfold FulfillmentService.collect_shipment. destruct (_ >? _); [done|].
  simpl. by apply foldl_merge_positive.
Qed.

Lemma process_batch_succeeds orderId batch s :
  known_order orderId (orders s) ->
  Forall (within (catalog s) FulfillmentService.MAX_PACKAGE_WEIGHT_G) batch ->
  Forall positive_lines batch ->
  reservable (catalog s) (concat batch) ->
  exists s' items,
    FulfillmentService.process_batch orderId batch s = (s', Ok tt) /\
    decreased (catalog s) (catalog s') (fun id => quantity_of id (concat batch)) /\
    recorded orderId items (orders s) (orders s') /\
    forall id, quantity_of id items = quantity_of id (concat batch).
Proof.
  intros [order Horder] Hwithin Hpos Hres. rewrite process_batch_eq. simpl.
  set (acc := foldl _ _ batch).
  assert (Hsum : forall id, quantity_of id acc.1 = quantity_of id (concat batch)).
  { intros id. unfold quantity_of, acc. rewrite collect_all_within by done. simpl. lia. }
  assert (Hacc : positive_lines acc.1) by (apply collect_positive; [constructor|done]).
  destruct (FulfillmentService.is_empty acc.1) eqn:Eempty.
  - apply is_empty_nil in Eempty.
    assert (Hzero : forall id, quantity_of id (concat batch) = 0).
    { intros id. by rewrite <- Hsum, Eempty. }
    destruct (FulfillmentService.is_empty acc.2); eexists _, [];
      (split; [reflexivity|]); simpl;
      (split; [|split; [apply recorded_refl|intros id; by rewrite Hzero]]);
      (eapply decreased_ext; [|apply decreased_refl]); intros id; simpl;
      by rewrite Hzero.
  - assert (Hres' : reservable (catalog s) acc.1).
    { intros id Hin. pose proof (quantity_of_positive id _ Hacc Hin) as Hq.
      rewrite Hsum in Hq.
      destruct (decide (id ∈ map productId (concat batch))) as [Hin'|Hnot].
      - rewrite Hsum. by apply Hres.
      - rewrite (quantity_of_absent _ _ Hnot) in Hq. lia. }
    unfold InventoryService.reserveStock.
    apply (reserve_loop_ok_iff acc.1 (catalog s) (positive_lines_nonneg _ Hacc)) in Hres'.
    destruct (InventoryService.reserve_loop (catalog s) acc.1) as [cat' r] eqn:E.
    simpl in Hres'. subst r.
    set (s2 := if FulfillmentService.is_empty acc.2 then _ else _).
    assert (Ho2 : orders s2 = orders s /\ catalog s2 = cat').
    { unfold s2. by destruct (FulfillmentService.is_empty acc.2). }
    destruct Ho2 as [Ho2 Hc2].
    pose proof (updateOrderShipment_recorded orderId acc.1 s2) as Hrec.
    pose proof (updateOrderShipment_frame orderId acc.1 s2) as [Hcat _].
    unfold OrderQueueService.updateOrderShipment in *. rewrite Ho2, Horder in *.
    simpl in *. eexists _, acc.1. split; [reflexivity|]. simpl.
    split; [|split; [exact Hrec|exact Hsum]].
    rewrite Hc2. eapply decreased_ext; [exact Hsum|].
    intros id. by apply reserve_loop_lookup.
Qed.

Lemma batches_succeed orderId (bs : list (list (list Item))) s :
  known_order orderId (orders s) ->
  Forall (Forall (within (catalog s) FulfillmentService.MAX_PACKAGE_WEIGHT_G)) bs ->
  Forall (Forall positive_lines) bs ->
  reservable (catalog s) (concat (concat bs)) ->
  exists s' items,
    FulfillmentService.for_each (FulfillmentService.process_batch orderId) bs s
    = (s', Ok tt) /\
    decreased (catalog s) (catalog s') (fun id => quantity_of id (concat (concat bs))) /\
    recorded orderId items (orders s) (orders s') /\
    forall id, quantity_of id items = quantity_of id (concat (concat bs)).
Proof.
  intros Hknown Hwithin Hpos. revert s Hknown Hwithin.
  induction Hpos as [|batch bs Hb Hpos IH]; intros s Hknown Hwithin Hres; simpl.
  - exists s, []. split; [done|]. split; [apply decreased_refl|].
    split; [apply recorded_refl|done].
  - apply Forall_cons in Hwithin as [Hw Hwithin]. cbn [concat] in Hres.
    rewrite concat_app in Hres.
    assert (Hnonneg : forall packages : list (list Item),
               Forall positive_lines packages ->
               Forall (fun it => 0 <= quantity it) (concat packages)).
    { intros packages H. apply Forall_concat. eapply Forall_impl; [exact H|].
      intros pk'. apply positive_lines_nonneg. }
    assert (Hrest : Forall (fun it => 0 <= quantity it) (concat (concat bs))).
    { apply Hnonneg. by apply Forall_concat. }
    assert (Hres1 : reservable (catalog s) (concat batch)).
    { intros id Hin. destruct (Hres id) as [Hsome Hle];
        [rewrite map_app; apply elem_of_app; by left|].
      split; [done|]. rewrite quantity_of_app in Hle.
      pose proof (quantity_of_nonnegative id _ Hrest). lia. }
    destruct (process_batch_succeeds orderId batch s Hknown Hw Hb Hres1)
      as (s1 & items1 & Hship & Hdec & Hrec & Hsum).
    destruct (reservable_app _ _ _ _ (Hnonneg _ Hb) Hrest Hres Hdec) as [_ Hres2].
    destruct (IH s1) as (s' & items2 & Hrun & Hdec' & Hrec' & Hsum'); [| |exact Hres2|].
    + eapply recorded_known; eauto.
    + eapply Forall_impl; [exact Hwithin|]. intros b Hb'.
      eapply Forall_impl; [exact Hb'|]. intros pk' Hpk2. unfold within in *.
      rewrite calculateShipmentWeight_weighted in *.
      erewrite weighted_ext; [exact Hpk2|].
      intros id. by apply (decreased_unit_mass _ _ _ _ Hdec).
    + exists s', (items1 ++ items2). unfold bind. rewrite Hship.
      split; [exact Hrun|]. split; [|split].
      * eapply decreased_ext; [|eapply decreased_trans; eauto].
        intros id. simpl. by rewrite concat_app, quantity_of_app.
      * eapply recorded_trans; eauto.
      * intros id. by rewrite concat_app, !quantity_of_app, Hsum, Hsum'.
Qed.

Lemma batches_Forall (Q : list Item -> Prop) (allShipments : list (list Item)) :
  Forall Q allShipments -> Forall (Forall Q) (batches allShipments).
Proof.
  intros Hall. unfold batches. rewrite Forall_forall. intros batch Hin.
  apply list_elem_of_fmap in Hin as (i & -> & _). by apply Forall_take, Forall_drop.
Qed.

(** A pass over packages that are within the ceiling and that the stock
    covers succeeds in either mode: the stock goes down by the units of the
    packages, which are recorded for the order. *)
Lemma ship_all_succeeds orderId packages s :
  known_order orderId (orders s) ->
  Forall (within (catalog s) FulfillmentService.MAX_PACKAGE_WEIGHT_G) packages ->
  Forall positive_lines packages ->
  reservable (catalog s) (concat packages) ->
  exists s' items,
    FulfillmentService.ship_all orderId packages s = (s', Ok tt) /\
    decreased (catalog s) (catalog s') (fun id => quantity_of id (concat packages)) /\
    recorded orderId items (orders s) (orders s') /\
    forall id, quantity_of id items = quantity_of id (concat packages).
Proof.
  intros Hknown Hwithin Hpos Hres. unfold FulfillmentService.ship_all.
  destruct (_ <? _)%nat.
  - rewrite batchShipPackages_batches.
    pose proof (batches_succeed orderId (batches packages) s Hknown
                  (batches_Forall _ _ Hwithin) (batches_Forall _ _ Hpos)) as H.
    rewrite batches_concat in H. exact (H Hres).
  - destruct (for_each_shipPackage_succeeds orderId packages s Hknown Hwithin Hpos Hres)
      as (s' & Hrun & Hdec & Hrec).
    by exists s', (concat packages).
Qed.

Lemma getShippableItems_ids cat items :
  map productId (FulfillmentService.getShippableItems cat items)
  `sublist_of` map productId items.
Proof.
  induction items as [|x l IH]; simpl; [done|].
  destruct (_ >? _); simpl; [by apply sublist_skip|by apply sublist_cons].
Qed.

Lemma shippable_reservable cat items :
  NoDup (map productId items) ->
  reservable cat (FulfillmentService.getShippableItems cat items).
Proof.
  induction items as [|x l IH]; simpl; intros Hnd id Hin;
    [by apply elem_of_nil in Hin|].
  apply NoDup_cons in Hnd as [Hfresh Hnd]. revert Hin.
  destruct (Z.gtb_spec (Z.min (quantity x)
              (InventoryService.getAvailableStock cat (productId x))) 0) as [Hpos|];
    [|by apply IH].
  cbn [map productId]. intros Hin. rewrite quantity_of_cons. simpl.
  destruct (Z.eqb_spec (productId x) id) as [<-|Hne].
  - rewrite quantity_of_absent.
    2:{ intros H. apply Hfresh. eapply elem_of_sublist; [exact H|].
        apply getShippableItems_ids. }
    split; [|lia]. unfold InventoryService.getAvailableStock in Hpos.
    destruct (cat !! productId x); [eauto|lia].
  - apply elem_of_cons in Hin as [Hin|Hin]; [congruence|].
    destruct (IH Hnd id Hin) as [Hsome Hle]. split; [done|lia].
Qed.

Lemma shippable_quantity cat order id :
  NoDup (map productId (Order.requestedItems order)) ->
  quantity_of id (FulfillmentService.getShippableItems cat
                    (OrderQueueService.getRemainingItems order))
  = to_ship cat order id.
Proof.
  unfold to_ship, OrderQueueService.getRemainingItems.
  generalize (Order.shippedItems order) as shipped.
  generalize (Order.requestedItems order) as requested.
  induction requested as [|x l IH]; intros shipped Hnd.
  - by rewrite decide_False by apply not_elem_of_nil.
  - apply NoDup_cons in Hnd as [Hfresh Hnd]. specialize (IH shipped Hnd).
    cbn [OrderQueueService.remaining_of]. rewrite (quantity_of_cons id x l).
    assert (Hrest : id ∉ map productId l ->
              quantity_of id (FulfillmentService.getShippableItems cat
                                (OrderQueueService.remaining_of shipped l)) = 0).
    { intros Hnot. apply quantity_of_absent. intros H. apply Hnot.
      eapply elem_of_sublist; [|apply remaining_of_ids].
      eapply elem_of_sublist; [exact H|]. apply getShippableItems_ids. }
    destruct (Z.eqb_spec (productId x) id) as [E|E].
    + subst id. rewrite decide_True by (cbn [map]; by left).
      rewrite (quantity_of_absent _ l Hfresh), Z.add_0_r.
      destruct (Z.gtb_spec (quantity x
                  - OrderQueueService.shippedQuantity shipped (productId x)) 0).
      * cbn [FulfillmentService.getShippableItems productId quantity].
        destruct (Z.gtb_spec
                    (Z.min (quantity x
                            - OrderQueueService.shippedQuantity shipped (productId x))
                       (InventoryService.getAvailableStock cat (productId x))) 0).
        -- rewrite quantity_of_cons. simpl. rewrite Z.eqb_refl, (Hrest Hfresh). lia.
        -- rewrite (Hrest Hfresh). lia.
      * rewrite (Hrest Hfresh). lia.
    + assert (Hiff : id ∈ map productId (x :: l) <-> id ∈ map productId l).
      { cbn [map]. rewrite elem_of_cons. split; [intros [?|?]; [congruence|done]|auto]. }
      assert (Hskip : quantity_of id
                        (FulfillmentService.getShippableItems cat
                           (if quantity x
                               - OrderQueueService.shippedQuantity shipped (productId x)
                               >? 0
                            then mkItem (productId x)
                                   (quantity x
                                    - OrderQueueService.shippedQuantity shipped
                                        (productId x))
                                 :: OrderQueueService.remaining_of shipped l
                            else OrderQueueService.remaining_of shipped l))
                      = quantity_of id
                          (FulfillmentService.getShippableItems cat
                             (OrderQueueService.remaining_of shipped l))).
      { destruct (_ >? _); [|done].
        cbn [FulfillmentService.getShippableItems productId quantity].
        destruct (_ >? _); [|done]. rewrite quantity_of_cons. simpl.
        destruct (Z.eqb_spec (productId x) id); [congruence|lia]. }
      rewrite Hskip, IH.
      destruct (decide (id ∈ map productId l)) as [Hin|Hnot].
      * rewrite decide_True by (by apply Hiff). lia.
      * rewrite decide_False by (by rewrite Hiff). done.
Qed.

Lemma attemptFulfillment_exact fuel order s :
  OrderQueueService.findOne (orders s) (Order.orderId order) = Some order ->
  NoDup (map productId (Order.requestedItems order)) ->
  Forall (fun it => 0 <= unit_mass (catalog s) (productId it)
                    <= FulfillmentService.MAX_PACKAGE_WEIGHT_G)
         (Order.requestedItems order) ->
  (enough_fuel (FulfillmentService.getShippableItems (catalog s)
                  (OrderQueueService.getRemainingItems order)) <= fuel)%nat ->
  exists s' order',
    FulfillmentService.attemptFulfillment fuel order s = Some (s', Ok tt) /\
    OrderQueueService.findOne (orders s') (Order.orderId order) = Some order' /\
    Order.requestedItems order' = Order.requestedItems order /\
    (forall id,
       InventoryService.getAvailableStock (catalog s') id
       = InventoryService.getAvailableStock (catalog s) id - to_ship (catalog s) order id) /\
    (forall id,
       OrderQueueService.shippedQuantity (Order.shippedItems order') id
       = OrderQueueService.shippedQuantity (Order.shippedItems order) id
         + to_ship (catalog s) order id) /\
    (forall other, other <> Order.orderId order ->
       OrderQueueService.findOne (orders s') other
       = OrderQueueService.findOne (orders s) other).
Proof.
  intros Hrow Hnd Hmass Hfuel.
  pose proof (fun id => shippable_quantity (catalog s) order id Hnd) as Hq.
  unfold FulfillmentService.attemptFulfillment.
  set (remaining := OrderQueueService.getRemainingItems order) in *.
  set (shippable := FulfillmentService.getShippableItems (catalog s) remaining) in *.
  assert (Hnothing : shippable = [] ->
            exists s' order',
              Some (s, @Ok unit tt) = Some (s', Ok tt) /\
              OrderQueueService.findOne (orders s') (Order.orderId order) = Some order' /\
              Order.requestedItems order' = Order.requestedItems order /\
              (forall id,
                 InventoryService.getAvailableStock (catalog s') id
                 = InventoryService.getAvailableStock (catalog s) id
                   - to_ship (catalog s) order id) /\
              (forall id,
                 OrderQueueService.shippedQuantity (Order.shippedItems order') id
                 = OrderQueueService.shippedQuantity (Order.shippedItems order) id
                   + to_ship (catalog s) order id) /\
              (forall other, other <> Order.orderId order ->
                 OrderQueueService.findOne (orders s') other
                 = OrderQueueService.findOne (orders s) other)).
  { intros Hempty. exists s, order. rewrite Hempty in Hq.
    repeat split; auto; intros id; rewrite <- Hq; unfold quantity_of; simpl; lia. }
  destruct (FulfillmentService.is_empty remaining) eqn:Erem.
  { apply Hnothing. apply is_empty_nil in Erem. unfold shippable. by rewrite Erem. }
  destruct (FulfillmentService.is_empty shippable) eqn:Eship.
  { apply Hnothing. by apply is_empty_nil. }
  clear Hnothing.
  assert (Hids : forall id, id ∈ map productId shippable ->
                            id ∈ map productId (Order.requestedItems order)).
  { intros id Hin. eapply elem_of_sublist; [|apply remaining_of_ids].
    eapply elem_of_sublist; [exact Hin|]. apply getShippableItems_ids. }
  assert (Hlight : Forall (fun it => 0 <= unit_mass (catalog s) (productId it)
                                     <= FulfillmentService.MAX_PACKAGE_WEIGHT_G) shippable).
  { rewrite Forall_forall in Hmass. rewrite Forall_forall. intros it Hin.
    assert (Hid : productId it ∈ map productId (Order.requestedItems order)).
    { apply Hids. apply list_elem_of_fmap. eauto. }
    apply list_elem_of_fmap in Hid as (it' & -> & Hin'). by apply Hmass. }
  assert (Hmax : 0 < FulfillmentService.MAX_PACKAGE_WEIGHT_G) by done.
  destruct (packShipment_terminates fuel (catalog s) shippable
              FulfillmentService.MAX_PACKAGE_WEIGHT_G Hmax) as [packages Hpack];
    [by eapply Forall_impl; [exact Hlight|]; simpl; intros; lia|exact Hfuel|].
  rewrite Hpack.
  destruct (packShipment_result _ _ _ _ _ Hmax Hpack) as (Hwithin & Hpos & _ & Heq).
  specialize (Heq Hlight).
  rewrite (filter_kept_all (catalog s) shippable
             (getShippableItems_kept (catalog s) remaining)) in Heq.
  assert (Hres : reservable (catalog s) (concat packages)).
  { intros id Hin.
    assert (Hqpos : 0 < quantity_of id (concat packages)).
    { apply quantity_of_positive; [|done]. by apply Forall_concat. }
    unfold quantity_of in Hqpos |- *. rewrite Heq in Hqpos |- *.
    apply shippable_reservable.
    - eapply sublist_NoDup; [exact Hnd|]. apply remaining_of_ids.
    - destruct (decide (id ∈ map productId shippable)) as [Hin'|Hnot]; [done|].
      pose proof (quantity_of_absent _ _ Hnot) as Hz. unfold quantity_of in Hz. lia. }
  destruct (ship_all_succeeds (Order.orderId order) packages s
              ltac:(by exists order) Hwithin Hpos Hres)
    as (s' & items & Hrun & Hdec & Hrec & Hsum).
  unfold recorded in Hrec. rewrite Hrow in Hrec.
  destruct Hrec as (order' & Hsave & Hid & Hreq & _ & Hshipped).
  assert (Hpacked : forall id, quantity_of id (concat packages) = to_ship (catalog s) order id).
  { intros id. rewrite <- Hq. apply Heq. }
  exists s', order'. rewrite Hrun. split; [done|]. split; [|split; [exact Hreq|split; [|split]]].
  - rewrite Hsave, <- Hid. apply findOne_save_same.
  - intros id. rewrite <- Hpacked.
    destruct (catalog s !! id) as [product|] eqn:E.
    + by apply (decreased_stock _ _ _ _ Hdec).
    + unfold InventoryService.getAvailableStock. rewrite Hdec, E. simpl.
      rewrite quantity_of_absent; [done|]. intros Hin.
      destruct (Hres id Hin) as [[? Hsome] _]. congruence.
  - intros id. by rewrite Hshipped, Hsum, Hpacked.
  - intros other Hne. rewrite Hsave. apply findOne_save_other. by rewrite Hid.
Qed.

(** One attempt on an order of the ledger that names each product in one
    line, the unit masses of its products being between 0 and the ceiling:
    given fuel for the largest quantity, the attempt does not throw; it takes
    from the stock, and records as shipped for the order, of every product
    what remains of it as far as the stock goes, and it changes no other
    order. *)
Theorem attemptFulfillment_ships_what_stock_allows fuel order s :
  OrderQueueService.findOne (orders s) (Order.orderId order) = Some order ->
  NoDup (map productId (Order.requestedItems order)) ->
  Forall (fun it => 0 <= unit_mass (catalog s) (productId it)
                    <= FulfillmentService.MAX_PACKAGE_WEIGHT_G)
         (Order.requestedItems order) ->
  (enough_fuel (FulfillmentService.getShippableItems (catalog s)
                  (OrderQueueService.getRemainingItems order)) <= fuel)%nat ->
  exists s' order',
    FulfillmentService.attemptFulfillment fuel order s = Some (s', Ok tt) /\
    OrderQueueService.findOne (orders s') (Order.orderId order) = Some order' /\
    Order.requestedItems order' = Order.requestedItems order /\
    (forall id,
       InventoryService.getAvailableStock (catalog s') id
       = InventoryService.getAvailableStock (catalog s) id - to_ship (catalog s) order id) /\
    (forall id,
       OrderQueueService.shippedQuantity (Order.shippedItems order') id
       = OrderQueueService.shippedQuantity (Order.shippedItems order) id
         + to_ship (catalog s) order id) /\
    (forall other, other <> Order.orderId order ->
       OrderQueueService.findOne (orders s') other
       = OrderQueueService.findOne (orders s) other).
Proof. apply attemptFulfillment_exact. Qed.

Lemma attemptFulfillment_ships_what_stock_allows_witness :
  exists s' order',
    FulfillmentService.attemptFulfillment 101 (Order.mk 1 [mkItem 0 101] [] PENDING 0 1)
      state_101
    = Some (s', Ok tt) /\
    OrderQueueService.findOne (orders s') 1 = Some order' /\
    Order.requestedItems order' = [mkItem 0 101] /\
    (forall id,
       InventoryService.getAvailableStock (catalog s') id
       = InventoryService.getAvailableStock (catalog state_101) id
         - to_ship (catalog state_101) (Order.mk 1 [mkItem 0 101] [] PENDING 0 1) id) /\
    (forall id,
       OrderQueueService.shippedQuantity (Order.shippedItems order') id
       = OrderQueueService.shippedQuantity [] id
         + to_ship (catalog state_101) (Order.mk 1 [mkItem 0 101] [] PENDING 0 1) id) /\
    (forall other, other <> 1 ->
       OrderQueueService.findOne (orders s') other
       = OrderQueueService.findOne (orders state_101) other).
Proof.
  apply (attemptFulfillment_ships_what_stock_allows 101
           (Order.mk 1 [mkItem 0 101] [] PENDING 0 1) state_101).
  - reflexivity.
  - apply (bool_decide_unpack _). vm_compute. reflexivity.
  - repeat constructor; vm_compute; discriminate.
  - vm_compute. lia.
Defined.

(** ** A new order *)

Lemma updateOrderShipment_settled orderId items s s' updated :
  OrderQueueService.updateOrderShipment orderId items s = (s', Ok updated) ->
  status_settled updated.
Proof.
  unfold OrderQueueService.updateOrderShipment.
  destruct (OrderQueueService.findOne (orders s) orderId) as [order|]; [|discriminate].
  set (shipped := foldl merge_item (Order.shippedItems order) items).
  set (counted := Order.mk _ _ shipped (Order.status order) _ _).
  assert (Hiff : OrderQueueService.isOrderFulfilled counted = true
                 <-> OrderQueueService.remaining_of shipped (Order.requestedItems order)
                     = []) by apply remaining_of_nil.
  intros [= _ <-]. unfold status_settled, OrderQueueService.getRemainingItems. simpl.
  destruct (OrderQueueService.isOrderFulfilled counted).
  - split; split.
    + intros _. by apply Hiff.
    + done.
    + discriminate.
    + intros H. exfalso. apply H. by apply Hiff.
  - split; split.
    + discriminate.
    + intros H. apply Hiff in H. discriminate.
    + intros _ Hnil. apply Hiff in Hnil. discriminate.
    + done.
Qed.

(** After an attempt, the row of an order is the row it was or has a
    settled status. *)
Lemma attemptFulfillment_settles fuel order s s' r orderId row' :
  FulfillmentService.attemptFulfillment fuel order s = Some (s', r) ->
  OrderQueueService.findOne (orders s') orderId = Some row' ->
  OrderQueueService.findOne (orders s) orderId = Some row' \/ status_settled row'.
Proof.
  intros Hrun.
  set (PO := fun os : list Order.t =>
               forall row', OrderQueueService.findOne os orderId = Some row' ->
                 OrderQueueService.findOne (orders s) orderId = Some row' \/
                 status_settled row').
  assert (Hupdate : forall orderId' items s1,
             PO (orders s1) ->
             PO (orders (OrderQueueService.updateOrderShipment orderId' items s1).1)).
  { intros orderId' items s1 H1 row.
    destruct (OrderQueueService.updateOrderShipment orderId' items s1) as [s2 [updated|e]]
      eqn:E.
    - pose proof (updateOrderShipment_settled _ _ _ _ _ E) as Hsettled.
      revert E. unfold OrderQueueService.updateOrderShipment.
      destruct (OrderQueueService.findOne (orders s1) orderId') as [order1|] eqn:E1;
        [|discriminate].
      intros [= <- Hu]. simpl. rewrite Hu.
      destruct (decide (orderId = Order.orderId updated)) as [->|Hne].
      + rewrite findOne_save_same. intros [= <-]. by right.
      + rewrite findOne_save_other by done. apply H1.
    - revert E. unfold OrderQueueService.updateOrderShipment.
      destruct (OrderQueueService.findOne (orders s1) orderId'); [discriminate|].
      intros [= <- _]. apply H1. }
  enough (H : PO (orders s')) by apply H.
  assert (H0 : PO (orders s)) by (intros row; auto).
  revert Hrun. unfold FulfillmentService.attemptFulfillment.
  destruct (FulfillmentService.is_empty _); [by intros [= <- _]|].
  destruct (FulfillmentService.is_empty _); [by intros [= <- _]|].
  destruct (packShipment _ _ _ _) as [packages|]; [|done].
  intros [= Hrun].
  assert (Hpass : PO (orders (FulfillmentService.ship_all (Order.orderId order)
                                packages s).1)).
  { unfold FulfillmentService.ship_all, FulfillmentService.batchShipPackages.
    destruct (_ <? _)%nat;
      apply (preserves_for_each (fun s1 => PO (orders s1))); try exact H0; intros x s1 H1.
    - by apply orders_process_batch.
    - by apply orders_shipPackage. }
  by rewrite Hrun in Hpass.
Qed.

Lemma remaining_of_nil_iff shipped requested :
  OrderQueueService.remaining_of shipped requested = []
  <-> Forall (fun x => quantity x <= OrderQueueService.shippedQuantity shipped (productId x))
             requested.
Proof.
  induction requested as [|x l IH]; simpl; [done|].
  destruct (Z.gtb_spec (quantity x
                        - OrderQueueService.shippedQuantity shipped (productId x)) 0)
    as [Hpos|Hle].
  - split; [discriminate|]. intros H. apply Forall_cons in H as [H _]. lia.
  - rewrite IH. split; [intros H; constructor; [lia|done]|].
    intros H. by apply Forall_cons in H as [_ H].
Qed.

Lemma getShippableItems_nil_iff cat items :
  positive_lines items ->
  FulfillmentService.getShippableItems cat items = []
  <-> Forall (fun x => InventoryService.getAvailableStock cat (productId x) <= 0) items.
Proof.
  induction 1 as [|x l Hx _ IH]; simpl; [done|].
  destruct (Z.gtb_spec (Z.min (quantity x)
              (InventoryService.getAvailableStock cat (productId x))) 0) as [Hpos|Hle].
  - split; [discriminate|]. intros H. apply Forall_cons in H as [H _]. lia.
  - rewrite IH. split; [intros H; constructor; [lia|done]|].
    intros H. by apply Forall_cons in H as [_ H].
Qed.

Lemma remaining_of_nothing_shipped requested :
  positive_lines requested -> OrderQueueService.remaining_of [] requested = requested.
Proof.
  induction 1 as [|x l Hx _ IH]; cbn [OrderQueueService.remaining_of]; [done|].
  change (OrderQueueService.shippedQuantity [] (productId x)) with 0.
  rewrite Z.sub_0_r. destruct (Z.gtb_spec (quantity x) 0); [|lia].
  rewrite IH. by destruct x.
Qed.

Lemma enough_fuel_shippable cat items :
  (enough_fuel (FulfillmentService.getShippableItems cat items) <= enough_fuel items)%nat.
Proof.
  induction items as [|x l IH]; simpl; [done|].
  destruct (_ >? _); simpl; lia.
Qed.

Lemma quantity_of_line items x :
  NoDup (map productId items) -> x ∈ items ->
  quantity_of (productId x) items = quantity x.
Proof.
  induction items as [|y l IH]; [intros _ H; by apply elem_of_nil in H|].
  cbn [map]. intros Hnd Hin. apply NoDup_cons in Hnd as [Hfresh Hnd].
  rewrite quantity_of_cons. apply elem_of_cons in Hin as [->|Hin].
  - rewrite Z.eqb_refl, (quantity_of_absent _ _ Hfresh). lia.
  - destruct (Z.eqb_spec (productId y) (productId x)) as [E|E]; [|by rewrite IH].
    exfalso. apply Hfresh. rewrite E. apply list_elem_of_fmap. eauto.
Qed.

Lemma to_ship_line cat order x :
  NoDup (map productId (Order.requestedItems order)) ->
  x ∈ Order.requestedItems order ->
  to_ship cat order (productId x)
  = Z.max 0
      (Z.min (quantity x
              - OrderQueueService.shippedQuantity (Order.shippedItems order) (productId x))
             (InventoryService.getAvailableStock cat (productId x))).
Proof.
  intros Hnd Hin. unfold to_ship.
  rewrite decide_True by (apply list_elem_of_fmap; eauto).
  by rewrite quantity_of_line.
Qed.

Lemma settled_not_pending order : status_settled order -> Order.status order <> PENDING.
Proof.
  intros [Hf Hp] Hs.
  destruct (OrderQueueService.getRemainingItems order) eqn:E.
  - destruct Hf as [_ Hf]. rewrite Hf in Hs; [discriminate|done].
  - destruct Hp as [_ Hp]. rewrite Hp in Hs; [discriminate|done].
Qed.

(** [processOrder] for an order identifier that is new to the ledger, with
    at least one line, each product in one line only, positive quantities and
    unit masses between 0 and the ceiling: given fuel for the largest
    quantity, it does not throw; of every product it ships the requested
    quantity as far as the stock goes, and takes as much from the stock; the
    order ends FULFILLED exactly when the stock covered every line, PENDING
    exactly when no product requested was in stock, and no other order is
    changed. *)
Theorem processOrder_new_order fuel now order_id requested s :
  OrderQueueService.findOne (orders s) order_id = None ->
  requested <> [] ->
  NoDup (map Req.product_id requested) ->
  Forall (fun line =>
            0 < Req.quantity line /\
            0 <= unit_mass (catalog s) (Req.product_id line)
            <= FulfillmentService.MAX_PACKAGE_WEIGHT_G) requested ->
  (enough_fuel (OrderQueueService.to_items requested) <= fuel)%nat ->
  exists s' order',
    FulfillmentService.processOrder fuel now order_id requested s = Some (s', Ok tt) /\
    OrderQueueService.findOne (orders s') order_id = Some order' /\
    Order.requestedItems order' = OrderQueueService.to_items requested /\
    (forall line, line ∈ requested ->
       OrderQueueService.shippedQuantity (Order.shippedItems order') (Req.product_id line)
       = Z.max 0 (Z.min (Req.quantity line)
                    (InventoryService.getAvailableStock (catalog s) (Req.product_id line))) /\
       InventoryService.getAvailableStock (catalog s') (Req.product_id line)
       = InventoryService.getAvailableStock (catalog s) (Req.product_id line)
         - Z.max 0 (Z.min (Req.quantity line)
                      (InventoryService.getAvailableStock (catalog s)
                         (Req.product_id line)))) /\
    (forall id, id ∉ map Req.product_id requested ->
       InventoryService.getAvailableStock (catalog s') id
       = InventoryService.getAvailableStock (catalog s) id) /\
    (Order.status order' = FULFILLED
     <-> Forall (fun line =>
                   Req.quantity line
                   <= InventoryService.getAvailableStock (catalog s) (Req.product_id line))
                requested) /\
    (Order.status order' = PENDING
     <-> Forall (fun line =>
                   InventoryService.getAvailableStock (catalog s) (Req.product_id line)
                   <= 0) requested) /\
    (forall other, other <> order_id ->
       OrderQueueService.findOne (orders s') other
       = OrderQueueService.findOne (orders s) other).
Proof.
  intros Hfresh Hne Hnd Hlines Hfuel.
  set (items := OrderQueueService.to_items requested) in *.
  set (order0 := Order.mk order_id items [] PENDING 0 now).
  set (s0 := with_orders s (OrderQueueService.save (orders s) order0)).
  assert (Hids : map productId items = map Req.product_id requested).
  { unfold items, OrderQueueService.to_items. rewrite map_map. done. }
  assert (Hpos : positive_lines items).
  { apply to_items_positive. eapply Forall_impl; [exact Hlines|]. by intros line [? _]. }
  assert (Hline : forall line, line ∈ requested ->
                    mkItem (Req.product_id line) (Req.quantity line) ∈ items).
  { intros line Hin. unfold items, OrderQueueService.to_items.
    apply list_elem_of_fmap. eauto. }
  assert (Hrem : OrderQueueService.getRemainingItems order0 = items).
  { by apply remaining_of_nothing_shipped. }
  assert (Hrow0 : OrderQueueService.findOne (orders s0) order_id = Some order0).
  { apply (findOne_save_same (orders s) order0). }
  unfold FulfillmentService.processOrder, OrderQueueService.enqueueOrder.
  rewrite Hfresh. fold items order0 s0.
  destruct (attemptFulfillment_exact fuel order0 s0)
    as (s' & order' & Hrun & Hrow & Hreq & Hstock & Hshipped & Hother).
  { exact Hrow0. }
  { simpl. by rewrite Hids. }
  { simpl. unfold items, OrderQueueService.to_items. rewrite Forall_fmap.
    eapply Forall_impl; [exact Hlines|]. by intros line [_ ?]. }
  { rewrite Hrem. etrans; [apply enough_fuel_shippable|exact Hfuel]. }
  simpl in Hrow, Hreq, Hstock, Hshipped, Hother.
  assert (Hto : forall line, line ∈ requested ->
            to_ship (catalog s) order0 (Req.product_id line)
            = Z.max 0 (Z.min (Req.quantity line)
                         (InventoryService.getAvailableStock (catalog s)
                            (Req.product_id line)))).
  { intros line Hin.
    pose proof (to_ship_line (catalog s) order0
                  (mkItem (Req.product_id line) (Req.quantity line))) as H.
    simpl in H. rewrite H; [|by rewrite Hids|by apply Hline].
    unfold OrderQueueService.shippedQuantity. simpl. by rewrite Z.sub_0_r. }
  assert (Hsettled : order' = order0 \/ status_settled order').
  { destruct (attemptFulfillment_settles _ _ _ _ _ order_id order' Hrun Hrow) as [H|H];
      [left|by right]. rewrite Hrow0 in H. by injection H. }
  assert (Hq : forall line, line ∈ requested -> 0 < Req.quantity line).
  { rewrite Forall_forall in Hlines. intros line Hin. by destruct (Hlines _ Hin). }
  assert (Hship0 : forall line, line ∈ requested ->
            OrderQueueService.shippedQuantity (Order.shippedItems order')
              (Req.product_id line)
            = Z.max 0 (Z.min (Req.quantity line)
                         (InventoryService.getAvailableStock (catalog s)
                            (Req.product_id line)))).
  { intros line Hin. rewrite Hshipped, (Hto _ Hin).
    unfold OrderQueueService.shippedQuantity. simpl. lia. }
  exists s', order'. split; [exact Hrun|]. split; [exact Hrow|]. split; [exact Hreq|].
  split; [|split; [|split; [|split]]].
  - intros line Hin. split; [by apply Hship0|]. by rewrite Hstock, (Hto _ Hin).
  - intros id Hnot. rewrite Hstock. unfold to_ship. simpl.
    rewrite Hids, decide_False by done. lia.
  - split.
    + intros Hstatus. destruct Hsettled as [->|[[Hf _] _]]; [discriminate|].
      specialize (Hf Hstatus). unfold OrderQueueService.getRemainingItems in Hf.
      rewrite Hreq in Hf. apply remaining_of_nil_iff in Hf.
      rewrite Forall_forall in Hf. rewrite Forall_forall. intros line Hin.
      specialize (Hf _ (Hline _ Hin)). simpl in Hf. rewrite (Hship0 _ Hin) in Hf.
      specialize (Hq _ Hin). lia.
    + intros Hall. rewrite Forall_forall in Hall.
      assert (Hfull : forall line, line ∈ requested ->
                OrderQueueService.shippedQuantity (Order.shippedItems order')
                  (Req.product_id line) = Req.quantity line).
      { intros line Hin. rewrite (Hship0 _ Hin). specialize (Hall _ Hin).
        specialize (Hq _ Hin). lia. }
      destruct Hsettled as [->|[[_ Hf] _]].
      * destruct requested as [|line l]; [done|].
        specialize (Hfull line ltac:(left)). specialize (Hq line ltac:(left)).
        unfold OrderQueueService.shippedQuantity in Hfull. simpl in Hfull. lia.
      * apply Hf. unfold OrderQueueService.getRemainingItems. rewrite Hreq.
        apply remaining_of_nil_iff. unfold items, OrderQueueService.to_items.
        rewrite Forall_fmap, Forall_forall. intros line Hin. simpl.
        by rewrite (Hfull _ Hin).
  - split.
    + intros Hstatus. destruct Hsettled as [->|Hs];
        [|by apply settled_not_pending in Hs].
      rewrite Forall_forall. intros line Hin. specialize (Hship0 _ Hin).
      unfold OrderQueueService.shippedQuantity in Hship0. simpl in Hship0.
      specialize (Hq _ Hin). lia.
    + intros Hall.
      assert (Hsame : FulfillmentService.attemptFulfillment fuel order0 s0
                      = Some (s0, Ok tt)).
      { apply attemptFulfillment_nothing. rewrite Hrem. unfold items.
        unfold OrderQueueService.to_items. by rewrite Forall_fmap. }
      rewrite Hsame in Hrun. injection Hrun as <-. rewrite Hrow0 in Hrow.
      by injection Hrow as <-.
  - intros other Hneq. rewrite (Hother _ Hneq). by apply findOne_save_other.
Qed.

Lemma processOrder_new_order_witness :
  exists s' order',
    FulfillmentService.processOrder 3 7 1 [Req.mk 0 3; Req.mk 1 2] state_short
    = Some (s', Ok tt) /\
    OrderQueueService.findOne (orders s') 1 = Some order' /\
    Order.requestedItems order' = OrderQueueService.to_items [Req.mk 0 3; Req.mk 1 2] /\
    (forall line, line ∈ [Req.mk 0 3; Req.mk 1 2] ->
       OrderQueueService.shippedQuantity (Order.shippedItems order') (Req.product_id line)
       = Z.max 0 (Z.min (Req.quantity line)
                    (InventoryService.getAvailableStock (catalog state_short)
                       (Req.product_id line))) /\
       InventoryService.getAvailableStock (catalog s') (Req.product_id line)
       = InventoryService.getAvailableStock (catalog state_short) (Req.product_id line)
         - Z.max 0 (Z.min (Req.quantity line)
                      (InventoryService.getAvailableStock (catalog state_short)
                         (Req.product_id line)))) /\
    (forall id, id ∉ map Req.product_id [Req.mk 0 3; Req.mk 1 2] ->
       InventoryService.getAvailableStock (catalog s') id
       = InventoryService.getAvailableStock (catalog state_short) id) /\
    (Order.status order' = FULFILLED
     <-> Forall (fun line =>
                   Req.quantity line
                   <= InventoryService.getAvailableStock (catalog state_short)
                        (Req.product_id line))
                [Req.mk 0 3; Req.mk 1 2]) /\
    (Order.status order' = PENDING
     <-> Forall (fun line =>
                   InventoryService.getAvailableStock (catalog state_short)
                     (Req.product_id line) <= 0) [Req.mk 0 3; Req.mk 1 2]) /\
    (forall other, other <> 1 ->
       OrderQueueService.findOne (orders s') other
       = OrderQueueService.findOne (orders state_short) other).
Proof.
  apply (processOrder_new_order 3 7 1 [Req.mk 0 3; Req.mk 1 2] state_short).
  - reflexivity.
  - discriminate.
  - apply (bool_decide_unpack _). vm_compute. reflexivity.
  - repeat constructor; vm_compute; discriminate.
  - vm_compute. lia.
Defined.


(** ** A restock that does not throw *)

Lemma attemptFulfillment_unit_mass fuel order s s' r cat0 :
  (forall id, unit_mass (catalog s) id = unit_mass cat0 id) ->
  FulfillmentService.attemptFulfillment fuel order s = Some (s', r) ->
  forall id, unit_mass (catalog s') id = unit_mass cat0 id.
Proof.
  apply (attemptFulfillment_keeps
           (fun s => forall id, unit_mass (catalog s) id = unit_mass cat0 id)); [done|done|].
  intros items s1 H1 id.
  destruct (reserveStock_frame items s1) as (_ & _ & Hm). by rewrite Hm.
Qed.

Lemma attemptFulfillment_orders (PO : list Order.t -> Prop) fuel order s s' r :
  (forall orderId items s1,
     PO (orders s1) ->
     PO (orders (OrderQueueService.updateOrderShipment orderId items s1).1)) ->
  PO (orders s) ->
  FulfillmentService.attemptFulfillment fuel order s = Some (s', r) ->
  PO (orders s').
Proof.
  intros Hupdate H0. unfold FulfillmentService.attemptFulfillment.
  destruct (FulfillmentService.is_empty _); [by intros [= <- _]|].
  destruct (FulfillmentService.is_empty _); [by intros [= <- _]|].
  destruct (packShipment _ _ _ _) as [packages|]; [|done].
  intros [= Hrun].
  assert (Hpass : PO (orders (FulfillmentService.ship_all (Order.orderId order)
                                packages s).1)).
  { unfold FulfillmentService.ship_all, FulfillmentService.batchShipPackages.
    destruct (_ <? _)%nat;
      apply (preserves_for_each (fun s1 => PO (orders s1))); try exact H0; intros x s1 H1.
    - by apply orders_process_batch.
    - by apply orders_shipPackage. }
  by rewrite Hrun in Hpass.
Qed.

Lemma attemptFulfillment_ids fuel order s s' r :
  FulfillmentService.attemptFulfillment fuel order s = Some (s', r) ->
  map Order.orderId (orders s') = map Order.orderId (orders s).
Proof.
  apply (attemptFulfillment_orders
           (fun os => map Order.orderId os = map Order.orderId (orders s))); [|done].
  intros orderId items s1 H1.
  by rewrite (recorded_ids _ _ _ _ (updateOrderShipment_recorded orderId items s1)).
Qed.

Lemma attempt_each_succeeds fuel cat0 pendingOrders s :
  NoDup (map Order.orderId pendingOrders) ->
  (forall id, unit_mass (catalog s) id = unit_mass cat0 id) ->
  Forall (fun order =>
            OrderQueueService.findOne (orders s) (Order.orderId order) = Some order /\
            NoDup (map productId (Order.requestedItems order)) /\
            Forall (fun it => 0 <= unit_mass cat0 (productId it)
                              <= FulfillmentService.MAX_PACKAGE_WEIGHT_G)
                   (Order.requestedItems order) /\
            (enough_fuel (OrderQueueService.getRemainingItems order) <= fuel)%nat)
         pendingOrders ->
  exists s',
    FulfillmentService.attempt_each fuel pendingOrders s = Some (s', Ok tt) /\
    map Order.orderId (orders s') = map Order.orderId (orders s).
Proof.
  revert s. induction pendingOrders as [|o l IH]; intros s Hnd Hmass Hall; simpl.
  - by exists s.
  - apply NoDup_cons in Hnd as [Hfresh Hnd].
    apply Forall_cons in Hall as [(Hrow & Hlines & Hlight & Hfuel) Hall].
    destruct (attemptFulfillment_exact fuel o s Hrow Hlines)
      as (s1 & o' & Hrun & Hrow1 & _ & _ & _ & Hother).
    { eapply Forall_impl; [exact Hlight|]. intros it. simpl. by rewrite Hmass. }
    { etrans; [apply enough_fuel_shippable|exact Hfuel]. }
    rewrite Hrun.
    pose proof (attemptFulfillment_ids _ _ _ _ _ Hrun) as Hids.
    destruct (IH s1 Hnd) as (s' & Hrest & Hids').
    + eapply attemptFulfillment_unit_mass; eauto.
    + rewrite Forall_forall in Hall. rewrite Forall_forall. intros order Hin.
      destruct (Hall _ Hin) as (Hrow' & ?). split; [|done].
      rewrite Hother; [done|]. intros Heq. apply Hfresh. rewrite <- Heq.
      apply list_elem_of_fmap. eauto.
    + exists s'. split; [exact Hrest|]. by rewrite Hids', Hids.
Qed.

Lemma restock_unit_mass restock cat id :
  unit_mass (foldl InventoryService.restock_item cat restock) id = unit_mass cat id.
Proof.
  unfold unit_mass. rewrite restock_lookup. by destruct (cat !! id).
Qed.

Lemma allotted_ext stock1 stock2 order id :
  (forall id, stock1 id = stock2 id) -> allotted stock1 order id = allotted stock2 order id.
Proof. intros H. unfold allotted. by rewrite H. Qed.

Lemma in_turn_ext stock1 stock2 pendingOrders stock' os' :
  (forall id, stock1 id = stock2 id) ->
  in_turn stock1 pendingOrders stock' os' -> in_turn stock2 pendingOrders stock' os'.
Proof.
  revert stock1 stock2. induction pendingOrders as [|o l IH]; intros stock1 stock2 H; simpl.
  - intros H1 id. by rewrite H1, H.
  - intros [(o' & Hrow & Hreq & Hshipped) Hrest]. split.
    + exists o'. split; [exact Hrow|]. split; [exact Hreq|].
      intros id. rewrite Hshipped. f_equal. by apply allotted_ext.
    + apply (IH (fun id => stock1 id - allotted stock1 o id)); [|exact Hrest].
      intros id. cbv beta. rewrite H. f_equal. by apply allotted_ext.
Qed.

(** A pass over open orders of the data model serves them in turn. *)
Lemma attempt_each_in_turn fuel cat0 pendingOrders s :
  NoDup (map Order.orderId pendingOrders) ->
  (forall id, unit_mass (catalog s) id = unit_mass cat0 id) ->
  Forall (fun order =>
            OrderQueueService.findOne (orders s) (Order.orderId order) = Some order /\
            NoDup (map productId (Order.requestedItems order)) /\
            Forall (fun it => 0 <= unit_mass cat0 (productId it)
                              <= FulfillmentService.MAX_PACKAGE_WEIGHT_G)
                   (Order.requestedItems order) /\
            (enough_fuel (OrderQueueService.getRemainingItems order) <= fuel)%nat)
         pendingOrders ->
  exists s',
    FulfillmentService.attempt_each fuel pendingOrders s = Some (s', Ok tt) /\
    in_turn (InventoryService.getAvailableStock (catalog s)) pendingOrders
      (InventoryService.getAvailableStock (catalog s')) (orders s') /\
    forall other, other ∉ map Order.orderId pendingOrders ->
      OrderQueueService.findOne (orders s') other
      = OrderQueueService.findOne (orders s) other.
Proof.
  revert s. induction pendingOrders as [|o l IH]; intros s Hnd Hmass Hall; simpl.
  - exists s. split; [done|]. split; done.
  - apply NoDup_cons in Hnd as [Hfresh Hnd].
    apply Forall_cons in Hall as [(Hrow & Hlines & Hlight & Hfuel) Hall].
    destruct (attemptFulfillment_exact fuel o s Hrow Hlines)
      as (s1 & o' & Hrun & Hrow1 & Hreq & Hstock & Hshipped & Hother).
    { eapply Forall_impl; [exact Hlight|]. intros it. simpl. by rewrite Hmass. }
    { etrans; [apply enough_fuel_shippable|exact Hfuel]. }
    rewrite Hrun.
    destruct (IH s1 Hnd) as (s' & Hrest & Hturn & Hothers).
    + eapply attemptFulfillment_unit_mass; eauto.
    + rewrite Forall_forall in Hall. rewrite Forall_forall. intros order Hin.
      destruct (Hall _ Hin) as (Hrow' & ?). split; [|done].
      rewrite Hother; [done|]. intros Heq. apply Hfresh. rewrite <- Heq.
      apply list_elem_of_fmap. eauto.
    + exists s'. split; [exact Hrest|]. split; [split|].
      * exists o'. split; [by rewrite (Hothers _ Hfresh)|]. split; [exact Hreq|].
        exact Hshipped.
      * apply (in_turn_ext (InventoryService.getAvailableStock (catalog s1)));
          [|exact Hturn].
        intros id. by rewrite Hstock.
      * intros other Hnotin. apply not_elem_of_cons in Hnotin as [Hne Hnotin].
        rewrite (Hothers _ Hnotin). by apply Hother.
Qed.

Lemma restocked_stock restock cat id :
  InventoryService.getAvailableStock (foldl InventoryService.restock_item cat restock) id
  = restocked cat restock id.
Proof.
  unfold InventoryService.getAvailableStock, restocked. rewrite restock_lookup.
  by destruct (cat !! id).
Qed.

Lemma reserve_loop_products items cat id :
  (fun product => InventoryService.set_stock product 0)
    <$> (InventoryService.reserve_loop cat items).1 !! id
  = (fun product => InventoryService.set_stock product 0) <$> cat !! id.
Proof.
  revert cat. induction items as [|it items IH]; intros cat; simpl; [done|].
  destruct (cat !! productId it) as [product|] eqn:E; [|done].
  destruct (_ <? _); [done|]. rewrite IH, lookup_insert.
  case_decide; [subst; by rewrite E|done].
Qed.

(** A pass over open orders changes nothing of the catalog but the stock. *)
Lemma attempt_each_products fuel pendingOrders s s' r id :
  FulfillmentService.attempt_each fuel pendingOrders s = Some (s', r) ->
  (fun product => InventoryService.set_stock product 0) <$> catalog s' !! id
  = (fun product => InventoryService.set_stock product 0) <$> catalog s !! id.
Proof.
  apply (attempt_each_keeps
           (fun s1 => (fun product => InventoryService.set_stock product 0)
                        <$> catalog s1 !! id
                      = (fun product => InventoryService.set_stock product 0)
                        <$> catalog s !! id)); [done|done| |done].
  intros items s1 H1. unfold InventoryService.reserveStock.
  pose proof (reserve_loop_products items (catalog s1) id) as H.
  destruct (InventoryService.reserve_loop (catalog s1) items). simpl in *.
  by rewrite H.
Qed.

(** In a ledger with one row per order identifier in which every open
    order names each product in one line only, of a unit mass between 0 and
    the ceiling, a restock does not throw, given fuel for the largest
    remaining quantity.  The quantities of the restock are added to the
    stock, and the open orders are served in turn from it, the oldest first
    as [getPendingOrders] returns them: each gets, of every product, what
    remains of it for the order as far as the stock left by the orders before
    it goes.  The catalog has the products it had, with what the last order
    leaves as their stock; the ledger keeps the orders it had, and the orders
    that are not open are as they were. *)
Theorem processRestock_does_not_throw fuel restock s :
  NoDup (map Order.orderId (orders s)) ->
  Forall (fun order =>
            OrderQueueService.is_pending order ->
            NoDup (map productId (Order.requestedItems order)) /\
            Forall (fun it => 0 <= unit_mass (catalog s) (productId it)
                              <= FulfillmentService.MAX_PACKAGE_WEIGHT_G)
                   (Order.requestedItems order) /\
            (enough_fuel (OrderQueueService.getRemainingItems order) <= fuel)%nat)
         (orders s) ->
  exists s' pendingOrders,
    OrderQueueService.getPendingOrders s = (s, Ok pendingOrders) /\
    FulfillmentService.processRestock fuel restock s = Some (s', Ok tt) /\
    map Order.orderId (orders s') = map Order.orderId (orders s) /\
    in_turn (restocked (catalog s) restock) pendingOrders
      (InventoryService.getAvailableStock (catalog s')) (orders s') /\
    (forall id,
       catalog s' !! id
       = (fun product =>
            InventoryService.set_stock product
              (InventoryService.getAvailableStock (catalog s') id))
         <$> catalog s !! id) /\
    forall order,
      order ∈ orders s -> ~ OrderQueueService.is_pending order ->
      OrderQueueService.findOne (orders s') (Order.orderId order) = Some order.
Proof.
  intros Hnd Hall. unfold FulfillmentService.processRestock. simpl.
  unfold FulfillmentService.fulfillPendingOrders, OrderQueueService.getPendingOrders.
  simpl. set (s1 := with_catalog s _).
  set (pendingOrders := merge_sort OrderQueueService.created_le
                          (filter OrderQueueService.is_pending (orders s))).
  destruct (pending_rows s1 Hnd) as [Hnd' Hrows]. simpl in Hnd', Hrows.
  fold pendingOrders in Hnd', Hrows.
  assert (Hmass : forall id, unit_mass (catalog s1) id = unit_mass (catalog s) id)
    by (intros id; apply restock_unit_mass).
  assert (Hopen : forall order, order ∈ pendingOrders -> OrderQueueService.is_pending order).
  { intros order Hin. unfold pendingOrders in Hin.
    rewrite merge_sort_Permutation in Hin. by apply list_elem_of_filter in Hin as [? _]. }
  assert (Hgood : Forall (fun order =>
            OrderQueueService.findOne (orders s1) (Order.orderId order) = Some order /\
            NoDup (map productId (Order.requestedItems order)) /\
            Forall (fun it => 0 <= unit_mass (catalog s) (productId it)
                              <= FulfillmentService.MAX_PACKAGE_WEIGHT_G)
                   (Order.requestedItems order) /\
            (enough_fuel (OrderQueueService.getRemainingItems order) <= fuel)%nat)
         pendingOrders).
  { rewrite Forall_forall in Hall. rewrite Forall_forall. intros order Hin.
    destruct (Hrows _ Hin) as [Hin' Hrow]. split; [exact Hrow|].
    apply Hall; [exact Hin'|by apply Hopen]. }
  destruct (attempt_each_succeeds fuel (catalog s) pendingOrders s1 Hnd' Hmass Hgood)
    as (s' & Hrun & Hids).
  destruct (attempt_each_in_turn fuel (catalog s) pendingOrders s1 Hnd' Hmass Hgood)
    as (s'' & Hrun' & Hturn & Hothers).
  rewrite Hrun in Hrun'. injection Hrun' as <-.
  exists s', pendingOrders. split; [reflexivity|]. split; [exact Hrun|].
  split; [exact Hids|]. split; [|split].
  - apply (in_turn_ext (InventoryService.getAvailableStock (catalog s1))); [|exact Hturn].
    intros id. apply restocked_stock.
  - intros id. pose proof (attempt_each_products _ _ _ _ _ id Hrun) as Hsame.
    unfold s1 in Hsame. simpl in Hsame. rewrite restock_lookup in Hsame.
    unfold InventoryService.getAvailableStock.
    destruct (catalog s' !! id) as [[i n m q]|], (catalog s !! id) as [[i0 n0 m0 q0]|];
      simpl in *; try done.
    injection Hsame as -> -> ->. done.
  - intros order Hin Hclosed. rewrite Hothers; [by apply (findOne_NoDup (orders s))|].
    intros Hid. apply list_elem_of_fmap in Hid as (o2 & Heq & Hin2).
    destruct (Hrows _ Hin2) as [_ Hfind2].
    pose proof (findOne_NoDup _ _ Hnd Hin) as Hfind.
    rewrite Heq in Hfind. simpl in Hfind2. rewrite Hfind2 in Hfind.
    injection Hfind as ->. by apply Hclosed, Hopen.
Qed.

Lemma processRestock_does_not_throw_witness :
  exists s' pendingOrders,
    OrderQueueService.getPendingOrders state_fifo = (state_fifo, Ok pendingOrders) /\
    FulfillmentService.processRestock 1 [Req.mk 0 1] state_fifo = Some (s', Ok tt) /\
    map Order.orderId (orders s') = map Order.orderId (orders state_fifo) /\
    in_turn (restocked (catalog state_fifo) [Req.mk 0 1]) pendingOrders
      (InventoryService.getAvailableStock (catalog s')) (orders s') /\
    (forall id,
       catalog s' !! id
       = (fun product =>
            InventoryService.set_stock product
              (InventoryService.getAvailableStock (catalog s') id))
         <$> catalog state_fifo !! id) /\
    forall order,
      order ∈ orders state_fifo -> ~ OrderQueueService.is_pending order ->
      OrderQueueService.findOne (orders s') (Order.orderId order) = Some order.
Proof.
  apply (processRestock_does_not_throw 1 [Req.mk 0 1] state_fifo).
  - apply (bool_decide_unpack _). vm_compute. reflexivity.
  - constructor; [|constructor; [|constructor]]; cbv beta; intros _;
      (split; [apply (bool_decide_unpack _); vm_compute; reflexivity|]);
      (split; [constructor; [vm_compute; split; discriminate|constructor]
              |vm_compute; lia]).
Defined.


(** ** Batch mode and one package at a time *)

Lemma updateOrderShipment_known orderId items s row :
  OrderQueueService.findOne (orders s) orderId = Some row ->
  exists updated,
    OrderQueueService.updateOrderShipment orderId items s
    = (with_orders s (OrderQueueService.save (orders s) updated), Ok updated) /\
    OrderQueueService.findOne (OrderQueueService.save (orders s) updated) orderId
    = Some updated /\
    Order.totalShipments updated = Order.totalShipments row + 1 /\
    status_settled updated.
Proof.
  intros Hrow.
  assert (Hsettled : forall s' updated,
             OrderQueueService.updateOrderShipment orderId items s = (s', Ok updated) ->
             status_settled updated).
  { intros s' updated. apply updateOrderShipment_settled. }
  revert Hsettled. unfold OrderQueueService.updateOrderShipment. rewrite Hrow.
  set (updated := Order.mk _ _ _ _ _ _). intros Hsettled.
  exists updated. split; [reflexivity|]. split; [|split; [reflexivity|]].
  - rewrite <- (findOne_orderId _ _ _ Hrow).
    change (Order.orderId row) with (Order.orderId updated). apply findOne_save_same.
  - by eapply Hsettled.
Qed.

Lemma shipPackage_ok_count orderId items s s' row :
  FulfillmentService.shipPackage orderId items s = (s', Ok tt) ->
  OrderQueueService.findOne (orders s) orderId = Some row ->
  exists row',
    OrderQueueService.findOne (orders s') orderId = Some row' /\
    Order.totalShipments row' = Order.totalShipments row + 1 /\
    status_settled row'.
Proof.
  rewrite shipPackage_eq. simpl. destruct (_ >? _); [discriminate|].
  pose proof (reserveStock_frame items s) as (Ho & _).
  destruct (InventoryService.reserveStock items s) as [s1 [[]|e]]; [|discriminate].
  simpl in Ho. set (s2 := with_shipments s1 _). intros Hrun Hrow.
  destruct (updateOrderShipment_known orderId items s2 row) as (updated & Hu & Hfind & Hc & Hs);
    [simpl; by rewrite Ho|].
  rewrite Hu in Hrun. injection Hrun as <-. exists updated. by split.
Qed.

Lemma for_each_shipPackage_count orderId packages s s' row :
  FulfillmentService.for_each (FulfillmentService.shipPackage orderId) packages s
  = (s', Ok tt) ->
  OrderQueueService.findOne (orders s) orderId = Some row ->
  exists row',
    OrderQueueService.findOne (orders s') orderId = Some row' /\
    Order.totalShipments row' = Order.totalShipments row + Z.of_nat (length packages) /\
    (packages = [] -> row' = row) /\
    (packages <> [] -> status_settled row').
Proof.
  revert s row. induction packages as [|pk packages IH]; intros s row; simpl.
  - intros [= <-] Hrow. exists row. split; [done|]. split; [simpl; lia|]. by split.
  - unfold bind.
    destruct (FulfillmentService.shipPackage orderId pk s) as [s1 [[]|e]] eqn:E;
      [|discriminate].
    intros Hrest Hrow.
    destruct (shipPackage_ok_count _ _ _ _ _ E Hrow) as (row1 & Hrow1 & Hc1 & Hs1).
    destruct (IH _ _ Hrest Hrow1) as (row' & Hrow' & Hc' & Hnil & Hs').
    exists row'. split; [exact Hrow'|]. split; [lia|]. split; [done|]. intros _.
    destruct packages as [|pk' packages']; [by rewrite (Hnil eq_refl)|by apply Hs'].
Qed.

Lemma collect_shipment_ext cat cat' orderId acc shipmentItems :
  (forall id, unit_mass cat' id = unit_mass cat id) ->
  FulfillmentService.collect_shipment cat' orderId acc shipmentItems
  = FulfillmentService.collect_shipment cat orderId acc shipmentItems.
Proof.
  intros H. unfold FulfillmentService.collect_shipment.
  by rewrite (calculateTotalMass_ext cat cat' shipmentItems H).
Qed.

Lemma batch_items_ext cat cat' orderId batch :
  (forall id, unit_mass cat' id = unit_mass cat id) ->
  batch_items cat' orderId batch = batch_items cat orderId batch.
Proof.
  intros H. unfold batch_items. f_equal. generalize (([], []) : list Item * list Shipment.t).
  induction batch as [|pk batch IH]; intros acc; simpl; [done|].
  by rewrite IH, (collect_shipment_ext cat cat').
Qed.

Lemma collect_rows_all cat orderId batch acc :
  Forall (within cat FulfillmentService.MAX_PACKAGE_WEIGHT_G) batch ->
  (foldl (FulfillmentService.collect_shipment cat orderId) acc batch).2
  = acc.2 ++ map (fun items =>
                    Shipment.mk orderId items (InventoryService.calculateTotalMass cat items))
               batch.
Proof.
  intros Hall. revert acc. induction Hall as [|pk batch Hpk _ IH]; intros acc; simpl;
    [by rewrite app_nil_r|].
  rewrite IH. unfold FulfillmentService.collect_shipment.
  unfold within in Hpk. rewrite calculateShipmentWeight_weighted in Hpk.
  rewrite calculateTotalMass_weighted.
  destruct (Z.gtb_spec (weighted (unit_mass cat) pk)
              FulfillmentService.MAX_PACKAGE_WEIGHT_G); [lia|].
  simpl. by rewrite <- app_assoc.
Qed.

Lemma process_batch_ok orderId batch s s' row :
  Forall (within (catalog s) FulfillmentService.MAX_PACKAGE_WEIGHT_G) batch ->
  batch_items (catalog s) orderId batch <> [] ->
  FulfillmentService.process_batch orderId batch s = (s', Ok tt) ->
  OrderQueueService.findOne (orders s) orderId = Some row ->
  shipments s'
  = shipments s
    ++ map (fun items =>
              Shipment.mk orderId items
                (InventoryService.calculateTotalMass (catalog s) items)) batch /\
  (forall id, unit_mass (catalog s') id = unit_mass (catalog s) id) /\
  exists row',
    OrderQueueService.findOne (orders s') orderId = Some row' /\
    Order.totalShipments row' = Order.totalShipments row + 1 /\
    status_settled row'.
Proof.
  intros Hwithin Hitems. rewrite process_batch_eq. unfold batch_items in Hitems. simpl.
  set (acc := foldl _ _ batch) in *.
  assert (Hrows : acc.2 = map (fun items =>
                                 Shipment.mk orderId items
                                   (InventoryService.calculateTotalMass (catalog s) items))
                            batch).
  { unfold acc. by rewrite collect_rows_all. }
  destruct (FulfillmentService.is_empty acc.1) eqn:Eempty;
    [by apply is_empty_nil in Eempty|].
  pose proof (reserveStock_frame acc.1 s) as (Ho & Hsh & Hm).
  destruct (InventoryService.reserveStock acc.1 s) as [s1 [[]|e]]; [|discriminate].
  simpl in Ho, Hsh, Hm.
  set (s2 := if FulfillmentService.is_empty acc.2 then s1 else _).
  assert (Hs2 : orders s2 = orders s /\ shipments s2 = shipments s ++ acc.2 /\
                catalog s2 = catalog s1).
  { unfold s2. destruct (FulfillmentService.is_empty acc.2) eqn:E2.
    - apply is_empty_nil in E2. rewrite E2, app_nil_r. auto.
    - simpl. by rewrite Hsh. }
  destruct Hs2 as (Ho2 & Hsh2 & Hc2). intros Hrun Hrow.
  destruct (updateOrderShipment_known orderId acc.1 s2 row) as (updated & Hu & Hfind & Hc & Hs);
    [by rewrite Ho2|].
  rewrite Hu in Hrun. injection Hrun as <-. simpl.
  split; [by rewrite Hsh2, Hrows|]. split; [intros id; by rewrite Hc2|].
  exists updated. by split.
Qed.

Lemma batches_ok orderId (bs : list (list (list Item))) s s' row :
  Forall (Forall (within (catalog s) FulfillmentService.MAX_PACKAGE_WEIGHT_G)) bs ->
  Forall (fun batch => batch_items (catalog s) orderId batch <> []) bs ->
  FulfillmentService.for_each (FulfillmentService.process_batch orderId) bs s
  = (s', Ok tt) ->
  OrderQueueService.findOne (orders s) orderId = Some row ->
  shipments s'
  = shipments s
    ++ map (fun items =>
              Shipment.mk orderId items
                (InventoryService.calculateTotalMass (catalog s) items)) (concat bs) /\
  exists row',
    OrderQueueService.findOne (orders s') orderId = Some row' /\
    Order.totalShipments row' = Order.totalShipments row + Z.of_nat (length bs) /\
    (bs = [] -> row' = row) /\
    (bs <> [] -> status_settled row').
Proof.
  revert s row. induction bs as [|batch bs IH]; intros s row Hwithin Hitems; simpl.
  - intros [= <-] Hrow. rewrite app_nil_r. split; [done|].
    exists row. split; [done|]. split; [simpl; lia|]. by split.
  - apply Forall_cons in Hwithin as [Hw Hwithin].
    apply Forall_cons in Hitems as [Hi Hitems]. unfold bind.
    destruct (FulfillmentService.process_batch orderId batch s) as [s1 [[]|e]] eqn:E;
      [|discriminate].
    intros Hrest Hrow.
    destruct (process_batch_ok _ _ _ _ _ Hw Hi E Hrow)
      as (Hsh1 & Hm1 & row1 & Hrow1 & Hc1 & Hs1).
    destruct (IH s1 row1) as (Hsh' & row' & Hrow' & Hc' & Hnil & Hs'); [| |exact Hrest|exact Hrow1|].
    + eapply Forall_impl; [exact Hwithin|]. intros b Hb.
      eapply Forall_impl; [exact Hb|]. intros pk Hpk. unfold within in *.
      rewrite calculateShipmentWeight_weighted in *.
      erewrite weighted_ext; [exact Hpk|]. exact Hm1.
    + eapply Forall_impl; [exact Hitems|]. intros b Hb.
      by rewrite (batch_items_ext (catalog s) (catalog s1)).
    + split.
      * rewrite Hsh', Hsh1, map_app, <- app_assoc. do 2 f_equal.
        apply map_ext. intros pk. f_equal. by apply calculateTotalMass_ext.
      * exists row'. split; [exact Hrow'|]. split; [lia|]. split; [done|]. intros _.
        destruct bs as [|b' bs']; [by rewrite (Hnil eq_refl)|by apply Hs'].
Qed.

Lemma remaining_of_ext shipped1 shipped2 requested :
  (forall id, OrderQueueService.shippedQuantity shipped1 id
              = OrderQueueService.shippedQuantity shipped2 id) ->
  OrderQueueService.remaining_of shipped1 requested
  = OrderQueueService.remaining_of shipped2 requested.
Proof.
  intros H. induction requested as [|x l IH]; simpl; [done|]. by rewrite H, IH.
Qed.

Lemma settled_same_status row1 row2 :
  status_settled row1 -> status_settled row2 ->
  OrderQueueService.getRemainingItems row1 = OrderQueueService.getRemainingItems row2 ->
  Order.status row1 = Order.status row2.
Proof.
  intros [Hf1 Hp1] [Hf2 Hp2] Hrem.
  destruct (OrderQueueService.getRemainingItems row2) eqn:E.
  - destruct Hf1 as [_ ->]; [|done]. by destruct Hf2 as [_ ->].
  - destruct Hp1 as [_ ->]; [|by rewrite Hrem]. by destruct Hp2 as [_ ->].
Qed.

Lemma batches_length (allShipments : list (list Item)) :
  length (batches allShipments) = ((length allShipments + 49) / 50)%nat.
Proof.
  unfold batches, FulfillmentService.batch_starts, FulfillmentService.BATCH_SIZE.
  by rewrite !length_map, length_seq.
Qed.

Lemma batch_items_nonempty cat orderId batch :
  Forall (within cat FulfillmentService.MAX_PACKAGE_WEIGHT_G) batch ->
  Forall (fun package => package <> [] /\ positive_lines package) batch ->
  batch <> [] ->
  batch_items cat orderId batch <> [].
Proof.
  intros Hwithin Hshape Hne Hnil.
  pose proof (collect_all_within (fun _ => 1) cat orderId batch ([], []) Hwithin) as Hsum.
  unfold batch_items in Hnil. rewrite Hnil in Hsum. simpl in Hsum.
  destruct Hshape as [|pk batch' [Hpk Hpos] Hrest]; [done|].
  simpl in Hsum. rewrite weighted_app in Hsum.
  assert (0 <= weighted (fun _ => 1) (concat batch')).
  { apply weighted_concat_nonneg; [lia|]. eapply Forall_impl; [exact Hrest|].
    by intros pk' [_ ?]. }
  destruct Hpos as [|it pk' Hit Hpos']; [done|].
  simpl in Hsum. pose proof (weighted_nonneg (fun _ => 1) pk' ltac:(lia) Hpos'). lia.
Qed.

(** Batch mode and one package at a time, for any list of non-empty
    packages within the ceiling that the stock covers and an order of the
    ledger: both succeed and leave the same catalog, the same shipment
    records, for the order the same requested items, the same shipped
    quantity of every product and the same status, and every other order as
    it was.  The shipment count is the only difference: one per package in
    one case, one per batch of fifty in the other. *)
Theorem batch_mode_differs_in_count_only orderId packages s row :
  OrderQueueService.findOne (orders s) orderId = Some row ->
  Forall (within (catalog s) FulfillmentService.MAX_PACKAGE_WEIGHT_G) packages ->
  Forall (fun package => package <> [] /\ positive_lines package) packages ->
  reservable (catalog s) (concat packages) ->
  exists sb sp rowb rowp,
    FulfillmentService.batchShipPackages orderId packages s = (sb, Ok tt) /\
    FulfillmentService.for_each (FulfillmentService.shipPackage orderId) packages s
    = (sp, Ok tt) /\
    catalog sb = catalog sp /\
    shipments sb = shipments sp /\
    OrderQueueService.findOne (orders sb) orderId = Some rowb /\
    OrderQueueService.findOne (orders sp) orderId = Some rowp /\
    Order.requestedItems rowb = Order.requestedItems rowp /\
    (forall id,
       OrderQueueService.shippedQuantity (Order.shippedItems rowb) id
       = OrderQueueService.shippedQuantity (Order.shippedItems rowp) id) /\
    Order.status rowb = Order.status rowp /\
    Order.totalShipments rowp = Order.totalShipments row + Z.of_nat (length packages) /\
    Order.totalShipments rowb
    = Order.totalShipments row + Z.of_nat ((length packages + 49) / 50) /\
    (forall other, other <> orderId ->
       OrderQueueService.findOne (orders sb) other
       = OrderQueueService.findOne (orders sp) other).
Proof.
  intros Hrow Hwithin Hshape Hres.
  assert (Hpos : Forall positive_lines packages).
  { eapply Forall_impl; [exact Hshape|]. by intros pk [_ ?]. }
  assert (Hknown : known_order orderId (orders s)) by (by exists row).
  pose proof (findOne_orderId _ _ _ Hrow) as Hoid.
  (* one package at a time *)
  destruct (for_each_shipPackage_succeeds orderId packages s Hknown Hwithin Hpos Hres)
    as (sp & Hrunp & Hdecp & Hrecp).
  destruct (for_each_shipPackage_ok _ _ _ _ Hrunp) as (Hshp & _ & _).
  destruct (for_each_shipPackage_count _ _ _ _ _ Hrunp Hrow)
    as (rowp & Hrowp & Hcp & Hnilp & Hsp).
  (* batch mode *)
  pose proof (batches_succeed orderId (batches packages) s Hknown
                (batches_Forall _ _ Hwithin) (batches_Forall _ _ Hpos)) as Hb.
  rewrite batches_concat in Hb.
  destruct (Hb Hres) as (sb & items & Hrunb & Hdecb & Hrecb & Hsumb). clear Hb.
  destruct (batches_ok orderId (batches packages) s sb row)
    as (Hshb & rowb & Hrowb & Hcb & Hnilb & Hsb);
    [by apply batches_Forall| |exact Hrunb|exact Hrow|].
  { pose proof (batches_lengths packages) as Hlen.
    pose proof (batches_Forall _ _ Hwithin) as Hw.
    pose proof (batches_Forall _ _ Hshape) as Hs.
    rewrite Forall_forall in Hlen, Hw, Hs. rewrite Forall_forall. intros b Hin.
    apply batch_items_nonempty; [by apply Hw|by apply Hs|].
    specialize (Hlen _ Hin). destruct b; [simpl in Hlen; lia|done]. }
  rewrite batches_concat in Hshb. rewrite batches_length in Hcb.
  (* the rows of the order *)
  unfold recorded in Hrecp, Hrecb. rewrite Hrow in Hrecp, Hrecb.
  destruct Hrecp as (rowp' & Hsavep & Hidp & Hreqp & _ & Hshippedp).
  destruct Hrecb as (rowb' & Hsaveb & Hidb & Hreqb & _ & Hshippedb).
  assert (rowp' = rowp) as ->.
  { rewrite Hsavep, <- Hoid, <- Hidp, findOne_save_same in Hrowp. by injection Hrowp. }
  assert (rowb' = rowb) as ->.
  { rewrite Hsaveb, <- Hoid, <- Hidb, findOne_save_same in Hrowb. by injection Hrowb. }
  assert (Hsame : forall id,
             OrderQueueService.shippedQuantity (Order.shippedItems rowb) id
             = OrderQueueService.shippedQuantity (Order.shippedItems rowp) id).
  { intros id. by rewrite Hshippedb, Hshippedp, Hsumb. }
  exists sb, sp, rowb, rowp. rewrite batchShipPackages_batches.
  split; [exact Hrunb|]. split; [exact Hrunp|]. split; [|split; [by rewrite Hshb, Hshp|]].
  { apply map_eq. intros id. by rewrite Hdecb, Hdecp. }
  split; [exact Hrowb|]. split; [exact Hrowp|]. split; [by rewrite Hreqb, Hreqp|].
  split; [exact Hsame|]. split; [|split; [exact Hcp|split; [exact Hcb|]]].
  - destruct packages as [|pk packages'].
    + rewrite (Hnilp eq_refl). by rewrite (Hnilb eq_refl).
    + apply settled_same_status; [|by apply Hsp|].
      * apply Hsb. intros Hnil. pose proof (batches_concat (pk :: packages')) as Hc.
        rewrite Hnil in Hc. discriminate.
      * unfold OrderQueueService.getRemainingItems. rewrite Hreqb, Hreqp.
        by apply remaining_of_ext.
  - intros other Hne. rewrite Hsaveb, Hsavep.
    rewrite !findOne_save_other; [done|by rewrite Hidp, Hoid|by rewrite Hidb, Hoid].
Qed.

Lemma batch_mode_differs_in_count_only_witness :
  exists sb sp rowb rowp,
    FulfillmentService.batchShipPackages 1 packages_101 state_101 = (sb, Ok tt) /\
    FulfillmentService.for_each (FulfillmentService.shipPackage 1) packages_101 state_101
    = (sp, Ok tt) /\
    catalog sb = catalog sp /\
    shipments sb = shipments sp /\
    OrderQueueService.findOne (orders sb) 1 = Some rowb /\
    OrderQueueService.findOne (orders sp) 1 = Some rowp /\
    Order.requestedItems rowb = Order.requestedItems rowp /\
    (forall id,
       OrderQueueService.shippedQuantity (Order.shippedItems rowb) id
       = OrderQueueService.shippedQuantity (Order.shippedItems rowp) id) /\
    Order.status rowb = Order.status rowp /\
    Order.totalShipments rowp
    = Order.totalShipments (Order.mk 1 [mkItem 0 101] [] PENDING 0 1)
      + Z.of_nat (length packages_101) /\
    Order.totalShipments rowb
    = Order.totalShipments (Order.mk 1 [mkItem 0 101] [] PENDING 0 1)
      + Z.of_nat ((length packages_101 + 49) / 50) /\
    (forall other, other <> 1 ->
       OrderQueueService.findOne (orders sb) other
       = OrderQueueService.findOne (orders sp) other).
Proof.
  apply (batch_mode_differs_in_count_only 1 packages_101 state_101
           (Order.mk 1 [mkItem 0 101] [] PENDING 0 1)).
  - reflexivity.
  - apply Forall_replicate. vm_compute. discriminate.
  - apply Forall_replicate. split; [discriminate|]. repeat constructor.
  - intros id Hin.
    assert (id = 0) as ->.
    { assert (Hids : map productId (concat packages_101) = replicate 101 0)
        by (vm_compute; reflexivity).
      rewrite Hids in Hin. by apply elem_of_replicate in Hin as [-> _]. }
    split; [by eexists|]. vm_compute. discriminate.
Defined.

(** ** The HTTP interface *)

Lemma rejects_false items :
  FulfillmentController.rejects items = false
  <-> Forall (fun line => 0 < Req.quantity line <= 10000000) items.
Proof.
  induction items as [|item rest IH]; simpl; [done|].
  destruct (Z.leb_spec (Req.quantity item) 0) as [Hle|Hpos].
  { split; [discriminate|]. intros H. apply Forall_cons in H as [H _]. lia. }
  destruct (Z.gtb_spec (Req.quantity item) 10000000) as [Hbig|Hok].
  { split; [discriminate|]. intros H. apply Forall_cons in H as [H _]. lia. }
  rewrite IH. split; [intros H; constructor; [lia|done]|].
  intros H. by apply Forall_cons in H as [_ H].
Qed.

Lemma accepted_lines_iff items :
  accepted_lines items
  <-> FulfillmentService.is_empty items = false /\
      FulfillmentController.rejects items = false.
Proof.
  unfold accepted_lines. rewrite rejects_false.
  destruct items as [|item rest]; simpl.
  - split; intros [H _]; [by destruct H|discriminate].
  - split; intros [_ H]; (split; [done|exact H]).
Qed.

Lemma lift_result {A} (c : M A) s :
  lift c s = Some ((c s).1, match (c s).2 with Ok _ => Ok tt | Throw e => Throw e end).
Proof. unfold lift, bind, ret. by destruct (c s) as [s' [a|e]]. Qed.

Lemma handle_from_http fuel request s s' code :
  handle fuel request s = Some (s', code) ->
  (~ from_http s (operation_of request) /\ code = 400 /\ s' = s) \/
  (from_http s (operation_of request) /\
   exists r,
     exec fuel (operation_of request) s = Some (s', r) /\
     (code = 200 /\ r = Ok tt \/ code = 500 /\ exists e, r = Throw e)).
Proof.
  destruct request as [productInfo|now order_id requested|restock|]; simpl.
  - unfold FulfillmentController.initCatalog.
    destruct productInfo as [|info l]; simpl;
      [intros [= <- <-]; left; split; [intros H; by apply H|done]|].
    intros H. right. split; [done|]. rewrite lift_result.
    destruct (InventoryService.initCatalog (info :: l) s) as [s1 [[]|e]];
      injection H as <- <-; [exists (Ok tt)|exists (Throw e)];
      (split; [reflexivity|]); eauto.
  - unfold FulfillmentController.processOrder. rewrite accepted_lines_iff.
    destruct (FulfillmentService.is_empty requested) eqn:E1;
      [intros [= <- <-]; left; split; [by intros [? _]|done]|].
    destruct (FulfillmentController.rejects requested) eqn:E2;
      [intros [= <- <-]; left; split; [by intros [_ ?]|done]|].
    intros H. right. split; [done|].
    destruct (FulfillmentService.processOrder fuel now order_id requested s)
      as [[s1 [[]|e]]|]; [| |discriminate];
      injection H as <- <-; [exists (Ok tt)|exists (Throw e)];
      (split; [reflexivity|]); eauto.
  - unfold FulfillmentController.processRestock. rewrite accepted_lines_iff.
    destruct (FulfillmentService.is_empty restock) eqn:E1;
      [intros [= <- <-]; left; split; [by intros [? _]|done]|].
    destruct (FulfillmentController.rejects restock) eqn:E2;
      [intros [= <- <-]; left; split; [by intros [_ ?]|done]|].
    intros H. right. split; [done|].
    destruct (FulfillmentService.processRestock fuel restock s)
      as [[s1 [[]|e]]|]; [| |discriminate];
      injection H as <- <-; [exists (Ok tt)|exists (Throw e)];
      (split; [reflexivity|]); eauto.
  - intros [= <- <-]. right. split; [done|]. exists (Ok tt). eauto.
Qed.

(** A request is answered by the operation of its own route, on a checked
    body, or not at all.  When the body is not one the handler lets through
    (an empty product list; order or restock lines that are empty or have a
    quantity below 1 or above 10,000,000) the answer is 400 and nothing
    changes.  Otherwise the handler runs the service operation of the request
    (initCatalog, processOrder, processRestock, resetCatalog) on that body,
    and answers 200 when it returns and 500 when it throws. *)
Theorem request_is_checked_operation fuel request s s' code :
  handle fuel request s = Some (s', code) ->
  (~ from_http s (operation_of request) /\ code = 400 /\ s' = s) \/
  (from_http s (operation_of request) /\
   exists r,
     exec fuel (operation_of request) s = Some (s', r) /\
     (code = 200 /\ r = Ok tt \/ code = 500 /\ exists e, r = Throw e)).
Proof. apply handle_from_http. Qed.

Lemma request_is_checked_operation_witness :
  let s' := (default (stocked_state, Ok tt)
               (FulfillmentService.processOrder 10 1 1 [Req.mk 0 2] stocked_state)).1 in
  (~ from_http stocked_state (operation_of (PostProcessOrder 1 1 [Req.mk 0 2])) /\
   200 = 400 /\ s' = stocked_state) \/
  (from_http stocked_state (operation_of (PostProcessOrder 1 1 [Req.mk 0 2])) /\
   exists r,
     exec 10 (operation_of (PostProcessOrder 1 1 [Req.mk 0 2])) stocked_state
     = Some (s', r) /\
     (200 = 200 /\ r = Ok tt \/ 200 = 500 /\ exists e, r = Throw e)).
Proof.
  apply (request_is_checked_operation 10 (PostProcessOrder 1 1 [Req.mk 0 2])).
  vm_compute. reflexivity.
Defined.

Lemma reach_mono (allowed allowed' : State -> Op -> Prop) s0 s :
  (forall s1 op, allowed s1 op -> allowed' s1 op) ->
  reach allowed s0 s -> reach allowed' s0 s.
Proof.
  intros Hsub. induction 1 as [|s' s'' op fuel r _ IH Hop Hexec]; [apply reach_refl|].
  eapply reach_step; [exact IH|by apply Hsub|exact Hexec].
Qed.

Lemma served_reach s0 s : served s0 s -> reach from_http s0 s.
Proof.
  induction 1 as [|s' s'' request fuel code _ IH Hhandle]; [apply reach_refl|].
  destruct (handle_from_http _ _ _ _ _ Hhandle)
    as [(_ & _ & ->)|(Hop & r & Hexec & _)]; [exact IH|].
  eapply reach_step; [exact IH|exact Hop|exact Hexec].
Qed.

Lemma from_http_checked s op : from_http s op -> checked_by_controller s op.
Proof.
  destruct op; simpl; try done; intros [_ H];
    (eapply Forall_impl; [exact H|]); simpl; intros line ?; lia.
Qed.

Lemma from_http_by_allocator s op : from_http s op -> by_allocator s op.
Proof. by destruct op. Qed.

(** Whatever requests are sent to the HTTP interface of a fresh process,
    and whatever they are answered, no stock is negative afterwards and the
    ledger agrees with the shipment records: every record belongs to an order
    of the ledger, and the records of an order hold, product by product, the
    quantities the order has as shipped. *)
Theorem http_keeps_stock_and_ledger s :
  served initial_state s ->
  stock_nonneg (catalog s) /\ ledger_matches_records s.
Proof.
  intros Hserved. apply served_reach in Hserved. split.
  - assert (Hstart : stock_nonneg (catalog initial_state)).
    { intros id product. simpl. by rewrite lookup_empty. }
    induction Hserved as [|s' s'' op fuel r _ IH Hop Hexec]; [exact Hstart|].
    eapply exec_stock_nonneg; [by apply from_http_checked|exact IH|exact Hexec].
  - apply reach_ledger_matches.
    eapply reach_mono; [|exact Hserved]. apply from_http_by_allocator.
Qed.

Lemma http_keeps_stock_and_ledger_witness :
  stock_nonneg (catalog scenario9_state) /\ ledger_matches_records scenario9_state.
Proof.
  apply (http_keeps_stock_and_ledger scenario9_state).
  eapply (served_step _ _ _ (PostProcessOrder 1 1 [Req.mk 0 2]) 10%nat 200).
  - eapply (served_step _ _ _ (PostProcessRestock [Req.mk 0 5]) 10%nat 200).
    + eapply (served_step _ _ _ (PostInitCatalog [product0]) 0%nat 200).
      * apply served_refl.
      * reflexivity.
    + reflexivity.
  - vm_compute. reflexivity.
Defined.

(** ** The order queue *)

Lemma pending_cache_size (cache : gmap Z Order.t) (pendingOrders : list Order.t) :
  NoDup (map Order.orderId pendingOrders) ->
  (forall order, order ∈ pendingOrders -> cache !! Order.orderId order = None) ->
  size (foldl (fun cache order => <[Order.orderId order := order]> cache)
          cache pendingOrders)
  = (size cache + length pendingOrders)%nat.
Proof.
  revert cache. induction pendingOrders as [|order rest IH]; intros cache Hnd Hfresh.
  { simpl. lia. }
  cbn [map foldl length] in *. apply NoDup_cons in Hnd as [Hnotin Hnd].
  rewrite IH; [| exact Hnd |].
  - rewrite map_size_insert_None; [lia|]. apply Hfresh. by left.
  - intros order' Hin. rewrite lookup_insert_ne; [apply Hfresh; by right|].
    intros Heq. apply Hnotin. rewrite Heq. apply list_elem_of_fmap. by exists order'.
Qed.

(** In every state reached from the fresh process, [getOrderQueue] changes
    nothing and returns the orders that are not FULFILLED, each once and the
    oldest first, with a count that is the number of orders it returns. *)
Theorem order_queue_count s :
  reach any_operation initial_state s ->
  exists pendingOrders,
    FulfillmentService.getOrderQueue s
    = (s, Ok (pendingOrders, length pendingOrders)) /\
    NoDup (map Order.orderId pendingOrders) /\
    (forall order,
       order ∈ pendingOrders <-> order ∈ orders s /\ Order.status order <> FULFILLED) /\
    StronglySorted (fun a b => Order.createdAt a <= Order.createdAt b) pendingOrders.
Proof.
  intros Hreach.
  assert (Hnd : NoDup (map Order.orderId (orders s))).
  { revert Hreach. apply reach_one_row. constructor. }
  set (pendingOrders := merge_sort OrderQueueService.created_le
                          (filter OrderQueueService.is_pending (orders s))).
  pose proof (merge_sort_Permutation OrderQueueService.created_le
                (filter OrderQueueService.is_pending (orders s))) as Hperm.
  fold pendingOrders in Hperm.
  assert (Hnd' : NoDup (map Order.orderId pendingOrders)).
  { rewrite Hperm. eapply sublist_NoDup; [exact Hnd|].
    apply fmap_sublist, sublist_filter. }
  exists pendingOrders. split; [|split; [exact Hnd'|split]].
  - unfold FulfillmentService.getOrderQueue, OrderQueueService.getPendingOrders,
      bind, ret.
    fold pendingOrders. unfold OrderQueueService.pending_cache.
    rewrite pending_cache_size; [|exact Hnd'|intros; apply lookup_empty].
    by rewrite map_size_empty.
  - intros order. rewrite Hperm, list_elem_of_filter.
    unfold OrderQueueService.is_pending. destruct (Order.status order); intuition congruence.
  - apply (StronglySorted_merge_sort OrderQueueService.created_le).
Qed.

Lemma reach_state_fifo : reach any_operation initial_state state_fifo.
Proof.
  eapply (reach_step _ _ _ _ (OpProcessOrder 10 1 [Req.mk 0 1]) 10%nat (Ok tt)).
  - eapply (reach_step _ _ _ _ (OpProcessOrder 20 2 [Req.mk 0 1]) 10%nat (Ok tt)).
    + eapply (reach_step _ _ _ _ (OpInitCatalog [product0]) 0%nat (Ok tt)).
      * apply reach_refl.
      * exact I.
      * reflexivity.
    + exact I.
    + vm_compute. reflexivity.
  - exact I.
  - vm_compute. reflexivity.
Defined.

(** Two open orders, the older one stored second: the queue has the older
    one first and counts two. *)
Example order_queue_fifo :
  FulfillmentService.getOrderQueue state_fifo
  = (state_fifo, Ok ([order_A; order_B], 2%nat)).
Proof. vm_compute. reflexivity. Qed.

Lemma order_queue_count_witness :
  exists pendingOrders,
    FulfillmentService.getOrderQueue state_fifo
    = (state_fifo, Ok (pendingOrders, length pendingOrders)) /\
    NoDup (map Order.orderId pendingOrders) /\
    (forall order,
       order ∈ pendingOrders
       <-> order ∈ orders state_fifo /\ Order.status order <> FULFILLED) /\
    StronglySorted (fun a b => Order.createdAt a <= Order.createdAt b) pendingOrders.
Proof. apply (order_queue_count state_fifo). exact reach_state_fifo. Defined.

(** ** Orders stay in the ledger *)

Lemma reach_known id s0 s :
  known_order id (orders s0) -> reach any_operation s0 s -> known_order id (orders s).
Proof.
  apply (reach_orders_invariant (known_order id)).
  - intros orderId items s1.
    apply (recorded_known orderId items), updateOrderShipment_recorded.
  - intros now orderId requestedItems s1 Hs.
    destruct (enqueueOrder_saved now orderId requestedItems s1) as (order & ->).
    simpl. by apply save_known.
Qed.

Lemma processOrder_known fuel now order_id requested s s' r :
  FulfillmentService.processOrder fuel now order_id requested s = Some (s', r) ->
  known_order order_id (orders s').
Proof.
  unfold FulfillmentService.processOrder.
  pose proof (enqueueOrder_ids now order_id requested s) as Hids.
  destruct (OrderQueueService.enqueueOrder now order_id requested s)
    as [s1 [order|e]] eqn:E; simpl in Hids.
  - apply attemptFulfillment_known. unfold known_order.
    destruct (OrderQueueService.findOne (orders s1) order_id) eqn:E1; [eauto|].
    apply findOne_None_fresh in E1. exfalso. apply E1. rewrite Hids.
    destruct (OrderQueueService.findOne (orders s) order_id) eqn:E0.
    + destruct (find_some _ _ E0) as [Hin Hid].
      apply list_elem_of_fmap. eexists. split; [|apply list_elem_of_In, Hin].
      symmetry. by apply Z.eqb_eq.
    + apply elem_of_app. right. by left.
  - destruct (enqueueOrder_saved now order_id requested s) as (order & Hsaved).
    congruence.
Qed.

(** An order that the process-order handler has let through is in the
    ledger from then on: whether the request was answered 200 or 500, and
    whatever requests are served afterwards, the status of the order is
    found (200, not 404). *)
Theorem accepted_order_is_found_ever_after fuel now order_id requested s0 s1 code s :
  handle fuel (PostProcessOrder now order_id requested) s0 = Some (s1, code) ->
  code <> 400 ->
  served s1 s ->
  FulfillmentController.getOrderStatus order_id s = 200.
Proof.
  intros Hhandle Hcode Hserved.
  assert (Hknown : known_order order_id (orders s1)).
  { simpl in Hhandle. unfold FulfillmentController.processOrder in Hhandle.
    destruct (FulfillmentService.is_empty requested); [by injection Hhandle as _ <-|].
    destruct (FulfillmentController.rejects requested); [by injection Hhandle as _ <-|].
    destruct (FulfillmentService.processOrder fuel now order_id requested s0)
      as [[s2 r]|] eqn:E; [|discriminate].
    apply processOrder_known in E.
    destruct r; injection Hhandle as <- _; exact E. }
  assert (Hreach : reach any_operation s1 s).
  { eapply reach_mono; [|apply served_reach, Hserved]. done. }
  destruct (reach_known _ _ _ Hknown Hreach) as [order Hfind].
  unfold FulfillmentController.getOrderStatus, FulfillmentService.getOrderStatus.
  by rewrite Hfind.
Qed.

Lemma accepted_order_is_found_ever_after_witness :
  FulfillmentController.getOrderStatus 7
    (default initial_state
       (fst <$> handle 10 (PostProcessRestock [Req.mk 0 5])
                  (default initial_state
                     (fst <$> handle 10 (PostProcessOrder 1 7 [Req.mk 0 2])
                                initial_state))))
  = 200.
Proof.
  apply (accepted_order_is_found_ever_after 10 1 7 [Req.mk 0 2] initial_state
           (default initial_state
              (fst <$> handle 10 (PostProcessOrder 1 7 [Req.mk 0 2]) initial_state))
           200).
  - vm_compute. reflexivity.
  - discriminate.
  - eapply (served_step _ _ _ (PostProcessRestock [Req.mk 0 5]) 10%nat).
    + apply served_refl.
    + vm_compute. reflexivity.
Defined.
